(** * Manual backpropagation: dense, ReLU and sigmoid layers over a Python-style heap

    The development embeds the "Self study: Manual implementation" cells of
    the backpropagation notebook: the classes [LinearLayer], [Sigmoid] and
    [ReLU], the forward and backward loops over the list [layers], and the
    computation of the binary-cross-entropy seed gradient.

    - Numbers are IEEE binary64 values (Rocq's primitive [float]), the dtype
      [float64] of the notebook's arrays; label arrays and the ReLU mask are
      [int64] and [bool] arrays.
    - Arrays and layer instances live in a heap of objects, addressed by
      references, because the source stores references ([self.input = x]),
      copies ([self.weights.copy()]) and updates in place ([grad /= n]).
    - A computation is a function from heaps to either a raised exception or a
      result and a new heap.
    - The matrix product, [np.sum] and [np.exp] return float64 values that
      numpy leaves to its build (BLAS, blocked summation, vectorised
      [exp]); they are parameters of the embedding, the class [Routines].
      What is proved for every instance of the class holds whatever these
      routines return; the instance [textbook] is used to run the
      definitions, and the few statements about particular values of these
      routines say that they are about it. *)

From Stdlib Require Import ZArith List Lia Floats Uint63.
From stdpp Require Import base option list strings gmap.
Import ListNotations.

Local Open Scope Z_scope.
Local Open Scope nat_scope.

(** ** Binary64 scalars *)

Module F64.

#[global] Instance float_inhabited : Inhabited float := populate 0%float.

  (** Conversion of an integer to [float64] (round to nearest, ties to even),
      as numpy does when an [int64] or Python [int] operand meets a
      [float64] one. *)
Definition of_Z (z : Z) : float :=
    SF2Prim (binary_normalize prec emax z 0 false).

  (** [True] is [1.0] and [False] is [0.0] when a [bool] array is multiplied
      by a [float64] array. *)
Definition of_bool (b : bool) : float := if b then 1%float else 0%float.

  (** Two's-complement wrap-around of [int64] arithmetic. *)
Definition wrap64 (z : Z) : Z :=
    ((z + 2 ^ 63) mod 2 ^ 64 - 2 ^ 63)%Z.

  (** *** A reference exponential

      The exponential of the instance [textbook]: the binary64 rounding (to
      nearest, ties to even) of a fixed-point evaluation of the exponential
      carried to [exp_bits] fractional bits: argument reduction
      [x = k * ln 2 + r] followed by the Taylor polynomial of [e^r] in
      Horner form.  numpy's vectorised [np.exp] may return a neighbouring
      float64. *)

Definition exp_bits : Z := 256.

  (** [floor (ln 2 * 2^256)]. *)
Definition ln2_fix : Z :=
    80260960185991308862233904206310070533990667611589946606122867505419956976171%Z.

  (** [floor (x * 2^exp_bits)] for [x = (-1)^s * m * 2^e]. *)
Definition to_fix (s : bool) (m : positive) (e : Z) : Z :=
    Z.shiftl (cond_Zopp s (Zpos m)) (e + exp_bits).

  (** Horner evaluation of [sum_{n <= N} r^n / n!] at scale [2^exp_bits]:
      [acc := 1 + r * acc / n] for [n = N, N-1, ..., 1]. *)
Fixpoint exp_taylor (n : nat) (r acc : Z) : Z :=
    match n with
    | O => acc
    | S n' =>
        exp_taylor n' r
          (Z.shiftl 1 exp_bits + Z.shiftr (r * acc) exp_bits / Z.of_nat n)%Z
    end.

Definition exp_terms : nat := 64.

Definition exp_finite (s : bool) (m : positive) (e : Z) : spec_float :=
    let x := to_fix s m e in
    let k := ((2 * x + ln2_fix) / (2 * ln2_fix))%Z in
    let r := (x - k * ln2_fix)%Z in
    let acc := exp_taylor exp_terms r (Z.shiftl 1 exp_bits) in
    binary_normalize prec emax acc (k - exp_bits) false.

Definition exp (x : float) : float :=
    match Prim2SF x with
    | S754_nan => nan
    | S754_infinity false => infinity
    | S754_infinity true => 0%float
    | S754_zero _ => 1%float
    | S754_finite s m e =>
        if (1024 <=? x)%float then infinity
        else if (x <=? -1024)%float then 0%float
        else SF2Prim (exp_finite s m e)
    end.

  (** *** Fused multiply-add

      [a * b + c] with one rounding, as the instruction that BLAS kernels
      use where the processor has it.  For finite non-zero operands the sum
      is formed exactly on the common exponent and rounded once; when an
      operand is a zero, an infinity or NaN, or the exact sum is zero, the
      product is exact or the rounding of the product is the only one, and
      the two operations in sequence give the same result. *)
Definition fma (a b c : float) : float :=
    match Prim2SF a, Prim2SF b, Prim2SF c with
    | S754_finite sa ma ea, S754_finite sb mb eb, S754_finite sc mc ec =>
        let e := Z.min (ea + eb) ec in
        let p := cond_Zopp (xorb sa sb) (Z.pos (ma * mb) * 2 ^ (ea + eb - e))%Z in
        let q := cond_Zopp sc (Z.pos mc * 2 ^ (ec - e))%Z in
        if (p + q =? 0)%Z then (a * b + c)%float
        else SF2Prim (binary_normalize prec emax (p + q) e false)
    | _, _, _ => (a * b + c)%float
    end.

End F64.

(** ** Exceptions and results *)

Inductive exn : Type :=
  | AttributeError   (* attribute or method missing, e.g. [None.T] *)
  | TypeError        (* operand of the wrong kind, e.g. [-None] *)
  | ValueError       (* shapes not aligned or not broadcastable *)
  | Unmodelled.      (* dtype or rank combination the notebook never uses *)

Inductive result (A : Type) : Type :=
  | Ok (a : A)
  | Raise (e : exn).
Arguments Ok {A} a.
Arguments Raise {A} e.

(** ** Two-dimensional arrays (values) *)

Module ndarray.

  (** A 2-D array in C (row-major) order: entry [(i, j)] is element
      [i * ncols + j] of [elems]. *)
Record array (A : Type) : Type :=
    MkArray { nrows : nat; ncols : nat; elems : list A }.
  Arguments MkArray {A} nrows ncols elems.
  Arguments nrows {A} a.
  Arguments ncols {A} a.
  Arguments elems {A} a.

Definition wf {A} (a : array A) : Prop :=
    length (elems a) = nrows a * ncols a.

Definition get `{Inhabited A} (a : array A) (i j : nat) : A :=
    nth (i * ncols a + j) (elems a) inhabitant.

Definition tabulate {A} (r c : nat) (f : nat -> nat -> A) : array A :=
    MkArray r c (map (fun k => f (k / c) (k mod c)) (seq 0 (r * c))).

  (** Elementwise application of a scalar function (a ufunc with one array
      operand). *)
Definition vectorize {A B} (f : A -> B) (a : array A) : array B :=
    MkArray (nrows a) (ncols a) (map f (elems a)).

  (** [a.T] *)
Definition transpose `{Inhabited A} (a : array A) : array A :=
    tabulate (ncols a) (nrows a) (fun i j => get a j i).

  (** *** The routines whose rounding numpy leaves to its build

      Three float64 results are not fixed by numpy's interface.  The product
      of float64 matrices is handed to BLAS, which may fuse a multiplication
      with an addition and fixes no order of summation; [np.sum] adds a
      contiguous axis in blocks; [np.exp] is a vectorised routine that need
      not round correctly.  Each is a parameter, a function of the shapes
      and values of its operands:
      - [dot_entry a b i j] is entry [(i, j)] of [a.dot(b)] for 2-D
        operands with [ncols a = nrows b];
      - [sum_entry a j] is entry [(0, j)] of
        [np.sum(a, axis=0, keepdims=True)];
      - [exp_entry v] is what [np.exp] returns in an entry that holds [v]. *)
Class Routines : Type := {
    dot_entry : array float -> array float -> nat -> nat -> float;
    sum_entry : array float -> nat -> float;
    exp_entry : float -> float
  }.

  (** [a.dot(b)] for 2-D operands: numpy checks the shapes and lets the
      routine fill an array of shape [(nrows a, ncols b)]. *)
Definition dot `{Routines} (a b : array float) : result (array float) :=
    if ncols a =? nrows b then
      Ok (tabulate (nrows a) (ncols b) (dot_entry a b))
    else Raise ValueError.

  (** [np.sum(a, axis=0, keepdims=True)] *)
Definition sum_axis0 `{Routines} (a : array float) : array float :=
    tabulate 1 (ncols a) (fun _ j => sum_entry a j).

  (** *** Reference routines

      Sum of [n] terms, accumulated from [+0.0] in index order: the
      textbook inner product. *)
Definition dotsum (n : nat) (term : nat -> float) : float :=
    fold_left (fun acc k => (acc + term k)%float) (seq 0 n) 0%float.

  (** Column [j] summed over the rows: the reduction starts from the first
      row and adds the following ones in order; an empty column sums to
      [0.0]. *)
Definition colsum (a : array float) (j : nat) : float :=
    match nrows a with
    | O => 0%float
    | S n => fold_left (fun acc i => (acc + get a i j)%float) (seq 1 n) (get a 0 j)
    end.

  (** *** Routines of another build

      The inner product accumulated by fused multiply-add from [+0.0], and
      the sum of [n] terms in blocks, after numpy's summation of a
      contiguous axis: fewer than eight terms are added in index order from
      [+0.0]; from eight terms on, eight interleaved partial sums are kept
      and combined pairwise, and the terms left over are added last. *)
Definition fused_dotsum (n : nat) (a b : nat -> float) : float :=
    fold_left (fun acc k => F64.fma (a k) (b k) acc) (seq 0 n) 0%float.

Definition blocked_sum (n : nat) (a : nat -> float) : float :=
    if n <? 8 then fold_left (fun acc i => (acc + a i)%float) (seq 0 n) 0%float
    else
      let blocks := n / 8 in
      let r (j : nat) :=
        fold_left (fun acc (k : nat) => (acc + a (8 * k + j)%nat)%float)
          (seq 1 (blocks - 1)) (a j) in
      let res :=
        PrimFloat.add
          (PrimFloat.add (PrimFloat.add (r 0) (r 1)) (PrimFloat.add (r 2) (r 3)))
          (PrimFloat.add (PrimFloat.add (r 4) (r 5)) (PrimFloat.add (r 6) (r 7))) in
      fold_left (fun acc i => (acc + a i)%float)
        (seq (8 * blocks) (n - 8 * blocks)) res.

  (** Broadcasting of one axis: equal lengths, or one of them is 1. *)
Definition bdim (m n : nat) : option nat :=
    if m =? n then Some m
    else if m =? 1 then Some n
    else if n =? 1 then Some m
    else None.

  (** Index into an axis of length [m] that may have been stretched. *)
Definition bidx (m i : nat) : nat := if m =? 1 then 0 else i.

  (** A binary ufunc applied to two 2-D operands under numpy's broadcasting
      rules. *)
Definition broadcast `{Inhabited A, Inhabited B} {C}
      (f : A -> B -> C) (a : array A) (b : array B) : result (array C) :=
    match bdim (nrows a) (nrows b), bdim (ncols a) (ncols b) with
    | Some r, Some c =>
        Ok (tabulate r c (fun i j =>
              f (get a (bidx (nrows a) i) (bidx (ncols a) j))
                (get b (bidx (nrows b) i) (bidx (ncols b) j))))
    | _, _ => Raise ValueError
    end.

  (** A 1-D array of length [n] broadcasts against 2-D operands as a single
      row. *)
Definition row {A} (v : list A) : array A := MkArray 1 (length v) v.

End ndarray.
Import ndarray.

(** ** The heap of Python objects *)

(** A reference is the position of an object in the heap; allocation appends,
    so references are never reused. *)
Abbreviation loc := nat (only parsing).

(** What an attribute or a variable holds: [None] or a reference. *)
Inductive value : Type :=
  | VNone
  | VRef (l : loc).

Inductive class : Type := cLinearLayer | cSigmoid | cReLU.

Inductive object : Type :=
  | Float64 (a : array float)        (* 2-D ndarray, dtype float64 *)
  | Float64_1d (v : list float)      (* 1-D ndarray, dtype float64 (a bias) *)
  | Int64 (a : array Z)              (* 2-D ndarray, dtype int64 *)
  | Bool (a : array bool)            (* 2-D ndarray, dtype bool *)
  | Obj (c : class) (attrs : gmap string value).  (* instance with its __dict__ *)

Abbreviation heap := (list object) (only parsing).

(** Computations: state passing over the heap, with exceptions. *)
Definition M (A : Type) : Type := heap -> result (A * heap).

#[global] Instance M_ret : MRet M := fun A a h => Ok (a, h).
#[global] Instance M_bind : MBind M := fun A B k m h =>
  match m h with
  | Ok (a, h') => k a h'
  | Raise e => Raise e
  end.

Definition raise {A} (e : exn) : M A := fun _ => Raise e.

Definition lift {A} (r : result A) : M A := fun h =>
  match r with
  | Ok a => Ok (a, h)
  | Raise e => Raise e
  end.

Definition alloc (o : object) : M loc := fun h => Ok (length h, h ++ [o]).

Definition deref (l : loc) : M object := fun h =>
  match h !! l with
  | Some o => Ok (o, h)
  | None => Raise Unmodelled
  end.

Definition store (l : loc) (o : object) : M unit := fun h =>
  Ok (tt, <[l := o]> h).

(** [self.name] *)
Definition getattr (self : loc) (name : string) : M value :=
  o ← deref self;
  match o with
  | Obj _ attrs =>
      match attrs !! name with
      | Some v => mret v
      | None => raise AttributeError
      end
  | _ => raise AttributeError
  end.

(** [self.name = v] *)
Definition setattr (self : loc) (name : string) (v : value) : M unit :=
  o ← deref self;
  match o with
  | Obj c attrs => store self (Obj c (<[name := v]> attrs))
  | _ => raise AttributeError
  end.

(** The array a value refers to; [e] is what the operation raises on
    [None]. *)
Definition the_array (e : exn) (v : value) : M loc :=
  match v with
  | VRef l => mret l
  | VNone => raise e
  end.

(** [C()]: a new instance of class [c] with an empty [__dict__], on which
    the constructor [init] of the class runs; the call yields the
    instance. *)
Definition construct (c : class) (init : loc -> M unit) : M loc :=
  self ← alloc (Obj c ∅);
  init self;;
  mret self.

(** ** numpy operations on references

    Each operation reads its operands from the heap and allocates its result
    as a new object, as numpy does.  Operand kinds the notebook never
    combines raise [Unmodelled]. *)

Module np.

  (** [a.copy()] *)
Definition copy (a : loc) : M loc :=
    o ← deref a;
    match o with
    | Obj _ _ => raise AttributeError
    | _ => alloc o
    end.

  (** [a.T]; numpy returns a view, the model a transposed array, which
      reads the same as long as [a] is not written in between. *)
Definition T (a : loc) : M loc :=
    o ← deref a;
    match o with
    | Float64 x => alloc (Float64 (transpose x))
    | _ => raise Unmodelled
    end.

  (** [a.dot(b)] *)
Definition dot `{Routines} (a b : loc) : M loc :=
    oa ← deref a;
    ob ← deref b;
    match oa, ob with
    | Float64 x, Float64 y => r ← lift (ndarray.dot x y); alloc (Float64 r)
    | _, _ => raise Unmodelled
    end.

  (** [np.sum(a, axis=0, keepdims=True)] *)
Definition sum_axis0_keepdims `{Routines} (a : loc) : M loc :=
    o ← deref a;
    match o with
    | Float64 x => alloc (Float64 (sum_axis0 x))
    | _ => raise Unmodelled
    end.

  (** [a + b] *)
Definition add (a b : loc) : M loc :=
    oa ← deref a;
    ob ← deref b;
    match oa, ob with
    | Float64 x, Float64 y =>
        r ← lift (broadcast PrimFloat.add x y); alloc (Float64 r)
    | Float64 x, Float64_1d v =>
        r ← lift (broadcast PrimFloat.add x (row v)); alloc (Float64 r)
    | _, _ => raise Unmodelled
    end.

  (** [a * b] *)
Definition mul (a b : loc) : M loc :=
    oa ← deref a;
    ob ← deref b;
    match oa, ob with
    | Float64 x, Float64 y =>
        r ← lift (broadcast PrimFloat.mul x y); alloc (Float64 r)
    | Bool m, Float64 y =>
        r ← lift (broadcast (fun t v => (F64.of_bool t * v)%float) m y);
        alloc (Float64 r)
    | Float64 x, Int64 d =>
        r ← lift (broadcast (fun v n => (v * F64.of_Z n)%float) x d);
        alloc (Float64 r)
    | _, _ => raise Unmodelled
    end.

  (** [a / b] *)
Definition truediv (a b : loc) : M loc :=
    oa ← deref a;
    ob ← deref b;
    match oa, ob with
    | Float64 x, Float64 y =>
        r ← lift (broadcast PrimFloat.div x y); alloc (Float64 r)
    | Int64 n, Float64 y =>
        r ← lift (broadcast (fun k v => (F64.of_Z k / v)%float) n y);
        alloc (Float64 r)
    | _, _ => raise Unmodelled
    end.

  (** [-a] *)
Definition neg (a : loc) : M loc :=
    o ← deref a;
    match o with
    | Float64 x => alloc (Float64 (vectorize PrimFloat.opp x))
    | _ => raise Unmodelled
    end.

  (** [np.exp(a)] *)
Definition exp `{Routines} (a : loc) : M loc :=
    o ← deref a;
    match o with
    | Float64 x => alloc (Float64 (vectorize exp_entry x))
    | _ => raise Unmodelled
    end.

  (** [1 + a] *)
Definition radd1 (a : loc) : M loc :=
    o ← deref a;
    match o with
    | Float64 x => alloc (Float64 (vectorize (fun v => (1 + v)%float) x))
    | _ => raise Unmodelled
    end.

  (** [1 / a] *)
Definition rdiv1 (a : loc) : M loc :=
    o ← deref a;
    match o with
    | Float64 x => alloc (Float64 (vectorize (fun v => (1 / v)%float) x))
    | _ => raise Unmodelled
    end.

  (** [1 - a] *)
Definition rsub1 (a : loc) : M loc :=
    o ← deref a;
    match o with
    | Float64 x => alloc (Float64 (vectorize (fun v => (1 - v)%float) x))
    | Int64 n => alloc (Int64 (vectorize (fun k => F64.wrap64 (1 - k)) n))
    | _ => raise Unmodelled
    end.

  (** [a > 0] *)
Definition gt0 (a : loc) : M loc :=
    o ← deref a;
    match o with
    | Float64 x => alloc (Bool (vectorize (fun v => (0 <? v)%float) x))
    | _ => raise Unmodelled
    end.

  (** [a.astype(int)] *)
Definition astype_int (a : loc) : M loc :=
    o ← deref a;
    match o with
    | Bool m => alloc (Int64 (vectorize (fun t : bool => if t then 1%Z else 0%Z) m))
    | _ => raise Unmodelled
    end.

  (** [a.shape[0]] *)
Definition shape0 (a : loc) : M nat :=
    o ← deref a;
    match o with
    | Float64 x => mret (nrows x)
    | Int64 x => mret (nrows x)
    | Bool x => mret (nrows x)
    | _ => raise Unmodelled
    end.

  (** [a /= n] for a Python [int] [n]: the array is updated in place. *)
Definition itruediv (a : loc) (n : nat) : M unit :=
    o ← deref a;
    match o with
    | Float64 x =>
        store a (Float64 (vectorize (fun v => (v / F64.of_Z (Z.of_nat n))%float) x))
    | _ => raise Unmodelled
    end.

End np.

(** ** The layer classes *)

(** [class LinearLayer].  The constructor draws [weights] and [bias] from
    the random generator and sets [input], [grad_weights] and [grad_bias] to
    [None]; the methods below run on any instance. *)
Module LinearLayer.

Definition forward_pass `{Routines} (self x : loc) (training : bool) : M loc :=
    setattr self "input" (VRef x);;
    weights ← getattr self "weights" ≫= the_array TypeError;
    xw ← np.dot x weights;
    bias ← getattr self "bias" ≫= the_array TypeError;
    np.add xw bias.

Definition backward_pass `{Routines} (self cum_grad : loc) : M loc :=
    weights ← (getattr self "weights" ≫= the_array AttributeError) ≫= np.copy;
    input_T ← (getattr self "input" ≫= the_array AttributeError) ≫= np.T;
    grad_weights ← np.dot input_T cum_grad;
    setattr self "grad_weights" (VRef grad_weights);;
    grad_bias ← np.sum_axis0_keepdims cum_grad;
    setattr self "grad_bias" (VRef grad_bias);;
    weights_T ← np.T weights;
    np.dot cum_grad weights_T.

End LinearLayer.

(** [class Sigmoid] *)
Module Sigmoid.

Definition __init__ (self : loc) : M unit :=
    setattr self "input" VNone;;
    setattr self "grad" VNone.

Definition _sigmoid `{Routines} (self x : loc) : M loc :=
    minus_x ← np.neg x;
    e ← np.exp minus_x;
    d ← np.radd1 e;
    np.rdiv1 d.

Definition gradient `{Routines} (self x : loc) : M loc :=
    s ← _sigmoid self x;
    s' ← _sigmoid self x;
    c ← np.rsub1 s';
    np.mul s c.

Definition forward_pass `{Routines} (self x : loc) : M loc :=
    setattr self "input" (VRef x);;
    _sigmoid self x.

Definition backward_pass `{Routines} (self cum_grad : loc) : M loc :=
    input ← getattr self "input" ≫= the_array TypeError;
    grad ← gradient self input;
    setattr self "grad" (VRef grad);;
    grad ← getattr self "grad" ≫= the_array TypeError;
    np.mul cum_grad grad.

End Sigmoid.

(** [class ReLU] *)
Module ReLU.

Definition __init__ (self : loc) : M unit :=
    setattr self "input" VNone;;
    setattr self "grad" VNone.

Definition gradient (self x : loc) : M loc :=
    positive ← np.gt0 x;
    np.astype_int positive.

Definition forward_pass (self x : loc) : M loc :=
    setattr self "input" (VRef x);;
    positive ← np.gt0 x;
    np.mul positive x.

Definition backward_pass (self cum_grad : loc) : M loc :=
    input ← getattr self "input" ≫= the_array TypeError;
    grad ← gradient self input;
    setattr self "grad" (VRef grad);;
    grad ← getattr self "grad" ≫= the_array TypeError;
    np.mul cum_grad grad.

End ReLU.

(** ** The network: the list [layers] and the two loops *)

Definition class_of (layer : loc) : M class :=
  o ← deref layer;
  match o with
  | Obj c _ => mret c
  | _ => raise AttributeError
  end.

(** [layer.forward_pass(out)]: the method of the instance's class; a
    [LinearLayer] takes its default [training=True]. *)
Definition call_forward_pass `{Routines} (layer out : loc) : M loc :=
  c ← class_of layer;
  match c with
  | cLinearLayer => LinearLayer.forward_pass layer out true
  | cSigmoid => Sigmoid.forward_pass layer out
  | cReLU => ReLU.forward_pass layer out
  end.

(** [layer.backward_pass(grad)] *)
Definition call_backward_pass `{Routines} (layer grad : loc) : M loc :=
  c ← class_of layer;
  match c with
  | cLinearLayer => LinearLayer.backward_pass layer grad
  | cSigmoid => Sigmoid.backward_pass layer grad
  | cReLU => ReLU.backward_pass layer grad
  end.

(** [for layer in layers: out = layer.forward_pass(out)] *)
Fixpoint forward_loop `{Routines} (layers : list loc) (out : loc) : M loc :=
  match layers with
  | [] => mret out
  | layer :: rest => out' ← call_forward_pass layer out; forward_loop rest out'
  end.

(** [for layer in ...: grad = layer.backward_pass(grad)] *)
Fixpoint backward_loop `{Routines} (layers : list loc) (grad : loc) : M loc :=
  match layers with
  | [] => mret grad
  | layer :: rest => grad' ← call_backward_pass layer grad; backward_loop rest grad'
  end.

(** The forward cell up to [probs_np = out]: [out = x_in.copy()], then the
    loop.  The statement that ends the cell,
    [loss_np = sklearn.metrics.log_loss(y, probs_np)], hands the result to a
    library routine and is not part of the embedding: nothing below says
    what it returns or whether it raises. *)
Definition network_forward `{Routines} (layers : list loc) (x_in : loc) : M loc :=
  out ← np.copy x_in;
  forward_loop layers out.

(** The backward cell: the loop over [layers[::-1]]. *)
Definition network_backward `{Routines} (layers : list loc) (grad : loc) : M loc :=
  backward_loop (rev layers) grad.

(** The seed of the backward pass:
    [grad = -(y / probs_np) + (1 - y) / (1 - probs_np)] and then
    [grad /= grad.shape[0]]. *)
Definition seed_gradient (y probs_np : loc) : M loc :=
  q ← np.truediv y probs_np;
  minus_q ← np.neg q;
  one_minus_y ← np.rsub1 y;
  one_minus_p ← np.rsub1 probs_np;
  t ← np.truediv one_minus_y one_minus_p;
  grad ← np.add minus_q t;
  n ← np.shape0 grad;
  np.itruediv grad n;;
  mret grad.

(** Not NaN and not negative: a zero, a positive finite number or [+inf]. *)
Definition sf_nonneg (s : spec_float) : bool :=
  match s with
  | S754_zero _ => true
  | S754_finite false _ _ => true
  | S754_infinity false => true
  | _ => false
  end.

(** [1.0] in binary64. *)
Definition one64 : spec_float := S754_finite false 4503599627370496 (-52).

(** [1.0 / y <= 1.0] for [y] each power of two from [1.0] up to the largest
    one, checked by evaluation. *)
Definition pow2_quotients_ok : bool :=
  forallb (fun k =>
    SFleb (SF64div one64 (S754_finite false 4503599627370496 (-52 + Z.of_nat k)))
      one64)
    (seq 0 1024).

(** The scalar that [Sigmoid._sigmoid] computes in every entry:
    [1 / (1 + np.exp(-x))]. *)
Definition sigmoid `{Routines} (v : float) : float :=
  (1 / (1 + exp_entry (- v)))%float.

(** The arrays allocated by one evaluation of [_sigmoid]. *)
Definition sigmoid_objects `{Routines} (X : array float) : list object :=
  [Float64 (vectorize PrimFloat.opp X);
   Float64 (vectorize (fun v => exp_entry (- v)) X);
   Float64 (vectorize (fun v => (1 + exp_entry (- v))%float) X);
   Float64 (vectorize sigmoid X)].

(** What a run returned, the final heap left aside. *)
Definition returned {A} (r : result (A * heap)) : option A :=
  match r with
  | Ok (a, _) => Some a
  | Raise _ => None
  end.

(** ** A small network, for running the definitions

    A dense layer of shape [(2, 1)] with weights [[3], [4]] and bias [0.5],
    one activation layer of each kind, a batch of three inputs, a gradient
    and a label array.  [input] is what the dense layer's attribute [input]
    holds: [None] after construction, the batch after a forward call. *)

Definition attrs (l : list (string * value)) : gmap string value := list_to_map l.

Definition sample_weights : array float := MkArray 2 1 [3; 4]%float.
Definition sample_bias : list float := [0.5%float].
Definition sample_batch : array float := MkArray 3 2 [1; 2; -1; -2; 0; 0]%float.
Definition sample_gradient : array float := MkArray 3 1 [1; 0.5; -1]%float.
Definition sample_labels : array Z := MkArray 3 2 [1; 0; 0; 1; 1; 1]%Z.
Definition other_weights : array float := MkArray 2 1 [5; 7]%float.

Definition dense_attrs (input : value) : gmap string value :=
  attrs [("weights", VRef 0); ("bias", VRef 1); ("input", input);
         ("grad_weights", VNone); ("grad_bias", VNone)].

Definition activation_attrs : gmap string value :=
  attrs [("input", VRef 3); ("grad", VNone)].

Definition sample_heap (input : value) : heap :=
  [ Float64 sample_weights;              (* 0: weights of the dense layer *)
    Float64_1d sample_bias;              (* 1: its bias *)
    Obj cLinearLayer (dense_attrs input);(* 2: the dense layer *)
    Float64 sample_batch;                (* 3: a batch *)
    Float64 sample_gradient;             (* 4: a gradient *)
    Obj cReLU activation_attrs;          (* 5: a ReLU layer *)
    Obj cSigmoid activation_attrs;       (* 6: a sigmoid layer *)
    Int64 sample_labels;                 (* 7: labels *)
    Float64 other_weights                (* 8: another weight matrix *)
  ].

(** ** Notions used by the further properties *)

(** The scalar that [ReLU.forward_pass] computes in every entry:
    [(x > 0) * x]. *)
Definition relu (v : float) : float := (F64.of_bool (0 <? v) * v)%float.

(** What a pass may do to an object that exists when it starts: an array
    stays as it is; an instance keeps its class and what its attributes
    [weights] and [bias] are bound to. *)
Definition kept (o o' : object) : Prop :=
  match o with
  | Obj c d =>
      exists d', o' = Obj c d' /\
        d' !! "weights" = d !! "weights" /\ d' !! "bias" = d !! "bias"
  | _ => o' = o
  end.

(** The heap [h'] has every object of [h] at its place, each as [kept]
    allows; it may hold new objects after them. *)
Definition heap_kept (h h' : heap) : Prop :=
  length h <= length h' /\
  forall l o, h !! l = Some o -> exists o', h' !! l = Some o' /\ kept o o'.

(** A computation that, when it returns, leaves the heap as [heap_kept]
    allows; and one whose result is moreover a reference it has allocated
    itself. *)
Definition keeps {A} (m : M A) : Prop :=
  forall h a h', m h = Ok (a, h') -> heap_kept h h'.

Definition allocates (m : M loc) : Prop :=
  forall h a h', m h = Ok (a, h') -> heap_kept h h' /\ length h <= a < length h'.

(** Closed forms of the arrays that the passes compute. *)

(** [a.dot(b)] for operands of aligned shapes, and [a.dot(b) + v] for a
    1-D array [v] of [ncols b] entries. *)
Definition matmul `{Routines} (a b : array float) : array float :=
  tabulate (nrows a) (ncols b) (dot_entry a b).

Definition affine `{Routines} (x w : array float) (b : list float) : array float :=
  tabulate (nrows x) (ncols w) (fun i j => (dot_entry x w i j + nth j b 0)%float).

(** [a.T.dot(b)] and [a.dot(b.T)] *)
Definition matmul_tn `{Routines} (a b : array float) : array float :=
  matmul (transpose a) b.

Definition matmul_nt `{Routines} (a b : array float) : array float :=
  matmul a (transpose b).

(** A binary operation entry by entry, on operands of one shape. *)
Definition map2 `{Inhabited A, Inhabited B} {C} (f : A -> B -> C)
    (a : array A) (b : array B) : array C :=
  tabulate (nrows a) (ncols a) (fun i j => f (get a i j) (get b i j)).

(** The local derivatives: [sigmoid(x) * (1 - sigmoid(x))] of
    [Sigmoid.gradient] and [(x > 0).astype(int)] of [ReLU.gradient]. *)
Definition sigmoid_gradient `{Routines} (v : float) : float :=
  (sigmoid v * (1 - sigmoid v))%float.

Definition relu_gradient (v : float) : Z := if (0 <? v)%float then 1%Z else 0%Z.

(** [-(y / p) + (1 - y) / (1 - p)], divided by the number of rows. *)
Definition bce_seed (y : array Z) (p : array float) : array float :=
  map2 (fun k v =>
          ((- (F64.of_Z k / v) + F64.of_Z (F64.wrap64 (1 - k)) / (1 - v))
           / F64.of_Z (Z.of_nat (nrows p)))%float) y p.

(** The arrays allocated by the computation of the seed gradient, the last
    one divided in place. *)
Definition seed_objects (y : array Z) (p : array float) : list object :=
  [Float64 (map2 (fun k v => (F64.of_Z k / v)%float) y p);
   Float64 (vectorize PrimFloat.opp (map2 (fun k v => (F64.of_Z k / v)%float) y p));
   Int64 (vectorize (fun k => F64.wrap64 (1 - k)) y);
   Float64 (vectorize (fun v => (1 - v)%float) p);
   Float64 (map2 (fun k v => (F64.of_Z k / v)%float)
              (vectorize (fun k => F64.wrap64 (1 - k)) y)
              (vectorize (fun v => (1 - v)%float) p));
   Float64 (bce_seed y p)].

(** A network of the notebook's architecture (dense [2 -> 4], ReLU, dense
    [4 -> 1], sigmoid: the two dense layers with their parameters), the
    batch and its labels. *)
Definition hidden_weights : array float :=
  MkArray 2 4 [0.5; -0.25; 1; -1; -0.5; 0.75; 0.25; 1]%float.
Definition hidden_bias : list float := [0.25; -0.25; 0.5; 0]%float.
Definition output_weights : array float := MkArray 4 1 [0.25; 0.5; -0.25; 0.125]%float.
Definition output_bias : list float := [-0.25]%float.
Definition network_labels : array Z := MkArray 3 1 [0; 1; 0]%Z.

Definition linear_attrs (weights bias : loc) : gmap string value :=
  attrs [("weights", VRef weights); ("bias", VRef bias); ("input", VNone);
         ("grad_weights", VNone); ("grad_bias", VNone)].

Definition network_heap : heap :=
  [ Float64 hidden_weights;                (* 0 *)
    Float64_1d hidden_bias;                (* 1 *)
    Obj cLinearLayer (linear_attrs 0 1);   (* 2: l0 *)
    Float64 output_weights;                (* 3 *)
    Float64_1d output_bias;                (* 4 *)
    Obj cLinearLayer (linear_attrs 3 4);   (* 5: l1 *)
    Float64 sample_batch;                  (* 6: x_in *)
    Int64 network_labels                   (* 7: y *)
  ].


(** Not NaN and not positive: a zero, a negative finite number or [-inf]. *)
Definition sf_nonpos (s : spec_float) : bool :=
  match s with
  | S754_zero _ => true
  | S754_finite true _ _ => true
  | S754_infinity true => true
  | _ => false
  end.

(** A product routine that computes row [i] of [a.dot(b)] from row [i] of
    [a] alone, for operands of given shapes. *)
Definition row_local `{Routines} : Prop :=
  forall (a a' b : array float) (i j : nat),
    nrows a' = nrows a -> ncols a' = ncols a ->
    (forall k, k < ncols a -> get a' i k = get a i k) ->
    dot_entry a' b i j = dot_entry a b i j.

(** ** The textbook routines

    The instance with which the definitions are run: inner products and
    column sums accumulated in index order, and the reference exponential.
    numpy's own routines may return other float64 values (a fused
    multiply-add in the product, a blocked sum, an [exp] one or two units in
    the last place away); a statement that is to hold of them is stated for
    every instance of [Routines]. *)
#[global] Instance textbook : Routines := {|
  dot_entry a b i j := dotsum (ncols a) (fun k => (get a i k * get b k j)%float);
  sum_entry := colsum;
  exp_entry := F64.exp
|}.

(** Another member of the class, which departs from [textbook] in the last
    place: products by fused multiply-add, and every column summed in
    blocks and added to the initial [+0.0] of the reduction.  No statement
    is about it in particular; it is there to show what the statements for
    every instance cover ([routines_differ]). *)
Definition fused : Routines := {|
  dot_entry a b i j := fused_dotsum (ncols a) (fun k => get a i k) (fun k => get b k j);
  sum_entry a j := (0 + blocked_sum (nrows a) (fun i => get a i j))%float;
  exp_entry := F64.exp
|}.

(** * Properties *)

(** ** Arrays *)

Section ArrayFacts.
  Context `{Inhabited A}.

Lemma tabulate_wf (r c : nat) (f : nat -> nat -> A) : wf (tabulate r c f).
  Proof. unfold wf, tabulate; simpl. now rewrite length_map, length_seq. Qed.

Lemma flat_index (c i j : nat) :
    j < c -> (i * c + j) / c = i /\ (i * c + j) mod c = j.
  Proof.
    intros Hj. split.
    - rewrite Nat.add_comm, Nat.div_add by lia. rewrite Nat.div_small; lia.
    - rewrite Nat.add_comm, Nat.Div0.mod_add. now apply Nat.mod_small.
  Qed.

Lemma flat_index_lt (r c i j : nat) : i < r -> j < c -> i * c + j < r * c.
  Proof. intros Hi Hj. nia. Qed.

Lemma get_tabulate (r c : nat) (f : nat -> nat -> A) (i j : nat) :
    i < r -> j < c -> get (tabulate r c f) i j = f i j.
  Proof.
    intros Hi Hj. unfold get, tabulate; simpl.
    pose proof (flat_index_lt r c i j Hi Hj) as Hlt.
    set (g := fun k => f (k / c) (k mod c)).
    rewrite (nth_indep _ inhabitant (g 0)) by now rewrite length_map, length_seq.
    rewrite map_nth, seq_nth by assumption. unfold g; simpl.
    destruct (flat_index c i j Hj) as [-> ->]. reflexivity.
  Qed.

Lemma tabulate_ext (r c : nat) (f g : nat -> nat -> A) :
    (forall i j, i < r -> j < c -> f i j = g i j) ->
    tabulate r c f = tabulate r c g.
  Proof.
    intros Hfg. unfold tabulate. f_equal.
    apply map_ext_in. intros k Hk. apply in_seq in Hk.
    destruct c as [|c]; [lia|].
    apply Hfg.
    - apply Nat.Div0.div_lt_upper_bound. lia.
    - apply Nat.mod_upper_bound. lia.
  Qed.

Lemma get_transpose (a : array A) (i j : nat) :
    i < ncols a -> j < nrows a -> get (transpose a) i j = get a j i.
  Proof. intros Hi Hj. unfold transpose. now rewrite get_tabulate. Qed.

End ArrayFacts.

Lemma vectorize_wf {A B} (f : A -> B) (a : array A) : wf a -> wf (vectorize f a).
Proof. unfold wf, vectorize; simpl. now rewrite length_map. Qed.

Lemma get_vectorize `{Inhabited A, Inhabited B} (f : A -> B) (a : array A) (i j : nat) :
  wf a -> i < nrows a -> j < ncols a ->
  get (vectorize f a) i j = f (get a i j).
Proof.
  unfold wf, get, vectorize; simpl. intros Hwf Hi Hj.
  pose proof (flat_index_lt _ _ i j Hi Hj) as Hlt.
  rewrite (nth_indep _ inhabitant (f inhabitant)) by (rewrite length_map; lia).
  apply map_nth.
Qed.

Lemma dotsum_ext (n : nat) (s t : nat -> float) :
  (forall k, k < n -> s k = t k) -> dotsum n s = dotsum n t.
Proof.
  unfold dotsum. generalize 0%float as acc.
  assert (Hin : forall k, In k (seq 0 n) -> k < n) by (intros k Hk; apply in_seq in Hk; lia).
  revert Hin. generalize (seq 0 n) as l.
  induction l as [|k l IH]; intros Hin acc Hst; simpl; [reflexivity|].
  rewrite (Hst k) by (apply Hin; now left).
  apply IH; [intros; apply Hin; now right | assumption].
Qed.

(** Broadcasting two operands of one shape is the elementwise operation. *)
Lemma bidx_lt (m i : nat) : i < m -> bidx m i = i.
Proof. unfold bidx. intros Hi. destruct (Nat.eqb_spec m 1); lia. Qed.

Lemma bdim_same (m : nat) : bdim m m = Some m.
Proof. unfold bdim. now rewrite Nat.eqb_refl. Qed.

Lemma broadcast_same `{Inhabited A, Inhabited B} {C} (f : A -> B -> C)
    (a : array A) (b : array B) :
  nrows a = nrows b -> ncols a = ncols b ->
  broadcast f a b =
    Ok (tabulate (nrows a) (ncols a) (fun i j => f (get a i j) (get b i j))).
Proof.
  intros Hr Hc. unfold broadcast. rewrite <- Hr, <- Hc, !bdim_same.
  f_equal. apply tabulate_ext. intros i j Hi Hj.
  now rewrite !bidx_lt.
Qed.

(** Adding a 1-D array of the right length adds it to every row. *)
Lemma broadcast_row `{Inhabited A, Inhabited B} {C} (f : A -> B -> C)
    (a : array A) (v : list B) :
  ncols a = length v ->
  broadcast f a (row v) =
    Ok (tabulate (nrows a) (ncols a) (fun i j => f (get a i j) (nth j v inhabitant))).
Proof.
  intros Hc. unfold broadcast. simpl. rewrite <- Hc, bdim_same.
  assert (Hr : bdim (nrows a) 1 = Some (nrows a)).
  { unfold bdim. destruct (Nat.eqb_spec (nrows a) 1) as [->|]; reflexivity. }
  rewrite Hr. f_equal. apply tabulate_ext. intros i j Hi Hj.
  rewrite !bidx_lt by assumption. unfold get at 2. simpl. reflexivity.
Qed.

(** ** Running computations on the heap *)

Lemma bind_run {A B} (m : M A) (k : A -> M B) (h h' : heap) (a : A)
    (r : result (B * heap)) :
  m h = Ok (a, h') -> k a h' = r -> (m ≫= k) h = r.
Proof. intros Hm <-. unfold mbind, M_bind. now rewrite Hm. Qed.

Lemma returned_run {A} (r : result (A * heap)) (a : A) (h' : heap) :
  r = Ok (a, h') -> returned r = Some a.
Proof. now intros ->. Qed.

Lemma lookup_new (h t : heap) (o : object) : (h ++ o :: t) !! length h = Some o.
Proof. apply list_lookup_middle. reflexivity. Qed.

Lemma lookup_old (h t : heap) (l : loc) (o : object) :
  h !! l = Some o -> (h ++ t) !! l = Some o.
Proof. apply lookup_app_l_Some. Qed.

Lemma lookup_set_same (h : heap) (s : loc) (o o0 : object) :
  h !! s = Some o0 -> <[s := o]> h !! s = Some o.
Proof. intros Hs. apply list_lookup_insert_eq. eapply lookup_lt_Some, Hs. Qed.

Lemma lookup_set_other (h : heap) (s l : loc) (o o' : object) :
  l <> s -> h !! l = Some o' -> <[s := o]> h !! l = Some o'.
Proof. intros Hne Hl. now rewrite list_lookup_insert_ne. Qed.

(** The [k]-th object allocated by a run that started in a heap of the size
    of [h]. *)
Lemma lookup_allocated (h t : heap) (k : nat) :
  (h ++ t) !! (length h + k) = t !! k.
Proof. rewrite lookup_app_r by lia. f_equal. lia. Qed.

Ltac prim :=
  unfold mbind, M_bind, mret, M_ret, deref, alloc, store, lift, raise in *.

(** [l <> s], from the kinds of the objects they refer to or from the sizes
    of the heaps they were allocated in. *)
Ltac heap_neq :=
  solve [ congruence
        | intros ->; congruence
        | repeat match goal with
            | H : ?h !! ?l = Some _ |- _ =>
                lazymatch goal with
                | _ : l < length h |- _ => fail
                | _ => pose proof (lookup_lt_Some _ _ _ H)
                end
            end;
          rewrite ?length_app, ?length_insert in *; simpl in *; lia ].

Ltac heap_lookup :=
  solve [ repeat first
    [ eassumption
    | apply lookup_new
    | rewrite lookup_allocated; reflexivity
    | apply lookup_old
    | eapply lookup_set_same
    | apply lookup_set_other; [heap_neq|] ] ].

Ltac attr_lookup :=
  solve [ repeat first
    [ eassumption
    | apply lookup_insert_eq
    | rewrite lookup_insert_ne by discriminate ] ].

Ltac premises := first [heap_lookup | attr_lookup | eassumption | reflexivity].

(** Run the first command of a sequence with the lemma [lem]. *)
Ltac run lem := eapply bind_run; [ eapply lem; premises | ].

(** Heaps in normal form: the attribute updates of the instance pushed to the
    initial heap, followed by the objects allocated since. *)
Ltac heap_norm :=
  repeat progress
    (rewrite ?length_app, ?length_insert; simpl length;
     repeat (rewrite insert_app_l by heap_neq);
     rewrite ?list_insert_insert_eq;
     rewrite <- ?app_assoc; simpl app;
     rewrite <- ?Nat.add_assoc; simpl Nat.add).

(** Run the last command with [lem] and compare the heaps. *)
Ltac finish lem := etrans; [ eapply lem; premises | ]; heap_norm; reflexivity.

Section Primitives.
  Context `{Routines}.
  Variable h : heap.

Lemma getattr_run (self : loc) (name : string) c d v :
    h !! self = Some (Obj c d) -> d !! name = Some v ->
    getattr self name h = Ok (v, h).
  Proof. intros Hs Hn. unfold getattr. prim. now rewrite Hs, Hn. Qed.

Lemma getattr_array_run (self : loc) (name : string) (e : exn) c d l :
    h !! self = Some (Obj c d) -> d !! name = Some (VRef l) ->
    (getattr self name ≫= the_array e) h = Ok (l, h).
  Proof.
    intros Hs Hn. eapply bind_run; [eapply getattr_run; eassumption | reflexivity].
  Qed.

Lemma setattr_run (self : loc) (name : string) c d v :
    h !! self = Some (Obj c d) ->
    setattr self name v h = Ok (tt, <[self := Obj c (<[name := v]> d)]> h).
  Proof. intros Hs. unfold setattr. prim. now rewrite Hs. Qed.

Lemma copy_run (a : loc) x :
    h !! a = Some (Float64 x) -> np.copy a h = Ok (length h, h ++ [Float64 x]).
  Proof. intros Ha. unfold np.copy. prim. now rewrite Ha. Qed.

Lemma T_run (a : loc) x :
    h !! a = Some (Float64 x) ->
    np.T a h = Ok (length h, h ++ [Float64 (transpose x)]).
  Proof. intros Ha. unfold np.T. prim. now rewrite Ha. Qed.

Lemma dot_run (a b : loc) x y z :
    h !! a = Some (Float64 x) -> h !! b = Some (Float64 y) ->
    ndarray.dot x y = Ok z ->
    np.dot a b h = Ok (length h, h ++ [Float64 z]).
  Proof. intros Ha Hb Hz. unfold np.dot. prim. now rewrite Ha, Hb, Hz. Qed.

Lemma sum_axis0_run (a : loc) x :
    h !! a = Some (Float64 x) ->
    np.sum_axis0_keepdims a h = Ok (length h, h ++ [Float64 (sum_axis0 x)]).
  Proof. intros Ha. unfold np.sum_axis0_keepdims. prim. now rewrite Ha. Qed.

Lemma add_run (a b : loc) x y z :
    h !! a = Some (Float64 x) -> h !! b = Some (Float64 y) ->
    broadcast PrimFloat.add x y = Ok z ->
    np.add a b h = Ok (length h, h ++ [Float64 z]).
  Proof. intros Ha Hb Hz. unfold np.add. prim. now rewrite Ha, Hb, Hz. Qed.

Lemma add_row_run (a b : loc) x v z :
    h !! a = Some (Float64 x) -> h !! b = Some (Float64_1d v) ->
    broadcast PrimFloat.add x (row v) = Ok z ->
    np.add a b h = Ok (length h, h ++ [Float64 z]).
  Proof. intros Ha Hb Hz. unfold np.add. prim. now rewrite Ha, Hb, Hz. Qed.

Lemma mul_run (a b : loc) x y z :
    h !! a = Some (Float64 x) -> h !! b = Some (Float64 y) ->
    broadcast PrimFloat.mul x y = Ok z ->
    np.mul a b h = Ok (length h, h ++ [Float64 z]).
  Proof. intros Ha Hb Hz. unfold np.mul. prim. now rewrite Ha, Hb, Hz. Qed.

Lemma mul_bool_run (a b : loc) m y z :
    h !! a = Some (Bool m) -> h !! b = Some (Float64 y) ->
    broadcast (fun t v => (F64.of_bool t * v)%float) m y = Ok z ->
    np.mul a b h = Ok (length h, h ++ [Float64 z]).
  Proof. intros Ha Hb Hz. unfold np.mul. prim. now rewrite Ha, Hb, Hz. Qed.

Lemma mul_int_run (a b : loc) x n z :
    h !! a = Some (Float64 x) -> h !! b = Some (Int64 n) ->
    broadcast (fun v k => (v * F64.of_Z k)%float) x n = Ok z ->
    np.mul a b h = Ok (length h, h ++ [Float64 z]).
  Proof. intros Ha Hb Hz. unfold np.mul. prim. now rewrite Ha, Hb, Hz. Qed.

Lemma truediv_run (a b : loc) x y z :
    h !! a = Some (Float64 x) -> h !! b = Some (Float64 y) ->
    broadcast PrimFloat.div x y = Ok z ->
    np.truediv a b h = Ok (length h, h ++ [Float64 z]).
  Proof. intros Ha Hb Hz. unfold np.truediv. prim. now rewrite Ha, Hb, Hz. Qed.

Lemma truediv_int_run (a b : loc) n y z :
    h !! a = Some (Int64 n) -> h !! b = Some (Float64 y) ->
    broadcast (fun k v => (F64.of_Z k / v)%float) n y = Ok z ->
    np.truediv a b h = Ok (length h, h ++ [Float64 z]).
  Proof. intros Ha Hb Hz. unfold np.truediv. prim. now rewrite Ha, Hb, Hz. Qed.

Lemma neg_run (a : loc) x :
    h !! a = Some (Float64 x) ->
    np.neg a h = Ok (length h, h ++ [Float64 (vectorize PrimFloat.opp x)]).
  Proof. intros Ha. unfold np.neg. prim. now rewrite Ha. Qed.

Lemma exp_run (a : loc) x :
    h !! a = Some (Float64 x) ->
    np.exp a h = Ok (length h, h ++ [Float64 (vectorize exp_entry x)]).
  Proof. intros Ha. unfold np.exp. prim. now rewrite Ha. Qed.

Lemma radd1_run (a : loc) x :
    h !! a = Some (Float64 x) ->
    np.radd1 a h =
      Ok (length h, h ++ [Float64 (vectorize (fun v => (1 + v)%float) x)]).
  Proof. intros Ha. unfold np.radd1. prim. now rewrite Ha. Qed.

Lemma rdiv1_run (a : loc) x :
    h !! a = Some (Float64 x) ->
    np.rdiv1 a h =
      Ok (length h, h ++ [Float64 (vectorize (fun v => (1 / v)%float) x)]).
  Proof. intros Ha. unfold np.rdiv1. prim. now rewrite Ha. Qed.

Lemma rsub1_run (a : loc) x :
    h !! a = Some (Float64 x) ->
    np.rsub1 a h =
      Ok (length h, h ++ [Float64 (vectorize (fun v => (1 - v)%float) x)]).
  Proof. intros Ha. unfold np.rsub1. prim. now rewrite Ha. Qed.

Lemma rsub1_int_run (a : loc) n :
    h !! a = Some (Int64 n) ->
    np.rsub1 a h =
      Ok (length h, h ++ [Int64 (vectorize (fun k => F64.wrap64 (1 - k)) n)]).
  Proof. intros Ha. unfold np.rsub1. prim. now rewrite Ha. Qed.

Lemma gt0_run (a : loc) x :
    h !! a = Some (Float64 x) ->
    np.gt0 a h =
      Ok (length h, h ++ [Bool (vectorize (fun v => (0 <? v)%float) x)]).
  Proof. intros Ha. unfold np.gt0. prim. now rewrite Ha. Qed.

Lemma astype_int_run (a : loc) m :
    h !! a = Some (Bool m) ->
    np.astype_int a h =
      Ok (length h,
          h ++ [Int64 (vectorize (fun t : bool => if t then 1%Z else 0%Z) m)]).
  Proof. intros Ha. unfold np.astype_int. prim. now rewrite Ha. Qed.

Lemma shape0_run (a : loc) x :
    h !! a = Some (Float64 x) -> np.shape0 a h = Ok (nrows x, h).
  Proof. intros Ha. unfold np.shape0. prim. now rewrite Ha. Qed.

Lemma itruediv_run (a : loc) (n : nat) x :
    h !! a = Some (Float64 x) ->
    np.itruediv a n h =
      Ok (tt, <[a := Float64 (vectorize (fun v => (v / F64.of_Z (Z.of_nat n))%float) x)]> h).
  Proof. intros Ha. unfold np.itruediv. prim. now rewrite Ha. Qed.

End Primitives.

(** ** What the methods of [LinearLayer] compute *)

Section LinearLayerRuns.
  Context `{Routines}.
  Variables (h : heap) (self : loc) (c : class) (d : gmap string value).
  Hypothesis Hself : h !! self = Some (Obj c d).

Lemma linear_forward_pass_run (x w b : loc) (training : bool) X W B XW R :
    d !! "weights" = Some (VRef w) -> d !! "bias" = Some (VRef b) ->
    h !! x = Some (Float64 X) -> h !! w = Some (Float64 W) ->
    h !! b = Some (Float64_1d B) ->
    ndarray.dot X W = Ok XW ->
    broadcast PrimFloat.add XW (row B) = Ok R ->
    LinearLayer.forward_pass self x training h =
      Ok (length h + 1,
          <[self := Obj c (<["input" := VRef x]> d)]> h
            ++ [Float64 XW; Float64 R]).
  Proof.
    intros Hw Hb Hx HW HB Hdot Hadd.
    unfold LinearLayer.forward_pass.
    run setattr_run. run getattr_array_run. run dot_run. run getattr_array_run.
    finish add_row_run.
  Qed.

Lemma linear_backward_pass_run (x w g : loc) X W G GW R :
    d !! "weights" = Some (VRef w) -> d !! "input" = Some (VRef x) ->
    h !! x = Some (Float64 X) -> h !! w = Some (Float64 W) ->
    h !! g = Some (Float64 G) ->
    ndarray.dot (transpose X) G = Ok GW ->
    ndarray.dot G (transpose W) = Ok R ->
    LinearLayer.backward_pass self g h =
      Ok (length h + 5,
          <[self := Obj c (<["grad_bias" := VRef (length h + 3)]>
                          (<["grad_weights" := VRef (length h + 2)]> d))]> h
            ++ [Float64 W; Float64 (transpose X); Float64 GW;
                Float64 (sum_axis0 G); Float64 (transpose W); Float64 R]).
  Proof.
    intros Hw Hx HX HW HG Hgw Hr.
    unfold LinearLayer.backward_pass.
    eapply bind_run. { run getattr_array_run. eapply copy_run; premises. }
    eapply bind_run. { run getattr_array_run. eapply T_run; premises. }
    run dot_run. run setattr_run. run sum_axis0_run. run setattr_run. run T_run.
    finish dot_run.
  Qed.

End LinearLayerRuns.

Lemma lookup_allocated_set (h t : heap) (s : loc) (o : object) (k : nat) :
  (<[s := o]> h ++ t) !! (length h + k) = t !! k.
Proof. rewrite <- (length_insert h s o). apply lookup_allocated. Qed.

Lemma lookup_kept_set (h t : heap) (s l : loc) (o : object) :
  l < length h -> l <> s -> (<[s := o]> h ++ t) !! l = h !! l.
Proof.
  intros Hl Hne. rewrite lookup_app_l by now rewrite length_insert.
  now apply list_lookup_insert_ne.
Qed.

Lemma lookup_self_set (h t : heap) (s : loc) (o o0 : object) :
  h !! s = Some o0 -> (<[s := o]> h ++ t) !! s = Some o.
Proof. intros Hs. apply lookup_old. eapply lookup_set_same, Hs. Qed.

(** A sequence raises what its first command raises; a product of operands
    whose shapes are not aligned raises [ValueError]. *)
Lemma bind_raise {A B} (m : M A) (k : A -> M B) (h : heap) (e : exn) :
  m h = Raise e -> (m ≫= k) h = Raise e.
Proof. intros Hm. unfold mbind, M_bind. now rewrite Hm. Qed.

Lemma dot_raise `{Routines} (h : heap) (a b : loc) x y :
  h !! a = Some (Float64 x) -> h !! b = Some (Float64 y) ->
  ncols x <> nrows y ->
  np.dot a b h = Raise ValueError.
Proof.
  intros Ha Hb Hne. unfold np.dot, ndarray.dot. prim. rewrite Ha, Hb.
  apply Nat.eqb_neq in Hne. now rewrite Hne.
Qed.

(** The two matrix products of the backward pass and the affine map of the
    forward pass, for operands of aligned shapes. *)
Lemma dot_transpose_l `{Routines} (X G : array float) :
  nrows X = nrows G ->
  ndarray.dot (transpose X) G = Ok (matmul_tn X G).
Proof.
  intros Hrows. unfold ndarray.dot, matmul_tn, matmul. simpl.
  now rewrite Hrows, Nat.eqb_refl.
Qed.

Lemma dot_transpose_r `{Routines} (G W : array float) :
  ncols G = ncols W ->
  ndarray.dot G (transpose W) = Ok (matmul_nt G W).
Proof.
  intros Hcols. unfold ndarray.dot, matmul_nt, matmul. simpl.
  now rewrite Hcols, Nat.eqb_refl.
Qed.

Lemma dot_add_row `{Routines} (X W : array float) (B : list float) :
  ncols X = nrows W -> ncols W = length B ->
  exists XW,
    ndarray.dot X W = Ok XW /\
    broadcast PrimFloat.add XW (row B) = Ok (affine X W B).
Proof.
  intros Hin Hout. unfold ndarray.dot. rewrite Hin, Nat.eqb_refl.
  eexists. split; [reflexivity|].
  rewrite broadcast_row by exact Hout. simpl. f_equal.
  apply tabulate_ext. intros i j Hi Hj.
  now rewrite get_tabulate.
Qed.

(** With the textbook routines, the entries of the products are the sums
    of the products of the entries, accumulated in index order. *)
Lemma matmul_tn_textbook (X G : array float) :
  nrows X = nrows G ->
  matmul_tn X G =
    tabulate (ncols X) (ncols G) (fun i j =>
      dotsum (nrows X) (fun k => (get X k i * get G k j)%float)).
Proof.
  intros Hrows. unfold matmul_tn, matmul. simpl.
  apply tabulate_ext. intros i j Hi Hj.
  apply dotsum_ext. intros k Hk.
  rewrite get_transpose by lia. reflexivity.
Qed.

Lemma matmul_nt_textbook (G W : array float) :
  ncols G = ncols W ->
  matmul_nt G W =
    tabulate (nrows G) (nrows W) (fun i j =>
      dotsum (ncols G) (fun k => (get G i k * get W j k)%float)).
Proof.
  intros Hcols. unfold matmul_nt, matmul. simpl.
  apply tabulate_ext. intros i j Hi Hj.
  apply dotsum_ext. intros k Hk.
  rewrite get_transpose by lia. reflexivity.
Qed.

(** The two instances return different float64 values: for the product
    [[0.1, 0.1]] . [[0.1], [-0.1]] (the rounding error of [0.1 * 0.1]
    survives the fused multiply-add), for the sum of a column of eight
    entries [0.1], and for the sum of a column of [-0.0]. *)
Example routines_differ :
  let a := MkArray 1 2 [0x1.999999999999ap-4; 0x1.999999999999ap-4]%float in
  let b := MkArray 2 1 [0x1.999999999999ap-4; -0x1.999999999999ap-4]%float in
  let c := MkArray 8 1 (repeat 0x1.999999999999ap-4%float 8) in
  let z := MkArray 3 1 [-0; -0; -0]%float in
  @matmul textbook a b = MkArray 1 1 [0%float] /\
  @matmul fused a b = MkArray 1 1 [0x1.eb851eb851eb8p-61%float] /\
  @sum_axis0 textbook c = MkArray 1 1 [0x1.9999999999999p-1%float] /\
  @sum_axis0 fused c = MkArray 1 1 [0x1.999999999999ap-1%float] /\
  @sum_axis0 textbook z = MkArray 1 1 [(-0)%float] /\
  @sum_axis0 fused z = MkArray 1 1 [0%float].
Proof. repeat apply conj; vm_compute; reflexivity. Qed.

(** The same two differences at the level of the methods: the dense
    layer's [forward_pass] on the batch [[0.1, 0.1]] with weights
    [[0.1], [-0.1]] and bias [0.0], and the [grad_bias] left by its
    [backward_pass] on a gradient of eight rows [0.1]. *)
Example dense_layer_with_fused_routines :
  let tenth := 0x1.999999999999ap-4%float in
  let h :=
    [Float64 (MkArray 2 1 [tenth; (- tenth)%float]); Float64_1d [0%float];
     Obj cLinearLayer (linear_attrs 0 1); Float64 (MkArray 1 2 [tenth; tenth])] in
  let h' :=
    [Float64 (MkArray 1 1 [1%float]); Float64_1d [0%float];
     Obj cLinearLayer (<["input" := VRef 3]> (linear_attrs 0 1));
     Float64 (MkArray 8 1 (repeat 1%float 8));
     Float64 (MkArray 8 1 (repeat tenth 8))] in
  returned ((out ← @LinearLayer.forward_pass textbook 2 3 true; deref out) h)
    = Some (Float64 (MkArray 1 1 [0%float])) /\
  returned ((out ← @LinearLayer.forward_pass fused 2 3 true; deref out) h)
    = Some (Float64 (MkArray 1 1 [0x1.eb851eb851eb8p-61%float])) /\
  returned ((@LinearLayer.backward_pass textbook 2 4;;
             grad_bias ← getattr 2 "grad_bias" ≫= the_array TypeError;
             deref grad_bias) h')
    = Some (Float64 (MkArray 1 1 [0x1.9999999999999p-1%float])) /\
  returned ((@LinearLayer.backward_pass fused 2 4;;
             grad_bias ← getattr 2 "grad_bias" ≫= the_array TypeError;
             deref grad_bias) h')
    = Some (Float64 (MkArray 1 1 [0x1.999999999999ap-1%float])).
Proof. repeat apply conj; vm_compute; reflexivity. Qed.

(** A call of [backward_pass] that returns had operands of aligned shapes:
    otherwise one of its two products raises. *)
Lemma linear_backward_pass_aligned `{Routines} (h : heap) (self x w g : loc) c d
    (X W G : array float) (r : loc) (h' : heap) :
  h !! self = Some (Obj c d) ->
  d !! "weights" = Some (VRef w) -> d !! "input" = Some (VRef x) ->
  h !! x = Some (Float64 X) -> h !! w = Some (Float64 W) ->
  h !! g = Some (Float64 G) ->
  LinearLayer.backward_pass self g h = Ok (r, h') ->
  nrows X = nrows G /\ ncols G = ncols W.
Proof.
  intros Hself Hw Hx HX HW HG Hrun.
  destruct (decide (nrows X = nrows G)) as [Hr|Hr].
  - destruct (decide (ncols G = ncols W)) as [Hc|Hc]; [now split | exfalso].
    enough (Hraise : LinearLayer.backward_pass self g h = Raise ValueError)
      by (rewrite Hraise in Hrun; discriminate Hrun).
    unfold LinearLayer.backward_pass.
    eapply bind_run. { run getattr_array_run. eapply copy_run; premises. }
    eapply bind_run. { run getattr_array_run. eapply T_run; premises. }
    eapply bind_run.
    { eapply dot_run; [premises | premises | now apply dot_transpose_l]. }
    run setattr_run. run sum_axis0_run. run setattr_run. run T_run.
    eapply dot_raise; [premises | premises | exact Hc].
  - exfalso.
    enough (Hraise : LinearLayer.backward_pass self g h = Raise ValueError)
      by (rewrite Hraise in Hrun; discriminate Hrun).
    unfold LinearLayer.backward_pass.
    eapply bind_run. { run getattr_array_run. eapply copy_run; premises. }
    eapply bind_run. { run getattr_array_run. eapply T_run; premises. }
    apply bind_raise. eapply dot_raise; [premises | premises | exact Hr].
Qed.

(** ** The dense layer *)

(** C2.  For a dense layer whose stored input has shape [(batch, in_dim)],
    whose weights have shape [(in_dim, out_dim)], and for a gradient
    [cum_grad] of shape [(batch, out_dim)], [backward_pass] returns and
    - sets [grad_weights] to a new array of shape [(in_dim, out_dim)], the
      matrix product [input.T . cum_grad];
    - sets [grad_bias] to a new array of shape [(1, out_dim)], the sum of
      [cum_grad] over the batch axis;
    - returns a new array of shape [(batch, in_dim)], the matrix product
      [cum_grad . weights.T].
    The products and the sum are what numpy's routines return for these
    operands, whatever their rounding: the statement holds for every
    instance of [Routines]. *)
Theorem backward_pass_gradients `{Routines} (h : heap) (self x w g : loc) c d
    (X W G : array float) (batch in_dim out_dim : nat) :
  h !! self = Some (Obj c d) ->
  d !! "weights" = Some (VRef w) -> d !! "input" = Some (VRef x) ->
  h !! x = Some (Float64 X) -> h !! w = Some (Float64 W) ->
  h !! g = Some (Float64 G) ->
  nrows X = batch -> ncols X = in_dim ->
  nrows W = in_dim -> ncols W = out_dim ->
  nrows G = batch -> ncols G = out_dim ->
  exists r h' d' gw gb,
    LinearLayer.backward_pass self g h = Ok (r, h') /\
    h' !! self = Some (Obj c d') /\
    d' !! "grad_weights" = Some (VRef gw) /\
    d' !! "grad_bias" = Some (VRef gb) /\
    length h <= gw /\ length h <= gb /\ length h <= r /\
    h' !! gw = Some (Float64 (matmul_tn X G)) /\
    nrows (matmul_tn X G) = in_dim /\ ncols (matmul_tn X G) = out_dim /\
    h' !! gb = Some (Float64 (sum_axis0 G)) /\
    nrows (sum_axis0 G) = 1 /\ ncols (sum_axis0 G) = out_dim /\
    h' !! r = Some (Float64 (matmul_nt G W)) /\
    nrows (matmul_nt G W) = batch /\ ncols (matmul_nt G W) = in_dim.
Proof.
  intros Hself Hw Hx HX HW HG Hb Hi Hi' Ho Hb' Ho'.
  do 5 eexists. split.
  { eapply linear_backward_pass_run; eauto.
    - apply dot_transpose_l. congruence.
    - apply dot_transpose_r. congruence. }
  split; [eapply lookup_self_set, Hself|].
  split; [rewrite lookup_insert_ne by discriminate; apply lookup_insert_eq|].
  split; [apply lookup_insert_eq|].
  rewrite !lookup_allocated_set. simpl.
  repeat split; solve [reflexivity | lia | congruence].
Qed.

Lemma backward_pass_gradients_witness :
  exists r h' d' gw gb,
    LinearLayer.backward_pass 2 4 (sample_heap (VRef 3)) = Ok (r, h') /\
    h' !! 2 = Some (Obj cLinearLayer d') /\
    d' !! "grad_weights" = Some (VRef gw) /\
    d' !! "grad_bias" = Some (VRef gb) /\
    9 <= gw /\ 9 <= gb /\ 9 <= r /\
    h' !! gw = Some (Float64 (matmul_tn sample_batch sample_gradient)) /\
    nrows (matmul_tn sample_batch sample_gradient) = 2 /\
    ncols (matmul_tn sample_batch sample_gradient) = 1 /\
    h' !! gb = Some (Float64 (sum_axis0 sample_gradient)) /\
    nrows (sum_axis0 sample_gradient) = 1 /\
    ncols (sum_axis0 sample_gradient) = 1 /\
    h' !! r = Some (Float64 (matmul_nt sample_gradient sample_weights)) /\
    nrows (matmul_nt sample_gradient sample_weights) = 3 /\
    ncols (matmul_nt sample_gradient sample_weights) = 2.
Proof.
  exact (backward_pass_gradients (sample_heap (VRef 3)) 2 3 0 4
           cLinearLayer (dense_attrs (VRef 3))
           sample_batch sample_weights sample_gradient 3 2 1
           eq_refl eq_refl eq_refl eq_refl eq_refl eq_refl
           eq_refl eq_refl eq_refl eq_refl eq_refl eq_refl).
Defined.

(** C4, as the code has it.  Whenever a call of [backward_pass] on a dense
    layer returns, the attributes [weights] and [bias] are bound as before,
    every object that existed before the call other than the instance
    itself is unchanged, the arrays behind [weights] and [bias] among them,
    and [grad_weights] is a new array with as many rows as the stored input
    has columns and as many columns as [weights].  It has the shape of
    [weights] when, and only when, the stored input has as many columns as
    [weights] has rows, as after a forward call with these weights. *)
Theorem backward_pass_keeps_parameters `{Routines} (h : heap) (self x w g : loc)
    c d (X W G : array float) (r : loc) (h' : heap) :
  h !! self = Some (Obj c d) ->
  d !! "weights" = Some (VRef w) -> d !! "input" = Some (VRef x) ->
  h !! x = Some (Float64 X) -> h !! w = Some (Float64 W) ->
  h !! g = Some (Float64 G) ->
  LinearLayer.backward_pass self g h = Ok (r, h') ->
  exists d' gw GW,
    h' !! self = Some (Obj c d') /\
    d' !! "weights" = d !! "weights" /\
    d' !! "bias" = d !! "bias" /\
    h' !! w = Some (Float64 W) /\
    (forall l, l < length h -> l <> self -> h' !! l = h !! l) /\
    d' !! "grad_weights" = Some (VRef gw) /\
    length h <= gw /\
    h' !! gw = Some (Float64 GW) /\
    nrows GW = ncols X /\ ncols GW = ncols W /\
    (ncols X = nrows W <-> nrows GW = nrows W /\ ncols GW = ncols W).
Proof.
  intros Hself Hw Hx HX HW HG Hrun.
  destruct (linear_backward_pass_aligned h self x w g c d X W G r h'
              Hself Hw Hx HX HW HG Hrun) as [Hr Hc].
  assert (Hne : w <> self) by heap_neq.
  rewrite (linear_backward_pass_run h self c d Hself x w g X W G _ _
             Hw Hx HX HW HG (dot_transpose_l X G Hr) (dot_transpose_r G W Hc))
    in Hrun.
  injection Hrun as <- <-.
  do 3 eexists.
  split; [eapply lookup_self_set, Hself|].
  split; [now rewrite !lookup_insert_ne by discriminate|].
  split; [now rewrite !lookup_insert_ne by discriminate|].
  split.
  { rewrite lookup_kept_set; [assumption | eapply lookup_lt_Some, HW | assumption]. }
  split; [intros l Hl Hls; now apply lookup_kept_set|].
  split; [rewrite lookup_insert_ne by discriminate; apply lookup_insert_eq|].
  split; [lia|].
  split; [rewrite lookup_allocated_set; reflexivity|].
  simpl. repeat split; try congruence. now intros [? ?].
Qed.

Lemma backward_pass_keeps_parameters_witness :
  exists r h' d' gw GW,
    LinearLayer.backward_pass 2 4 (sample_heap (VRef 3)) = Ok (r, h') /\
    h' !! 2 = Some (Obj cLinearLayer d') /\
    d' !! "weights" = Some (VRef 0) /\
    d' !! "bias" = Some (VRef 1) /\
    h' !! 0 = Some (Float64 sample_weights) /\
    (forall l, l < 9 -> l <> 2 -> h' !! l = sample_heap (VRef 3) !! l) /\
    d' !! "grad_weights" = Some (VRef gw) /\
    9 <= gw /\
    h' !! gw = Some (Float64 GW) /\
    nrows GW = 2 /\ ncols GW = 1 /\
    (2 = 2 <-> nrows GW = 2 /\ ncols GW = 1).
Proof.
  destruct (LinearLayer.backward_pass 2 4 (sample_heap (VRef 3)))
    as [[r h']|e] eqn:Hrun.
  - exists r, h'.
    destruct (backward_pass_keeps_parameters (sample_heap (VRef 3)) 2 3 0 4
                cLinearLayer (dense_attrs (VRef 3))
                sample_batch sample_weights sample_gradient r h'
                eq_refl eq_refl eq_refl eq_refl eq_refl eq_refl Hrun)
      as (d' & gw & GW & Hall).
    exists d', gw, GW. split; [reflexivity | exact Hall].
  - vm_compute in Hrun. discriminate Hrun.
Defined.

(** C4, as the specification states it, fails: [grad_weights] need not have
    the shape of [weights].  After a forward call on a batch of shape
    [(3, 2)], the caller rebinds [weights] to a matrix of shape [(5, 1)];
    the backward call on a gradient of shape [(3, 1)] returns, and leaves
    [grad_weights] of shape [(2, 1)] beside [weights] of shape [(5, 1)]. *)
Lemma backward_pass_gradient_shape_differs :
  exists r h' d' gw GW,
    (LinearLayer.forward_pass 2 3 true;;
     setattr 2 "weights" (VRef 9);;
     LinearLayer.backward_pass 2 4)
      (sample_heap VNone ++ [Float64 (MkArray 5 1 [1; 2; 3; 4; 5]%float)])
      = Ok (r, h') /\
    h' !! 2 = Some (Obj cLinearLayer d') /\
    d' !! "weights" = Some (VRef 9) /\
    h' !! 9 = Some (Float64 (MkArray 5 1 [1; 2; 3; 4; 5]%float)) /\
    d' !! "grad_weights" = Some (VRef gw) /\
    h' !! gw = Some (Float64 GW) /\
    nrows GW = 2 /\ ncols GW = 1 /\
    nrows GW <> nrows (MkArray 5 1 [1; 2; 3; 4; 5]%float).
Proof.
  do 5 eexists.
  split; [vm_compute; reflexivity|].
  split; [vm_compute; reflexivity|].
  split; [vm_compute; reflexivity|].
  split; [vm_compute; reflexivity|].
  split; [vm_compute; reflexivity|].
  split; [vm_compute; reflexivity|].
  split; [reflexivity|]. split; [reflexivity|]. discriminate.
Qed.

(** C9.  [forward_pass] of a dense layer on a batch [x] of shape
    [(batch, in_dim)] returns a new array of shape [(batch, out_dim)], the
    matrix product [x . weights] with [bias] added to every row; the only
    change to the heap besides allocation is that the instance's attribute
    [input] now refers to [x].  A second call on the same [x] returns an
    array equal to the first and changes no object.  The statement holds
    for every instance of [Routines]. *)
Theorem forward_pass_deterministic `{Routines} (h : heap) (self x w b : loc) c d
    (X W : array float) (B : list float) (training training' : bool) :
  h !! self = Some (Obj c d) ->
  d !! "weights" = Some (VRef w) -> d !! "bias" = Some (VRef b) ->
  h !! x = Some (Float64 X) -> h !! w = Some (Float64 W) ->
  h !! b = Some (Float64_1d B) ->
  ncols X = nrows W -> ncols W = length B ->
  exists r1 h1 r2 h2 out,
    out = tabulate (nrows X) (ncols W) (fun i j =>
            (get (matmul X W) i j + nth j B 0)%float) /\
    LinearLayer.forward_pass self x training h = Ok (r1, h1) /\
    h1 !! r1 = Some (Float64 out) /\
    h1 !! self = Some (Obj c (<["input" := VRef x]> d)) /\
    (forall l, l < length h -> l <> self -> h1 !! l = h !! l) /\
    LinearLayer.forward_pass self x training' h1 = Ok (r2, h2) /\
    h2 !! r2 = Some (Float64 out) /\
    (forall l, l < length h1 -> h2 !! l = h1 !! l).
Proof.
  intros Hself Hw Hb HX HW HB Hin Hout.
  destruct (dot_add_row X W B Hin Hout) as (XW & Hdot & Hadd).
  assert (Haff : tabulate (nrows X) (ncols W) (fun i j =>
                   (get (matmul X W) i j + nth j B 0)%float) = affine X W B).
  { apply tabulate_ext. intros i j Hi Hj. unfold matmul.
    now rewrite get_tabulate. }
  pose proof (linear_forward_pass_run h self c d Hself x w b training
                _ _ _ _ _ Hw Hb HX HW HB Hdot Hadd) as Hrun1.
  set (d1 := <["input" := VRef x]> d) in *.
  set (h1 := <[self := Obj c d1]> h ++ [Float64 XW; Float64 _]) in *.
  assert (Hself1 : h1 !! self = Some (Obj c d1)) by (eapply lookup_self_set, Hself).
  assert (Hkept : forall l, l < length h -> l <> self -> h1 !! l = h !! l)
    by (intros l Hl Hls; now apply lookup_kept_set).
  assert (Hlt : forall l o, h !! l = Some o -> l < length h)
    by (intros l o; apply lookup_lt_Some).
  assert (Hw1 : d1 !! "weights" = Some (VRef w))
    by (unfold d1; now rewrite lookup_insert_ne by discriminate).
  assert (Hb1 : d1 !! "bias" = Some (VRef b))
    by (unfold d1; now rewrite lookup_insert_ne by discriminate).
  assert (HX1 : h1 !! x = Some (Float64 X)) by (rewrite Hkept; eauto; heap_neq).
  assert (HW1 : h1 !! w = Some (Float64 W)) by (rewrite Hkept; eauto; heap_neq).
  assert (HB1 : h1 !! b = Some (Float64_1d B)) by (rewrite Hkept; eauto; heap_neq).
  pose proof (linear_forward_pass_run h1 self c d1 Hself1 x w b training'
                _ _ _ _ _ Hw1 Hb1 HX1 HW1 HB1 Hdot Hadd) as Hrun2.
  do 5 eexists. split; [reflexivity|]. rewrite Haff.
  split; [exact Hrun1|].
  split; [unfold h1; now rewrite lookup_allocated_set|].
  split; [exact Hself1|].
  split; [exact Hkept|].
  split; [exact Hrun2|].
  split; [now rewrite lookup_allocated_set|].
  intros l Hl. destruct (decide (l = self)) as [->|Hne].
  - rewrite Hself1. erewrite lookup_self_set by exact Hself1.
    unfold d1. now rewrite insert_insert_eq.
  - now apply lookup_kept_set.
Qed.

Lemma forward_pass_deterministic_witness :
  exists r1 h1 r2 h2 out,
    out = tabulate 3 1 (fun i j =>
            (get (matmul sample_batch sample_weights) i j
             + nth j sample_bias 0)%float) /\
    LinearLayer.forward_pass 2 3 true (sample_heap VNone) = Ok (r1, h1) /\
    h1 !! r1 = Some (Float64 out) /\
    h1 !! 2 = Some (Obj cLinearLayer (<["input" := VRef 3]> (dense_attrs VNone))) /\
    (forall l, l < 9 -> l <> 2 -> h1 !! l = sample_heap VNone !! l) /\
    LinearLayer.forward_pass 2 3 false h1 = Ok (r2, h2) /\
    h2 !! r2 = Some (Float64 out) /\
    (forall l, l < length h1 -> h2 !! l = h1 !! l).
Proof.
  exact (forward_pass_deterministic (sample_heap VNone) 2 3 0 1
           cLinearLayer (dense_attrs VNone)
           sample_batch sample_weights sample_bias true false
           eq_refl eq_refl eq_refl eq_refl eq_refl eq_refl eq_refl eq_refl).
Defined.

(** C10.  The keyword parameter [training] of the dense layer's
    [forward_pass] has no effect: whatever its value, the call returns what
    the call with the default [training=True] returns, in the same heap, or
    raises the same exception. *)
Theorem forward_pass_ignores_training `{Routines} (self x : loc) (training : bool)
    (h : heap) :
  LinearLayer.forward_pass self x training h =
  LinearLayer.forward_pass self x true h.
Proof. reflexivity. Qed.


(** C1, as the code has it.  [backward_pass] copies the weight matrix when it
    is entered, not when [forward_pass] ran: the gradient it returns is
    [cum_grad . weights.T] for the weights as they are at the call of
    [backward_pass].  When the caller overwrites the weight array in place
    between the two calls, or rebinds the attribute [weights] to another
    array, the returned gradient is the product of [cum_grad] with the
    transpose of the new matrix [W'], for every instance of [Routines]
    (with the textbook routines its entry [(i, j)] is the sum over [k] of
    [cum_grad[i, k] * W'[j, k]], by [matmul_nt_textbook]). *)
Theorem backward_pass_uses_current_weights `{Routines} (h : heap)
    (self x w b g w' : loc)
    c d (X W G W' : array float) (B : list float) (training : bool) :
  h !! self = Some (Obj c d) ->
  d !! "weights" = Some (VRef w) -> d !! "bias" = Some (VRef b) ->
  h !! x = Some (Float64 X) -> h !! w = Some (Float64 W) ->
  h !! b = Some (Float64_1d B) -> h !! g = Some (Float64 G) ->
  h !! w' = Some (Float64 W') ->
  x <> w -> g <> w ->
  ncols X = nrows W -> ncols W = length B ->
  nrows G = nrows X -> ncols G = ncols W' ->
  let propagated := Float64 (matmul_nt G W') in
  returned ((LinearLayer.forward_pass self x training;;
             store w (Float64 W');;
             grad ← LinearLayer.backward_pass self g; deref grad) h)
    = Some propagated /\
  returned ((LinearLayer.forward_pass self x training;;
             setattr self "weights" (VRef w');;
             grad ← LinearLayer.backward_pass self g; deref grad) h)
    = Some propagated.
Proof.
  intros Hself Hw Hb HX HW HB HG HW' Hxw Hgw Hin Hout Hrows Hcols propagated.
  destruct (dot_add_row X W B Hin Hout) as (XW & Hdot & Hadd).
  assert (Hsw : self <> w) by heap_neq.
  split; eapply returned_run.
  - eapply bind_run; [eapply linear_forward_pass_run; eassumption|].
    eapply bind_run; [reflexivity|].
    eapply bind_run.
    { eapply linear_backward_pass_run with (X := X) (W := W');
        [premises | premises | premises | premises | premises | premises
        | apply dot_transpose_l; congruence
        | apply dot_transpose_r; exact Hcols ]. }
    unfold deref. rewrite lookup_allocated_set. reflexivity.
  - eapply bind_run; [eapply linear_forward_pass_run; eassumption|].
    eapply bind_run; [eapply setattr_run; premises|].
    eapply bind_run.
    { eapply linear_backward_pass_run with (X := X) (W := W');
        [premises | premises | premises | premises | premises | premises
        | apply dot_transpose_l; congruence
        | apply dot_transpose_r; exact Hcols ]. }
    unfold deref. rewrite lookup_allocated_set. reflexivity.
Qed.

Lemma backward_pass_uses_current_weights_witness :
  returned ((LinearLayer.forward_pass 2 3 true;;
             store 0 (Float64 other_weights);;
             grad ← LinearLayer.backward_pass 2 4; deref grad)
              (sample_heap VNone))
    = Some (Float64 (matmul_nt sample_gradient other_weights)) /\
  returned ((LinearLayer.forward_pass 2 3 true;;
             setattr 2 "weights" (VRef 8);;
             grad ← LinearLayer.backward_pass 2 4; deref grad)
              (sample_heap VNone))
    = Some (Float64 (matmul_nt sample_gradient other_weights)).
Proof.
  refine (backward_pass_uses_current_weights (sample_heap VNone) 2 3 0 1 4 8
            cLinearLayer (dense_attrs VNone)
            sample_batch sample_weights sample_gradient other_weights
            sample_bias true
            eq_refl eq_refl eq_refl eq_refl eq_refl eq_refl eq_refl eq_refl
            _ _ eq_refl eq_refl eq_refl eq_refl); lia.
Defined.

(** C1, as the specification states it, fails: after a forward call, an
    in-place update of the weights (or a rebinding of the attribute) changes
    the gradient that the following backward call returns; it is not the
    product of [cum_grad] with the transpose of the weights of the forward
    call.  (The values are those of the textbook routines; each entry is a
    single product of two float64 values, with nothing to add up.) *)
Lemma weight_update_changes_propagated_gradient :
  returned ((LinearLayer.forward_pass 2 3 true;;
             grad ← LinearLayer.backward_pass 2 4; deref grad)
              (sample_heap VNone))
    = Some (Float64 (MkArray 3 2 [3; 4; 1.5; 2; -3; -4]%float)) /\
  returned ((LinearLayer.forward_pass 2 3 true;;
             store 0 (Float64 other_weights);;
             grad ← LinearLayer.backward_pass 2 4; deref grad)
              (sample_heap VNone))
    = Some (Float64 (MkArray 3 2 [5; 7; 2.5; 3.5; -5; -7]%float)) /\
  returned ((LinearLayer.forward_pass 2 3 true;;
             setattr 2 "weights" (VRef 8);;
             grad ← LinearLayer.backward_pass 2 4; deref grad)
              (sample_heap VNone))
    = Some (Float64 (MkArray 3 2 [5; 7; 2.5; 3.5; -5; -7]%float)) /\
  ndarray.dot sample_gradient (transpose sample_weights)
    = Ok (MkArray 3 2 [3; 4; 1.5; 2; -3; -4]%float).
Proof. repeat apply conj; vm_compute; reflexivity. Qed.

(** ** The network loops *)

Lemma bind_mret_run {A} (m : M A) (h : heap) : (m ≫= mret) h = m h.
Proof. unfold mbind, M_bind. now destruct (m h) as [[a h']|e]. Qed.

Lemma bind_assoc_run {A B C} (m : M A) (f : A -> M B) (g : B -> M C) (h : heap) :
  ((m ≫= f) ≫= g) h = (m ≫= fun a => f a ≫= g) h.
Proof. unfold mbind, M_bind. now destruct (m h) as [[a h']|e]. Qed.

Lemma forward_loop_app `{Routines} (front back : list loc) (x : loc) (h : heap) :
  forward_loop (front ++ back) x h =
  (out ← forward_loop front x; forward_loop back out) h.
Proof.
  revert x h. induction front as [|layer front IH]; intros x h; simpl.
  - reflexivity.
  - rewrite bind_assoc_run. unfold mbind, M_bind.
    destruct (call_forward_pass layer x h) as [[out h']|e]; [apply IH | reflexivity].
Qed.

Lemma backward_loop_app `{Routines} (front back : list loc) (grad : loc) (h : heap) :
  backward_loop (front ++ back) grad h =
  (g ← backward_loop front grad; backward_loop back g) h.
Proof.
  revert grad h. induction front as [|layer front IH]; intros grad h; simpl.
  - reflexivity.
  - rewrite bind_assoc_run. unfold mbind, M_bind.
    destruct (call_backward_pass layer grad h) as [[g h']|e]; [apply IH | reflexivity].
Qed.

(** C3.  The forward cell copies the input batch and then calls
    [forward_pass] of the layers in list order, each on the output of the
    one before, and yields the output of the last layer; the backward cell
    calls [backward_pass] of the layers in reverse list order, each on the
    gradient returned by the layer after it: the last layer of the list
    receives the seed gradient and the first layer's return value is the
    result. *)
Theorem network_passes_order `{Routines} (layers : list loc) (layer : loc) (x grad : loc)
    (h : heap) :
  network_forward [] x h = np.copy x h /\
  network_forward (layers ++ [layer]) x h =
    (out ← network_forward layers x; call_forward_pass layer out) h /\
  forward_loop (layer :: layers) x h =
    (out ← call_forward_pass layer x; forward_loop layers out) h /\
  network_backward [] grad h = Ok (grad, h) /\
  network_backward (layers ++ [layer]) grad h =
    (g ← call_backward_pass layer grad; network_backward layers g) h /\
  network_backward (layer :: layers) grad h =
    (g ← network_backward layers grad; call_backward_pass layer g) h.
Proof.
  repeat split.
  - unfold network_forward. simpl. apply bind_mret_run.
  - unfold network_forward. rewrite bind_assoc_run.
    unfold mbind, M_bind. destruct (np.copy x h) as [[out h']|e]; [|reflexivity].
    rewrite forward_loop_app. unfold mbind, M_bind.
    destruct (forward_loop layers out h') as [[out' h'']|e]; [|reflexivity].
    simpl. apply bind_mret_run.
  - unfold network_backward. rewrite rev_app_distr. reflexivity.
  - unfold network_backward. simpl rev. rewrite backward_loop_app.
    unfold mbind, M_bind.
    destruct (backward_loop (rev layers) grad h) as [[g h']|e]; [|reflexivity].
    simpl. apply bind_mret_run.
Qed.



(** ** Binary64 facts used by the activation layers *)

(** The textbook exponential at some arguments: the values are those of a
    correctly rounded [exp], and the overflow and underflow thresholds lie
    where binary64 has them. *)
Example exp_values :
  F64.exp 0 = 1%float /\
  F64.exp 1 = 0x1.5bf0a8b145769p+1%float /\
  F64.exp (-1) = 0x1.78b56362cef38p-2%float /\
  F64.exp 0.5 = 0x1.a61298e1e069cp+0%float /\
  F64.exp (-40) = 0x1.39792499b1a24p-58%float /\
  F64.exp 709 = 0x1.d422d2be5dc9bp+1022%float /\
  F64.exp 710 = infinity /\
  F64.exp (-745) = 0x0.0000000000001p-1022%float /\
  F64.exp (-746) = 0%float /\
  F64.exp neg_infinity = 0%float /\
  F64.exp infinity = infinity.
Proof. repeat apply conj; vm_compute; reflexivity. Qed.

(** Multiplying by [1.0] rounds back to the same value. *)
Lemma SF64mul_one_pos (m : positive) (e : Z) :
  valid_binary (S754_finite false m e) = true ->
  SF64mul (S754_finite false 4503599627370496 (-52)) (S754_finite false m e)
  = S754_finite false m e.
Proof.
  intros Hv. unfold SF64mul, SFmul. simpl xorb.
  unfold valid_binary, bounded, canonical_mantissa in Hv.
  apply andb_true_iff in Hv as [Hc Hb].
  apply Z.eqb_eq in Hc.
  unfold binary_round_aux.
  assert (H1 : shr_fexp prec emax (Z.pos (4503599627370496 * m)) (-52 + e) loc_Exact
               = ({| shr_m := Z.pos m; shr_r := false; shr_s := false |}, e)).
  { unfold shr_fexp, Zdigits2. cbv [Pos.mul]. simpl digits2_pos.
    rewrite !Pos2Z.inj_succ. unfold Z.succ.
    match goal with
    | |- context [fexp prec emax ?a] =>
        replace a with (Z.pos (digits2_pos m) + e)%Z by lia
    end.
    rewrite Hc. replace (e - (-52 + e))%Z with 52%Z by lia.
    unfold shr. cbn [iter_pos shr_record_of_loc shr_1 orb]. f_equal. lia. }
  rewrite H1. cbn [shr_m loc_of_shr_record round_nearest_even].
  assert (H2 : shr_fexp prec emax (Z.pos m) e loc_Exact
               = ({| shr_m := Z.pos m; shr_r := false; shr_s := false |}, e)).
  { unfold shr_fexp, Zdigits2. rewrite Hc, Z.sub_diag. reflexivity. }
  rewrite H2. cbn [shr_m]. now rewrite Hb.
Qed.

Lemma mul_one_positive (v : float) : (0 <? v)%float = true -> (1 * v)%float = v.
Proof.
  intros Hpos. apply Prim2SF_inj. rewrite FloatAxioms.mul_spec.
  rewrite FloatAxioms.ltb_spec in Hpos.
  pose proof (Prim2SF_valid v) as Hv.
  change (Prim2SF 1) with (S754_finite false 4503599627370496 (-52)).
  change (Prim2SF 0) with (S754_zero false) in Hpos.
  destruct (Prim2SF v) as [s|s| |s m e]; try discriminate.
  - destruct s; [discriminate|reflexivity].
  - destruct s; [discriminate|]. now apply SF64mul_one_pos.
Qed.

Lemma is_finite_SF (v : float) :
  is_finite v = true ->
  match Prim2SF v with
  | S754_zero _ | S754_finite _ _ _ => True
  | _ => False
  end.
Proof.
  unfold is_finite, is_nan, is_infinity.
  rewrite !FloatAxioms.eqb_spec, FloatAxioms.abs_spec.
  change (Prim2SF infinity) with (S754_infinity false).
  destruct (Prim2SF v) as [s|s| |s m e]; simpl; try easy.
  - now destruct s.
Qed.

Lemma mul_zero_finite (v : float) :
  is_finite v = true -> (0 * v =? 0)%float = true.
Proof.
  intros Hfin. apply is_finite_SF in Hfin.
  rewrite FloatAxioms.eqb_spec, FloatAxioms.mul_spec.
  change (Prim2SF 0) with (S754_zero false).
  destruct (Prim2SF v) as [s|s| |s m e]; try easy.
Qed.

Lemma eqb_zero_not_positive (v : float) :
  (v =? 0)%float = true -> (0 <? v)%float = false.
Proof.
  rewrite FloatAxioms.eqb_spec, FloatAxioms.ltb_spec.
  change (Prim2SF 0) with (S754_zero false).
  destruct (Prim2SF v) as [s|s| |s m e]; try destruct s; easy.
Qed.

Lemma eqb_zero_finite (v : float) : (v =? 0)%float = true -> is_finite v = true.
Proof.
  unfold is_finite, is_nan, is_infinity.
  rewrite !FloatAxioms.eqb_spec, FloatAxioms.abs_spec.
  change (Prim2SF 0) with (S754_zero false).
  change (Prim2SF infinity) with (S754_infinity false).
  destruct (Prim2SF v) as [s|s| |s m e]; try destruct s; easy.
Qed.

(** ** The activation layers *)

Lemma vectorize_vectorize {A B C} (f : A -> B) (g : B -> C) (a : array A) :
  vectorize g (vectorize f a) = vectorize (fun v => g (f v)) a.
Proof. unfold vectorize; simpl. now rewrite map_map. Qed.

Lemma sigmoid_run `{Routines} (h : heap) (self x : loc) X :
  h !! x = Some (Float64 X) ->
  Sigmoid._sigmoid self x h =
    Ok (length h + 3,
        h ++ [Float64 (vectorize PrimFloat.opp X);
              Float64 (vectorize (fun v => exp_entry (- v)) X);
              Float64 (vectorize (fun v => (1 + exp_entry (- v))%float) X);
              Float64 (vectorize sigmoid X)]).
Proof.
  intros HX. unfold Sigmoid._sigmoid.
  run neg_run. run exp_run. run radd1_run.
  etrans; [eapply rdiv1_run; premises|].
  rewrite !vectorize_vectorize. heap_norm. reflexivity.
Qed.

Lemma sigmoid_forward_pass_run `{Routines} (h : heap) (self x : loc) c d X :
  h !! self = Some (Obj c d) ->
  h !! x = Some (Float64 X) ->
  Sigmoid.forward_pass self x h =
    Ok (length h + 3,
        <[self := Obj c (<["input" := VRef x]> d)]> h
          ++ [Float64 (vectorize PrimFloat.opp X);
              Float64 (vectorize (fun v => exp_entry (- v)) X);
              Float64 (vectorize (fun v => (1 + exp_entry (- v))%float) X);
              Float64 (vectorize sigmoid X)]).
Proof.
  intros Hself HX. unfold Sigmoid.forward_pass.
  run setattr_run. finish sigmoid_run.
Qed.

Lemma sigmoid_gradient_run `{Routines} (h : heap) (self x : loc) X Z :
  h !! x = Some (Float64 X) ->
  broadcast PrimFloat.mul (vectorize sigmoid X)
    (vectorize (fun v => (1 - sigmoid v)%float) X) = Ok Z ->
  Sigmoid.gradient self x h =
    Ok (length h + 9,
        h ++ sigmoid_objects X ++ sigmoid_objects X
          ++ [Float64 (vectorize (fun v => (1 - sigmoid v)%float) X); Float64 Z]).
Proof.
  intros HX HZ. unfold Sigmoid.gradient.
  run sigmoid_run. run sigmoid_run. run rsub1_run.
  rewrite vectorize_vectorize.
  etrans; [eapply mul_run; [premises | premises | exact HZ]|].
  heap_norm. reflexivity.
Qed.

Lemma sigmoid_backward_pass_run `{Routines} (h : heap) (self x g : loc) c d X G Z R :
  h !! self = Some (Obj c d) ->
  d !! "input" = Some (VRef x) ->
  h !! x = Some (Float64 X) -> h !! g = Some (Float64 G) ->
  broadcast PrimFloat.mul (vectorize sigmoid X)
    (vectorize (fun v => (1 - sigmoid v)%float) X) = Ok Z ->
  broadcast PrimFloat.mul G Z = Ok R ->
  Sigmoid.backward_pass self g h =
    Ok (length h + 10,
        <[self := Obj c (<["grad" := VRef (length h + 9)]> d)]> h
          ++ sigmoid_objects X ++ sigmoid_objects X
          ++ [Float64 (vectorize (fun v => (1 - sigmoid v)%float) X);
              Float64 Z; Float64 R]).
Proof.
  intros Hself Hin HX HG HZ HR. unfold Sigmoid.backward_pass.
  run getattr_array_run.
  eapply bind_run; [eapply sigmoid_gradient_run; [premises | exact HZ]|].
  run setattr_run. run getattr_array_run.
  etrans; [eapply mul_run; [premises | premises | exact HR]|].
  heap_norm. reflexivity.
Qed.

Lemma relu_forward_pass_run (h : heap) (self x : loc) c d X Y :
  h !! self = Some (Obj c d) ->
  h !! x = Some (Float64 X) ->
  broadcast (fun t v => (F64.of_bool t * v)%float)
    (vectorize (fun v => (0 <? v)%float) X) X = Ok Y ->
  ReLU.forward_pass self x h =
    Ok (length h + 1,
        <[self := Obj c (<["input" := VRef x]> d)]> h
          ++ [Bool (vectorize (fun v => (0 <? v)%float) X); Float64 Y]).
Proof.
  intros Hself HX HY. unfold ReLU.forward_pass.
  run setattr_run. run gt0_run.
  etrans; [eapply mul_bool_run; [premises | premises | exact HY]|].
  heap_norm. reflexivity.
Qed.

Lemma relu_gradient_run (h : heap) (self x : loc) X :
  h !! x = Some (Float64 X) ->
  ReLU.gradient self x h =
    Ok (length h + 1,
        h ++ [Bool (vectorize (fun v => (0 <? v)%float) X);
              Int64 (vectorize (fun v => if (0 <? v)%float then 1%Z else 0%Z) X)]).
Proof.
  intros HX. unfold ReLU.gradient.
  run gt0_run.
  etrans; [eapply astype_int_run; premises|].
  rewrite vectorize_vectorize. heap_norm. reflexivity.
Qed.

Lemma relu_backward_pass_run (h : heap) (self x g : loc) c d X G R :
  h !! self = Some (Obj c d) ->
  d !! "input" = Some (VRef x) ->
  h !! x = Some (Float64 X) -> h !! g = Some (Float64 G) ->
  broadcast (fun v k => (v * F64.of_Z k)%float) G
    (vectorize (fun v => if (0 <? v)%float then 1%Z else 0%Z) X) = Ok R ->
  ReLU.backward_pass self g h =
    Ok (length h + 2,
        <[self := Obj c (<["grad" := VRef (length h + 1)]> d)]> h
          ++ [Bool (vectorize (fun v => (0 <? v)%float) X);
              Int64 (vectorize (fun v => if (0 <? v)%float then 1%Z else 0%Z) X);
              Float64 R]).
Proof.
  intros Hself Hin HX HG HR. unfold ReLU.backward_pass.
  run getattr_array_run. run relu_gradient_run.
  run setattr_run. run getattr_array_run.
  etrans; [eapply mul_int_run; [premises | premises | exact HR]|].
  heap_norm. reflexivity.
Qed.

(** C6.  [Sigmoid.forward_pass] stores the reference to [x] in [input] and
    returns a new array of the shape of [x] with [1 / (1 + exp(-x))] in every
    entry.  [Sigmoid.backward_pass], in any heap in which [input] refers to
    an array [x'], returns a new array with
    [cum_grad * (sigmoid(x') * (1 - sigmoid(x')))] in every entry: the
    derivative is computed from the array behind [input] at the time of the
    call; nothing computed by a forward call is read.  Here [exp] is what
    [np.exp] returns in an entry and the other operations are those of
    binary64: the statement holds for every instance of [Routines]. *)
Theorem sigmoid_forward_backward `{Routines}
    (h : heap) (self x : loc) c d (X : array float)
    (h' : heap) (self' x' g : loc) c' d' (X' G : array float) :
  h !! self = Some (Obj c d) -> h !! x = Some (Float64 X) -> wf X ->
  h' !! self' = Some (Obj c' d') -> d' !! "input" = Some (VRef x') ->
  h' !! x' = Some (Float64 X') -> h' !! g = Some (Float64 G) ->
  wf X' -> wf G -> nrows G = nrows X' -> ncols G = ncols X' ->
  (exists out h1 Y,
     Sigmoid.forward_pass self x h = Ok (out, h1) /\
     h1 !! self = Some (Obj c (<["input" := VRef x]> d)) /\
     h1 !! out = Some (Float64 Y) /\
     nrows Y = nrows X /\ ncols Y = ncols X /\
     forall i j, i < nrows X -> j < ncols X ->
       get Y i j = (1 / (1 + exp_entry (- get X i j)))%float) /\
  (exists back h2 R,
     Sigmoid.backward_pass self' g h' = Ok (back, h2) /\
     h2 !! back = Some (Float64 R) /\
     nrows R = nrows X' /\ ncols R = ncols X' /\
     forall i j, i < nrows X' -> j < ncols X' ->
       get R i j =
         (get G i j * (sigmoid (get X' i j) * (1 - sigmoid (get X' i j))))%float).
Proof.
  intros Hself HX Hwf Hself' Hin HX' HG Hwf' HwfG Hr Hc.
  split.
  - do 3 eexists. split; [eapply sigmoid_forward_pass_run; eassumption|].
    split; [eapply lookup_self_set, Hself|].
    split; [now rewrite lookup_allocated_set|].
    split; [reflexivity|]. split; [reflexivity|].
    intros i j Hi Hj. now rewrite get_vectorize.
  - do 3 eexists. split.
    { eapply sigmoid_backward_pass_run; eauto.
      - now apply broadcast_same.
      - now apply broadcast_same. }
    split; [now rewrite lookup_allocated_set|].
    split; [simpl; congruence|]. split; [simpl; congruence|].
    intros i j Hi Hj. simpl.
    rewrite get_tabulate by congruence. f_equal.
    rewrite get_tabulate by assumption.
    now rewrite !get_vectorize.
Qed.

Lemma sigmoid_forward_backward_witness :
  (exists out h1 Y,
     Sigmoid.forward_pass 6 3 (sample_heap VNone) = Ok (out, h1) /\
     h1 !! 6 = Some (Obj cSigmoid (<["input" := VRef 3]> activation_attrs)) /\
     h1 !! out = Some (Float64 Y) /\
     nrows Y = 3 /\ ncols Y = 2 /\
     forall i j, i < 3 -> j < 2 ->
       get Y i j = (1 / (1 + exp_entry (- get sample_batch i j)))%float) /\
  (exists back h2 R,
     Sigmoid.backward_pass 6 9 (sample_heap VNone ++ [Float64 sample_batch])
       = Ok (back, h2) /\
     h2 !! back = Some (Float64 R) /\
     nrows R = 3 /\ ncols R = 2 /\
     forall i j, i < 3 -> j < 2 ->
       get R i j =
         (get sample_batch i j
          * (sigmoid (get sample_batch i j)
             * (1 - sigmoid (get sample_batch i j))))%float).
Proof.
  exact (sigmoid_forward_backward
           (sample_heap VNone) 6 3 cSigmoid activation_attrs sample_batch
           (sample_heap VNone ++ [Float64 sample_batch]) 6 3 9
           cSigmoid activation_attrs sample_batch sample_batch
           eq_refl eq_refl eq_refl eq_refl eq_refl eq_refl eq_refl
           eq_refl eq_refl eq_refl eq_refl).
Defined.

(** C5, as the code has it.  [ReLU.forward_pass] returns a new array of the
    shape of [x]: the entry is [x] itself where [x > 0]; where [x] is finite
    and not positive it is a zero ([0.0] or [-0.0], both equal to [0]).
    [ReLU.backward_pass] stores in [grad] the [int64] array holding [1]
    where the stored input is [> 0] and [0] everywhere else, and returns
    [cum_grad] times that array.  For an input entry equal to [0] the
    forward value is a zero and the derivative is [0].  (Where [x] is
    [-inf] or NaN the product [0.0 * x] is NaN; the theorem states the
    forward value for finite entries only.) *)
Theorem relu_forward_backward
    (h : heap) (self x : loc) c d (X : array float)
    (h' : heap) (self' x' g : loc) c' d' (X' G : array float) :
  h !! self = Some (Obj c d) -> h !! x = Some (Float64 X) -> wf X ->
  h' !! self' = Some (Obj c' d') -> d' !! "input" = Some (VRef x') ->
  h' !! x' = Some (Float64 X') -> h' !! g = Some (Float64 G) ->
  wf X' -> wf G -> nrows G = nrows X' -> ncols G = ncols X' ->
  (exists out h1 Y,
     ReLU.forward_pass self x h = Ok (out, h1) /\
     h1 !! out = Some (Float64 Y) /\
     nrows Y = nrows X /\ ncols Y = ncols X /\
     forall i j, i < nrows X -> j < ncols X ->
       ((0 <? get X i j)%float = true -> get Y i j = get X i j) /\
       ((0 <? get X i j)%float = false -> is_finite (get X i j) = true ->
        (get Y i j =? 0)%float = true) /\
       ((get X i j =? 0)%float = true -> (get Y i j =? 0)%float = true)) /\
  (exists back h2 d2 gl D R,
     ReLU.backward_pass self' g h' = Ok (back, h2) /\
     h2 !! self' = Some (Obj c' d2) /\
     d2 !! "grad" = Some (VRef gl) /\
     h2 !! gl = Some (Int64 D) /\
     h2 !! back = Some (Float64 R) /\
     nrows R = nrows X' /\ ncols R = ncols X' /\
     forall i j, i < nrows X' -> j < ncols X' ->
       ((0 <? get X' i j)%float = true -> get D i j = 1%Z) /\
       ((0 <? get X' i j)%float = false -> get D i j = 0%Z) /\
       ((get X' i j =? 0)%float = true -> get D i j = 0%Z) /\
       get R i j = (get G i j * F64.of_Z (get D i j))%float).
Proof.
  intros Hself HX Hwf Hself' Hin HX' HG Hwf' HwfG Hr Hc.
  split.
  - do 3 eexists. split.
    { eapply relu_forward_pass_run; eauto. now apply broadcast_same. }
    split; [now rewrite lookup_allocated_set|].
    split; [reflexivity|]. split; [reflexivity|].
    intros i j Hi Hj. simpl.
    rewrite get_tabulate, get_vectorize by assumption.
    repeat split.
    + intros Hpos. rewrite Hpos. now apply mul_one_positive.
    + intros Hneg Hfin. rewrite Hneg. now apply mul_zero_finite.
    + intros Hzero. rewrite (eqb_zero_not_positive _ Hzero).
      apply mul_zero_finite. now apply eqb_zero_finite.
  - do 6 eexists. split.
    { eapply relu_backward_pass_run; eauto. now apply broadcast_same. }
    split; [eapply lookup_self_set, Hself'|].
    split; [apply lookup_insert_eq|].
    split; [now rewrite lookup_allocated_set|].
    split; [now rewrite lookup_allocated_set|].
    split; [simpl; congruence|]. split; [simpl; congruence|].
    intros i j Hi Hj. simpl.
    rewrite get_tabulate, get_vectorize by (assumption || congruence).
    repeat split.
    + now intros ->.
    + now intros ->.
    + intros Hzero. now rewrite (eqb_zero_not_positive _ Hzero).
Qed.

Lemma relu_forward_backward_witness :
  (exists out h1 Y,
     ReLU.forward_pass 5 3 (sample_heap VNone) = Ok (out, h1) /\
     h1 !! out = Some (Float64 Y) /\
     nrows Y = 3 /\ ncols Y = 2 /\
     forall i j, i < 3 -> j < 2 ->
       ((0 <? get sample_batch i j)%float = true ->
        get Y i j = get sample_batch i j) /\
       ((0 <? get sample_batch i j)%float = false ->
        is_finite (get sample_batch i j) = true ->
        (get Y i j =? 0)%float = true) /\
       ((get sample_batch i j =? 0)%float = true ->
        (get Y i j =? 0)%float = true)) /\
  (exists back h2 d2 gl D R,
     ReLU.backward_pass 5 9 (sample_heap VNone ++ [Float64 sample_batch])
       = Ok (back, h2) /\
     h2 !! 5 = Some (Obj cReLU d2) /\
     d2 !! "grad" = Some (VRef gl) /\
     h2 !! gl = Some (Int64 D) /\
     h2 !! back = Some (Float64 R) /\
     nrows R = 3 /\ ncols R = 2 /\
     forall i j, i < 3 -> j < 2 ->
       ((0 <? get sample_batch i j)%float = true -> get D i j = 1%Z) /\
       ((0 <? get sample_batch i j)%float = false -> get D i j = 0%Z) /\
       ((get sample_batch i j =? 0)%float = true -> get D i j = 0%Z) /\
       get R i j = (get sample_batch i j * F64.of_Z (get D i j))%float).
Proof.
  exact (relu_forward_backward
           (sample_heap VNone) 5 3 cReLU activation_attrs sample_batch
           (sample_heap VNone ++ [Float64 sample_batch]) 5 3 9
           cReLU activation_attrs sample_batch sample_batch
           eq_refl eq_refl eq_refl eq_refl eq_refl eq_refl eq_refl
           eq_refl eq_refl eq_refl eq_refl).
Defined.

(** C5, as the specification states it, fails where the input is not
    finite: [-inf] is not positive, and [forward_pass] returns NaN for it,
    not [0], because [(x > 0) * x] multiplies [0.0] by [-inf].  The same
    happens for a NaN entry. *)
Lemma relu_forward_of_negative_infinity :
  (0 <? neg_infinity)%float = false /\
  returned ((x ← alloc (Float64 (MkArray 1 1 [neg_infinity]));
             out ← ReLU.forward_pass 5 x;
             deref out) (sample_heap VNone))
    = Some (Float64 (MkArray 1 1 [nan])) /\
  (nan =? 0)%float = false.
Proof. repeat apply conj; vm_compute; reflexivity. Qed.

(** ** The seed gradient *)

Lemma store_last (h : heap) (o o' : object) :
  <[length h := o']> (h ++ [o]) = h ++ [o'].
Proof.
  replace (length h) with (length h + 0) at 1 by lia.
  now rewrite insert_app_r.
Qed.

Lemma seed_gradient_run (h : heap) (y p : loc) (Yl : array Z) (P Q T Gd : array float) :
  h !! y = Some (Int64 Yl) -> h !! p = Some (Float64 P) ->
  broadcast (fun k v => (F64.of_Z k / v)%float) Yl P = Ok Q ->
  broadcast (fun k v => (F64.of_Z k / v)%float)
    (vectorize (fun k => F64.wrap64 (1 - k)) Yl)
    (vectorize (fun v => (1 - v)%float) P) = Ok T ->
  broadcast PrimFloat.add (vectorize PrimFloat.opp Q) T = Ok Gd ->
  seed_gradient y p h =
    Ok (length h + 5,
        h ++ [Float64 Q; Float64 (vectorize PrimFloat.opp Q);
              Int64 (vectorize (fun k => F64.wrap64 (1 - k)) Yl);
              Float64 (vectorize (fun v => (1 - v)%float) P);
              Float64 T;
              Float64 (vectorize
                         (fun v => (v / F64.of_Z (Z.of_nat (nrows Gd)))%float) Gd)]).
Proof.
  intros Hy Hp HQ HT HG. unfold seed_gradient.
  eapply bind_run; [eapply truediv_int_run; [premises | premises | exact HQ]|].
  run neg_run. run rsub1_int_run. run rsub1_run.
  eapply bind_run; [eapply truediv_int_run; [premises | premises | exact HT]|].
  eapply bind_run; [eapply add_run; [premises | premises | exact HG]|].
  run shape0_run. run itruediv_run.
  unfold mret, M_ret. rewrite store_last. heap_norm. reflexivity.
Qed.

Lemma wrap64_small (z : Z) :
  (- 2 ^ 63 <= z < 2 ^ 63)%Z -> F64.wrap64 z = z.
Proof.
  intros Hz. unfold F64.wrap64.
  rewrite Z.mod_small; lia.
Qed.

(** C8.  For labels [y] ([int64], each [0] or [1]) and the network's output
    [p] of the same shape, the seed gradient handed to the backward pass is
    a new array of that shape whose entry for each example is
    [-(y / p) + (1 - y) / (1 - p)] divided by the number of rows of the
    array, the batch size. *)
Theorem seed_gradient_entries (h : heap) (y p : loc) (Yl : array Z)
    (P : array float) :
  h !! y = Some (Int64 Yl) -> h !! p = Some (Float64 P) ->
  wf Yl -> wf P -> nrows Yl = nrows P -> ncols Yl = ncols P ->
  (forall i j, i < nrows P -> j < ncols P ->
     get Yl i j = 0%Z \/ get Yl i j = 1%Z) ->
  exists grad h' Gd,
    seed_gradient y p h = Ok (grad, h') /\
    h' !! grad = Some (Float64 Gd) /\
    nrows Gd = nrows P /\ ncols Gd = ncols P /\
    forall i j, i < nrows P -> j < ncols P ->
      get Gd i j =
        ((- (F64.of_Z (get Yl i j) / get P i j)
          + F64.of_Z (1 - get Yl i j) / (1 - get P i j))
         / F64.of_Z (Z.of_nat (nrows P)))%float.
Proof.
  intros Hy Hp HwfY HwfP Hr Hc Hbin.
  do 3 eexists. split.
  { eapply seed_gradient_run; eauto.
    - now apply broadcast_same.
    - now apply broadcast_same.
    - now apply broadcast_same. }
  split; [now rewrite lookup_allocated|].
  split; [simpl; congruence|]. split; [simpl; congruence|].
  intros i j Hi Hj.
  rewrite get_vectorize by (simpl; (apply tabulate_wf || congruence)).
  simpl. rewrite Hr.
  rewrite get_tabulate by congruence.
  rewrite get_vectorize by (simpl; (apply tabulate_wf || congruence)).
  rewrite !get_tabulate by congruence.
  rewrite !get_vectorize by (assumption || congruence).
  rewrite wrap64_small; [reflexivity|].
  destruct (Hbin i j Hi Hj) as [-> | ->];
    (split; [apply Z.leb_le | apply Z.ltb_lt]); reflexivity.
Qed.

Lemma seed_gradient_entries_witness :
  exists grad h' Gd,
    seed_gradient 7 3 (sample_heap VNone) = Ok (grad, h') /\
    h' !! grad = Some (Float64 Gd) /\
    nrows Gd = 3 /\ ncols Gd = 2 /\
    forall i j, i < 3 -> j < 2 ->
      get Gd i j =
        ((- (F64.of_Z (get sample_labels i j) / get sample_batch i j)
          + F64.of_Z (1 - get sample_labels i j) / (1 - get sample_batch i j))
         / F64.of_Z (Z.of_nat 3))%float.
Proof.
  refine (seed_gradient_entries (sample_heap VNone) 7 3 sample_labels sample_batch
            eq_refl eq_refl eq_refl eq_refl eq_refl eq_refl _).
  intros i j Hi Hj. change (i < 3) in Hi. change (j < 2) in Hj.
  destruct i as [|[|[|i]]]; [| | |lia];
    (destruct j as [|[|j]]; [| |lia]); vm_compute; auto.
Defined.

(** ** Binary64: the range of the sigmoid

    The facts below follow the bit-level specification of the primitive
    operations: rounding keeps signs, [1.0 + e] is at least [1.0] for
    [e >= 0], and [1.0 / y] lies in [[0, 1]] for [y >= 1.0]. *)

Section RoundingFacts.
Local Open Scope Z_scope.


Lemma iter_pos_invariant {A} (f : A -> A) (P : A -> Prop) :
  (forall a, P a -> P (f a)) -> forall n a, P a -> P (SpecFloat.iter_pos f n a).
Proof.
  intros Hf. induction n as [n IH|n IH|]; intros a Ha; simpl; auto.
Qed.

Lemma shr_1_nonneg (mrs : shr_record) : 0 <= shr_m mrs -> 0 <= shr_m (shr_1 mrs).
Proof.
  destruct mrs as [m r s]. simpl. intros Hm.
  destruct m as [|[p|p|]|p]; simpl; lia.
Qed.

Lemma shr_nonneg (mrs : shr_record) (e n : Z) :
  0 <= shr_m mrs -> 0 <= shr_m (fst (shr mrs e n)).
Proof.
  intros Hm. unfold shr. destruct n as [|p|p]; simpl; try assumption.
  apply (iter_pos_invariant shr_1 (fun x => 0 <= shr_m x)); [apply shr_1_nonneg | assumption].
Qed.

Lemma shr_fexp_nonneg (m e : Z) (l : location) :
  0 <= m -> 0 <= shr_m (fst (shr_fexp prec emax m e l)).
Proof.
  intros Hm. unfold shr_fexp. apply shr_nonneg.
  destruct l as [|[]]; simpl; assumption.
Qed.

Lemma round_nearest_even_nonneg (m : Z) (l : location) :
  0 <= m -> 0 <= round_nearest_even m l.
Proof.
  intros Hm. unfold round_nearest_even.
  destruct l as [|[]]; try destruct (Z.even m); lia.
Qed.

Lemma binary_round_aux_nonneg (m e : Z) (l : location) :
  0 <= m -> sf_nonneg (binary_round_aux prec emax false m e l) = true.
Proof.
  intros Hm. unfold binary_round_aux.
  pose proof (shr_fexp_nonneg m e l Hm) as H1.
  destruct (shr_fexp prec emax m e l) as [mrs' e']. simpl in H1.
  pose proof (shr_fexp_nonneg _ e' loc_Exact
                (round_nearest_even_nonneg _ (loc_of_shr_record mrs') H1)) as H2.
  destruct (shr_fexp prec emax _ e' loc_Exact) as [mrs'' e'']. simpl in H2.
  destruct (shr_m mrs'') as [|p|p]; try reflexivity; [|lia].
  now destruct (e'' <=? emax - prec).
Qed.

Lemma binary_round_nonneg (m : positive) (e : Z) :
  sf_nonneg (binary_round prec emax false m e) = true.
Proof.
  unfold binary_round.
  destruct (shl_align m e _) as [mz ez].
  now apply binary_round_aux_nonneg.
Qed.

Lemma binary_normalize_nonneg (m e : Z) :
  0 <= m -> sf_nonneg (binary_normalize prec emax m e false) = true.
Proof.
  intros Hm. destruct m as [|p|p]; simpl; [reflexivity | apply binary_round_nonneg | lia].
Qed.

Lemma leb_zero_nonneg (v : float) :
  sf_nonneg (Prim2SF v) = true -> (0 <=? v)%float = true.
Proof.
  rewrite FloatAxioms.leb_spec. change (Prim2SF 0) with (S754_zero false).
  destruct (Prim2SF v) as [s|s| |s m e]; try destruct s; easy.
Qed.

Lemma nonneg_leb_zero (v : float) :
  (0 <=? v)%float = true -> sf_nonneg (Prim2SF v) = true.
Proof.
  rewrite FloatAxioms.leb_spec. change (Prim2SF 0) with (S754_zero false).
  destruct (Prim2SF v) as [s|s| |s m e]; try destruct s; easy.
Qed.

Lemma SF2Prim_nonneg (s : spec_float) :
  sf_nonneg s = true -> sf_nonneg (Prim2SF (SF2Prim s)) = true.
Proof.
  destruct s as [s|s| |s m e]; try destruct s; try discriminate; try reflexivity.
  intros _. unfold SF2Prim.
  rewrite Z_ldexp_spec, of_uint63_spec.
  pose proof (to_Z_bounded (of_Z (Z.pos m))) as [Hlo _].
  pose proof (binary_normalize_nonneg (to_Z (of_Z (Z.pos m))) 0 Hlo) as Hn.
  destruct (binary_normalize prec emax _ 0 false) as [s|s| |s m' e'];
    try destruct s; try discriminate; try reflexivity.
  simpl. apply binary_round_nonneg.
Qed.


Lemma digits2_pos_bounds (m : positive) :
  2 ^ (Z.pos (digits2_pos m) - 1) <= Z.pos m < 2 ^ Z.pos (digits2_pos m).
Proof.
  induction m as [m IH|m IH|]; simpl digits2_pos.
  - rewrite Pos2Z.inj_succ. replace (Z.succ (Z.pos (digits2_pos m)) - 1) with (Z.succ (Z.pos (digits2_pos m) - 1)) by lia.
    rewrite !Z.pow_succ_r by lia. lia.
  - rewrite Pos2Z.inj_succ. replace (Z.succ (Z.pos (digits2_pos m)) - 1) with (Z.succ (Z.pos (digits2_pos m) - 1)) by lia.
    rewrite !Z.pow_succ_r by lia. lia.
  - simpl. lia.
Qed.

(** The number of binary digits of a non-negative integer is monotone. *)
Lemma Zdigits2_le_pow (m t : Z) :
  0 <= t -> 0 <= m <= 2 ^ t -> Zdigits2 m <= t + 1.
Proof.
  intros Ht [Hlo Hhi]. destruct m as [|p|p]; simpl; try lia.
  pose proof (digits2_pos_bounds p) as [Hd _].
  destruct (Z.le_gt_cases (Z.pos (digits2_pos p)) (t + 1)) as [|Hgt]; [assumption|].
  assert (2 ^ (t + 1) <= 2 ^ (Z.pos (digits2_pos p) - 1)) by (apply Z.pow_le_mono_r; lia).
  rewrite Z.pow_add_r in H by lia. lia.
Qed.

Lemma Zdigits2_lt_pow (m t : Z) :
  0 <= t -> 0 <= m < 2 ^ t -> Zdigits2 m <= t.
Proof.
  intros Ht [Hlo Hhi]. destruct m as [|p|p]; simpl; try lia.
  pose proof (digits2_pos_bounds p) as [Hd _].
  destruct (Z.le_gt_cases (Z.pos (digits2_pos p)) t) as [|Hgt]; [assumption|].
  assert (2 ^ t <= 2 ^ (Z.pos (digits2_pos p) - 1)) by (apply Z.pow_le_mono_r; lia).
  lia.
Qed.

Lemma Zdigits2_ge_pow (m t : Z) :
  0 <= t -> 2 ^ t <= m -> t + 1 <= Zdigits2 m.
Proof.
  intros Ht Hlo.
  assert (0 < 2 ^ t) by (apply Z.pow_pos_nonneg; lia).
  destruct m as [|p|p]; simpl; try lia.
  pose proof (digits2_pos_bounds p) as [_ Hd].
  destruct (Z.le_gt_cases (t + 1) (Z.pos (digits2_pos p))) as [|Hgt]; [assumption|].
  assert (2 ^ Z.pos (digits2_pos p) <= 2 ^ t) by (apply Z.pow_le_mono_r; lia).
  lia.
Qed.

(** [shr_1] halves the mantissa. *)
Lemma shr_1_div2 (mrs : shr_record) :
  0 <= shr_m mrs -> shr_m (shr_1 mrs) = shr_m mrs / 2.
Proof.
  destruct mrs as [m r s]. simpl. intros Hm.
  destruct m as [|[p|p|]|p]; cbn [shr_m]; try lia; try reflexivity.
  - apply Z.div_unique with 1; lia.
  - apply Z.div_unique with 0; lia.
Qed.

Lemma pow2_xI (n : positive) : 2 ^ Z.pos n~1 = 2 * (2 ^ Z.pos n * 2 ^ Z.pos n).
Proof.
  replace (Z.pos n~1) with (1 + (Z.pos n + Z.pos n)) by lia.
  rewrite !Z.pow_add_r by lia. reflexivity.
Qed.

Lemma pow2_xO (n : positive) : 2 ^ Z.pos n~0 = 2 ^ Z.pos n * 2 ^ Z.pos n.
Proof.
  replace (Z.pos n~0) with (Z.pos n + Z.pos n) by lia.
  now rewrite Z.pow_add_r by lia.
Qed.

Lemma pow2_pos (n : Z) : 0 <= n -> 0 < 2 ^ n.
Proof. intros Hn. apply Z.pow_pos_nonneg; lia. Qed.

Lemma shr_iter_div (n : positive) (mrs : shr_record) :
  0 <= shr_m mrs ->
  shr_m (SpecFloat.iter_pos shr_1 n mrs) = shr_m mrs / 2 ^ Z.pos n.
Proof.
  revert mrs. induction n as [n IH|n IH|]; intros mrs Hm; simpl SpecFloat.iter_pos.
  - pose proof (pow2_pos (Z.pos n) ltac:(lia)) as Hp.
    assert (H1 : 0 <= shr_m (shr_1 mrs))
      by (rewrite shr_1_div2 by assumption; apply Z.div_pos; lia).
    assert (H2 : 0 <= shr_m (SpecFloat.iter_pos shr_1 n (shr_1 mrs)))
      by (rewrite IH by assumption; apply Z.div_pos; assumption).
    rewrite IH, IH, shr_1_div2 by assumption.
    rewrite !Z.div_div by lia. now rewrite pow2_xI.
  - pose proof (pow2_pos (Z.pos n) ltac:(lia)) as Hp.
    assert (H2 : 0 <= shr_m (SpecFloat.iter_pos shr_1 n mrs))
      by (rewrite IH by assumption; apply Z.div_pos; assumption).
    rewrite IH, IH by assumption.
    rewrite !Z.div_div by lia. now rewrite pow2_xO.
  - now apply shr_1_div2.
Qed.

(** What [shr_fexp] does to a non-negative mantissa: a shift by [n] places
    when the exponent required by the format lies [n > 0] above [e], nothing
    otherwise. *)
Lemma shr_fexp_spec (m e : Z) (l : location) :
  0 <= m ->
  let n := fexp prec emax (Zdigits2 m + e) - e in
  let '(mrs, e') := shr_fexp prec emax m e l in
  (n <= 0 -> shr_m mrs = m /\ e' = e /\ loc_of_shr_record mrs = l) /\
  (0 < n -> shr_m mrs = m / 2 ^ n /\ e' = e + n).
Proof.
  intros Hm n. unfold shr_fexp. fold n.
  assert (Hrec : shr_m (shr_record_of_loc m l) = m) by (destruct l as [|[]]; reflexivity).
  assert (Hloc : loc_of_shr_record (shr_record_of_loc m l) = l) by (destruct l as [|[]]; reflexivity).
  unfold shr. destruct n as [|p|p] eqn:Hn.
  - split; [auto | lia].
  - split; [lia|]. intros _. split; [|reflexivity].
    rewrite shr_iter_div by (rewrite Hrec; assumption). now rewrite Hrec.
  - split; [auto | lia].
Qed.


Lemma shr_fexp_cases (m e : Z) (l : location) :
  0 <= m ->
  exists mrs e',
    shr_fexp prec emax m e l = (mrs, e') /\
    let n := fexp prec emax (Zdigits2 m + e) - e in
    (n <= 0 /\ shr_m mrs = m /\ e' = e /\ loc_of_shr_record mrs = l) \/
    (0 < n /\ shr_m mrs = m / 2 ^ n /\ e' = e + n).
Proof.
  intros Hm. pose proof (shr_fexp_spec m e l Hm) as Hspec. simpl in Hspec.
  destruct (shr_fexp prec emax m e l) as [mrs e']. exists mrs, e'.
  split; [reflexivity|]. simpl.
  destruct Hspec as [Hle Hgt].
  destruct (Z.le_gt_cases (fexp prec emax (Zdigits2 m + e) - e) 0) as [Hn|Hn].
  - left. destruct (Hle Hn) as (? & ? & ?). auto.
  - right. destruct (Hgt Hn) as (? & ?). auto.
Qed.

Lemma round_nearest_even_bounds (m : Z) (l : location) :
  m <= round_nearest_even m l <= m + 1.
Proof.
  unfold round_nearest_even. destruct l as [|[]]; try destruct (Z.even m); lia.
Qed.

Lemma Zdigits2_bounds (m : Z) :
  0 < m -> 2 ^ (Zdigits2 m - 1) <= m < 2 ^ Zdigits2 m.
Proof.
  intros Hm. destruct m as [|p|p]; try lia. apply digits2_pos_bounds.
Qed.

Lemma fexp_normal (x : Z) : -1021 <= x -> fexp prec emax x = x - 53.
Proof. unfold fexp, SpecFloat.emin, prec, emax. lia. Qed.

Lemma SFleb_one_finite (m e : Z) :
  2 ^ 52 <= m -> -52 <= e ->
  SFleb one64
    match m with
    | 0 => S754_zero false
    | Z.pos p =>
        if e <=? emax - prec then S754_finite false p e else S754_infinity false
    | Z.neg _ => S754_nan
    end = true.
Proof.
  intros Hm He. destruct m as [|p|p]; try (simpl in Hm; lia).
  destruct (e <=? emax - prec); [|reflexivity].
  unfold SFleb, one64, SFcompare.
  destruct (Z.compare_spec (-52) e) as [Heq|Hlt|Hgt]; try reflexivity; [|lia].
  rewrite Pos.compare_cont_spec. simpl Pos.switch_Eq.
  destruct (Pos.compare_spec 4503599627370496 p) as [?|?|Hlt]; try reflexivity.
  apply Pos2Z.pos_lt_pos in Hlt. lia.
Qed.

(** Rounding a mantissa of at least 53 digits whose value is at least 1. *)
Lemma binary_round_aux_ge_one (mx : positive) (ex : Z) :
  53 <= Z.pos (digits2_pos mx) -> 1 <= Z.pos (digits2_pos mx) + ex ->
  SFleb one64 (binary_round_aux prec emax false (Z.pos mx) ex loc_Exact) = true.
Proof.
  intros Hd Hde. unfold binary_round_aux.
  set (d := Z.pos (digits2_pos mx)) in *.
  pose proof (digits2_pos_bounds mx) as [Hlo Hhi]. fold d in Hlo, Hhi.
  destruct (shr_fexp_cases (Z.pos mx) ex loc_Exact ltac:(lia))
    as (mrs1 & e1 & -> & Hcase1).
  simpl in Hcase1. fold d in Hcase1. rewrite fexp_normal in Hcase1 by lia.
  assert (H1 : 2 ^ 52 <= shr_m mrs1 < 2 ^ 53 /\ e1 = d + ex - 53).
  { destruct Hcase1 as [(Hn & -> & -> & _) | (Hn & -> & ->)].
    - replace d with 53 in * by lia. simpl in Hlo. lia.
    - set (n := d + ex - 53 - ex) in *.
      pose proof (pow2_pos n ltac:(lia)) as Hp.
      assert (Hp1 : 2 ^ (d - 1) = 2 ^ 52 * 2 ^ n)
        by (replace (d - 1) with (52 + n) by lia; apply Z.pow_add_r; lia).
      assert (Hp2 : 2 ^ d = 2 ^ 53 * 2 ^ n)
        by (replace d with (53 + n) at 1 by lia; apply Z.pow_add_r; lia).
      rewrite Hp1 in Hlo. rewrite Hp2 in Hhi.
      split; [split|lia].
      + apply Z.div_le_lower_bound; lia.
      + apply Z.div_lt_upper_bound; lia. }
  destruct H1 as [[Hm1lo Hm1hi] He1].
  pose proof (round_nearest_even_bounds (shr_m mrs1) (loc_of_shr_record mrs1)) as Hm2.
  set (m2 := round_nearest_even (shr_m mrs1) (loc_of_shr_record mrs1)) in *.
  destruct (shr_fexp_cases m2 e1 loc_Exact ltac:(lia)) as (mrs2 & e2 & -> & Hcase2).
  simpl in Hcase2.
  pose proof (Zdigits2_ge_pow m2 52 ltac:(lia) ltac:(lia)) as Hd2lo.
  pose proof (Zdigits2_le_pow m2 53 ltac:(lia) ltac:(lia)) as Hd2hi.
  pose proof (Zdigits2_bounds m2 ltac:(lia)) as [Hb2 _].
  rewrite fexp_normal in Hcase2 by lia.
  apply SFleb_one_finite.
  - destruct Hcase2 as [(Hn & -> & _) | (Hn & -> & _)]; [lia|].
    replace (Zdigits2 m2) with 54 in * by lia.
    replace (54 + e1 - 53 - e1) with 1 by lia.
    change (54 - 1) with 53 in Hb2. change (2 ^ 1) with 2.
    apply Z.div_le_lower_bound; [lia|]. change (2 ^ 53) with (2 * 2 ^ 52) in Hb2. lia.
  - destruct Hcase2 as [(Hn & _ & -> & _) | (Hn & _ & ->)]; lia.
Qed.


Lemma Pos_iter_xO (m d : positive) :
  Z.pos (Pos.iter xO m d) = Z.pos m * 2 ^ Z.pos d.
Proof.
  induction d as [|d IH] using Pos.peano_ind.
  - simpl. lia.
  - rewrite Pos.iter_succ, Pos2Z.inj_xO, IH, Pos2Z.inj_succ, Z.pow_succ_r by lia. lia.
Qed.

(** [1.0 + e >= 1.0] for every positive finite [e]. *)
Lemma SF64add_one_ge_one (me : positive) (ee : Z) :
  SFleb one64 (SF64add one64 (S754_finite false me ee)) = true.
Proof.
  unfold SF64add, SFadd, one64. cbv zeta.
  set (ez := Z.min (-52) ee).
  assert (Hez : ez <= -52) by (unfold ez; lia).
  assert (Ha : Z.pos (fst (shl_align 4503599627370496 (-52) ez)) = 2 ^ (- ez)).
  { unfold shl_align. destruct (ez - -52) as [|p|p] eqn:Hs; simpl fst.
    - replace ez with (-52) by lia. reflexivity.
    - lia.
    - rewrite Pos_iter_xO. change (Z.pos 4503599627370496) with (2 ^ 52).
      rewrite <- Z.pow_add_r by lia. f_equal. lia. }
  unfold cond_Zopp.
  set (a := fst (shl_align 4503599627370496 (-52) ez)) in *.
  set (b := fst (shl_align me ee ez)).
  change (Z.pos a + Z.pos b) with (Z.pos (a + b)).
  unfold binary_normalize, binary_round.
  set (M := (a + b)%positive).
  assert (HM : 2 ^ (- ez) <= Z.pos M) by (unfold M; rewrite Pos2Z.inj_add; lia).
  pose proof (Zdigits2_ge_pow (Z.pos M) (- ez) ltac:(lia) HM) as Hd. simpl in Hd.
  rewrite fexp_normal by lia.
  assert (Hal : shl_align M ez (Z.pos (digits2_pos M) + ez - 53) = (M, ez)).
  { unfold shl_align. destruct (Z.pos (digits2_pos M) + ez - 53 - ez) eqn:Hs; try reflexivity. lia. }
  rewrite Hal. apply binary_round_aux_ge_one; lia.
Qed.

Lemma add_one_ge_one (e : float) :
  (0 <=? e)%float = true -> (1 <=? 1 + e)%float = true.
Proof.
  intros He. apply nonneg_leb_zero in He.
  rewrite FloatAxioms.leb_spec, FloatAxioms.add_spec.
  change (Prim2SF 1) with one64.
  destruct (Prim2SF e) as [s|s| |s m ee]; try destruct s; try discriminate;
    try reflexivity.
  apply SF64add_one_ge_one.
Qed.


Lemma fexp_mono (x y : Z) : x <= y -> fexp prec emax x <= fexp prec emax y.
Proof. unfold fexp, SpecFloat.emin, prec, emax. lia. Qed.

Lemma SFleb_finite_one (m e : Z) :
  0 <= m -> e <= -52 -> (e = -52 -> m <= 2 ^ 52) ->
  SFleb
    match m with
    | 0 => S754_zero false
    | Z.pos p =>
        if e <=? emax - prec then S754_finite false p e else S754_infinity false
    | Z.neg _ => S754_nan
    end one64 = true.
Proof.
  intros Hm He Hm52. destruct m as [|p|p]; try reflexivity; [|lia].
  replace (e <=? emax - prec) with true
    by (symmetry; apply Z.leb_le; unfold emax, prec; lia).
  unfold SFleb, one64, SFcompare.
  destruct (Z.compare_spec e (-52)) as [Heq|Hlt|Hgt]; try reflexivity; [|lia].
  rewrite Pos.compare_cont_spec. simpl Pos.switch_Eq.
  destruct (Pos.compare_spec p 4503599627370496) as [?|?|Hlt]; try reflexivity.
  apply Pos2Z.pos_lt_pos in Hlt. specialize (Hm52 Heq). lia.
Qed.

(** Rounding a value strictly below a power of two that is at most 1. *)
Lemma binary_round_aux_le_one (mx ex t : Z) (l : location) :
  0 <= mx < 2 ^ t -> 1 <= t -> t + ex <= 0 -> ex <= -52 ->
  fexp prec emax (t + 1 + ex) <= -52 ->
  fexp prec emax (t + 1 + ex) - ex <= 1 ->
  SFleb (binary_round_aux prec emax false mx ex l) one64 = true.
Proof.
  intros [Hlo Hhi] Ht Hte Hex HF HF1. unfold binary_round_aux.
  pose proof (Zdigits2_lt_pow mx t ltac:(lia) ltac:(lia)) as Hd.
  pose proof (fexp_mono (Zdigits2 mx + ex) (t + 1 + ex) ltac:(lia)) as Hmono.
  destruct (shr_fexp_cases mx ex l Hlo) as (mrs1 & e1 & -> & Hcase1).
  simpl in Hcase1.
  pose proof (round_nearest_even_bounds (shr_m mrs1) (loc_of_shr_record mrs1)) as Hm2.
  set (m2 := round_nearest_even (shr_m mrs1) (loc_of_shr_record mrs1)) in *.
  assert (H2 : exists u, 0 <= u /\ 0 <= m2 <= 2 ^ u /\ u + e1 = t + ex /\ e1 <= -52).
  { destruct Hcase1 as [(Hn & Hm1 & -> & _) | (Hn & Hm1 & ->)].
    - exists t. rewrite Hm1 in Hm2. lia.
    - exists (t - 1). rewrite Hm1 in Hm2.
      assert (Hn1 : fexp prec emax (Zdigits2 mx + ex) - ex = 1) by lia.
      rewrite Hn1 in *.
      assert (Hp : 2 ^ t = 2 * 2 ^ (t - 1)).
      { replace t with (1 + (t - 1)) at 1 by lia. rewrite Z.pow_add_r by lia. reflexivity. }
      pose proof (pow2_pos (t - 1) ltac:(lia)).
      assert (mx / 2 ^ 1 < 2 ^ (t - 1)) by (apply Z.div_lt_upper_bound; lia).
      assert (0 <= mx / 2 ^ 1) by (apply Z.div_pos; lia).
      lia. }
  destruct H2 as (u & Hu & [Hm2lo Hm2hi] & Hue & He1).
  pose proof (Zdigits2_le_pow m2 u Hu ltac:(lia)) as Hd2.
  pose proof (fexp_mono (Zdigits2 m2 + e1) (t + 1 + ex) ltac:(lia)) as Hmono2.
  destruct (shr_fexp_cases m2 e1 loc_Exact Hm2lo) as (mrs2 & e2 & -> & Hcase2).
  simpl in Hcase2.
  pose proof (pow2_pos u Hu) as Hpu.
  destruct Hcase2 as [(Hn & -> & -> & _) | (Hn & -> & ->)].
  - apply SFleb_finite_one; [lia | lia |].
    intros He. assert (2 ^ u <= 2 ^ 52) by (apply Z.pow_le_mono_r; lia). lia.
  - set (n2 := fexp prec emax (Zdigits2 m2 + e1) - e1) in *.
    pose proof (pow2_pos n2 ltac:(lia)) as Hpn.
    apply SFleb_finite_one.
    + apply Z.div_pos; lia.
    + lia.
    + intros He. apply Z.div_le_upper_bound; [lia|].
      assert (2 ^ u <= 2 ^ (n2 + 52)) by (apply Z.pow_le_mono_r; lia).
      rewrite Z.pow_add_r in H by lia. lia.
Qed.


Lemma div_one_pow2_le_one (ey : Z) :
  -52 <= ey <= 971 ->
  SFleb (SF64div one64 (S754_finite false 4503599627370496 ey)) one64 = true.
Proof.
  intros Hey.
  assert (Hall : pow2_quotients_ok = true) by (vm_compute; reflexivity).
  unfold pow2_quotients_ok in Hall. rewrite forallb_forall in Hall.
  specialize (Hall (Z.to_nat (ey + 52))).
  replace (-52 + Z.of_nat (Z.to_nat (ey + 52))) with ey in Hall by lia.
  apply Hall. apply in_seq. lia.
Qed.

Lemma valid_ge_one (my : positive) (ey : Z) :
  valid_binary (S754_finite false my ey) = true ->
  SFleb one64 (S754_finite false my ey) = true ->
  -52 <= ey <= 971 /\ 2 ^ 52 <= Z.pos my < 2 ^ 53 /\ Z.pos (digits2_pos my) = 53.
Proof.
  unfold valid_binary, bounded, canonical_mantissa. intros Hv Hle.
  apply andb_true_iff in Hv as [Hc Hb].
  apply Z.eqb_eq in Hc. apply Z.leb_le in Hb. unfold emax, prec in Hb.
  pose proof (digits2_pos_bounds my) as Hdig.
  unfold SFleb, one64, SFcompare in Hle.
  assert (He : -52 <= ey).
  { destruct (Z.compare_spec (-52) ey); try lia; discriminate. }
  assert (Hd : Z.pos (digits2_pos my) = 53).
  { unfold fexp, SpecFloat.emin, prec, emax in Hc. lia. }
  rewrite Hd in Hdig. change (53 - 1) with 52 in Hdig. lia.
Qed.

(** [0 <= 1.0 / y <= 1.0] for every finite [y >= 1.0]. *)
Lemma SF64div_one_le_one (my : positive) (ey : Z) :
  valid_binary (S754_finite false my ey) = true ->
  SFleb one64 (S754_finite false my ey) = true ->
  sf_nonneg (SF64div one64 (S754_finite false my ey)) = true /\
  SFleb (SF64div one64 (S754_finite false my ey)) one64 = true.
Proof.
  intros Hv Hle.
  destruct (valid_ge_one my ey Hv Hle) as (Hey & Hmy & Hd).
  destruct (Z.eq_dec (Z.pos my) (2 ^ 52)) as [Heq|Hne].
  { change (2 ^ 52) with (Z.pos 4503599627370496) in Heq.
    injection Heq as ->. split; [|now apply div_one_pow2_le_one].
    unfold SF64div, SFdiv, one64. cbv zeta.
    destruct (SFdiv_core_binary _ _ _ _ _ _) as [[q e'] l] eqn:Hcore.
    apply binary_round_aux_nonneg.
    unfold SFdiv_core_binary in Hcore.
    destruct (Z.div_eucl _ _) as [q' r'] eqn:Hdiv in Hcore.
    injection Hcore as <- _ _.
    pose proof (Z_div_mod_full) as _.
    change q' with (fst (q', r')). rewrite <- Hdiv.
    apply Z.div_pos; [|lia].
    destruct (_ - _ - _) as [|p|p]; try lia. apply Z.shiftl_nonneg. lia. }
  unfold SF64div, SFdiv, one64. cbv zeta.
  unfold SFdiv_core_binary.
  change (Zdigits2 (Z.pos 4503599627370496)) with 53.
  change (Zdigits2 (Z.pos my)) with (Z.pos (digits2_pos my)). rewrite Hd.
  set (e' := Z.min (fexp prec emax (53 + -52 - (53 + ey))) (-52 - ey)).
  assert (He' : e' = fexp prec emax (-52 - ey)).
  { unfold e'. replace (53 + -52 - (53 + ey)) with (-52 - ey) by lia.
    unfold fexp, SpecFloat.emin, prec, emax. lia. }
  set (s := -52 - ey - e').
  assert (Hs : 51 <= s <= 53).
  { unfold s. rewrite He'. unfold fexp, SpecFloat.emin, prec, emax. lia. }
  assert (Hm' : match s with
                | 0 => Z.pos 4503599627370496
                | Z.pos _ => Z.shiftl (Z.pos 4503599627370496) s
                | Z.neg _ => 0
                end = 2 ^ 52 * 2 ^ s).
  { destruct s as [|p|p] eqn:Hsp; try lia. now rewrite Z.shiftl_mul_pow2 by lia. }
  rewrite Hm'.
  pose proof (Z_div_mod (2 ^ 52 * 2 ^ s) (Z.pos my) ltac:(lia)) as Hdm.
  destruct (Z.div_eucl (2 ^ 52 * 2 ^ s) (Z.pos my)) as [q r].
  destruct Hdm as [Hqr Hr].
  pose proof (pow2_pos s ltac:(lia)) as Hps.
  assert (Hq : 0 <= q < 2 ^ s) by nia.
  split.
  - apply binary_round_aux_nonneg. lia.
  - assert (Hse : s + 1 + e' = -51 - ey) by (unfold s; lia).
    assert (He'' : e' <= -53)
      by (rewrite He'; unfold fexp, SpecFloat.emin, prec, emax; lia).
    assert (HF : fexp prec emax (s + 1 + e') <= -52)
      by (rewrite Hse; unfold fexp, SpecFloat.emin, prec, emax; lia).
    assert (HF1 : fexp prec emax (s + 1 + e') - e' <= 1)
      by (rewrite Hse, He'; unfold fexp, SpecFloat.emin, prec, emax; lia).
    apply (binary_round_aux_le_one q e' s); lia.
Qed.

Lemma div_one_unit (y : float) :
  (1 <=? y)%float = true ->
  (0 <=? 1 / y)%float = true /\ (1 / y <=? 1)%float = true.
Proof.
  intros Hy. rewrite FloatAxioms.leb_spec in Hy. change (Prim2SF 1) with one64 in Hy.
  pose proof (Prim2SF_valid y) as Hv.
  assert (H : sf_nonneg (Prim2SF (1 / y)) = true /\
              SFleb (Prim2SF (1 / y)) one64 = true).
  { rewrite FloatAxioms.div_spec. change (Prim2SF 1) with one64.
    destruct (Prim2SF y) as [s|s| |s m e]; try destruct s; try discriminate.
    - split; reflexivity.
    - now apply SF64div_one_le_one. }
  destruct H as [Hnn Hle]. split.
  - now apply leb_zero_nonneg.
  - rewrite FloatAxioms.leb_spec. exact Hle.
Qed.


Lemma taylor_step_bounds (P r acc n : Z) :
  0 < P -> - P <= 2 * r <= P -> 0 <= acc <= 2 * P -> 0 < n ->
  0 <= P + (r * acc / P) / n <= 2 * P.
Proof.
  intros HP Hr Hacc Hn.
  assert (Ht : - P <= r * acc / P <= P).
  { split.
    - apply Z.div_le_lower_bound; [assumption | nia].
    - apply Z.div_le_upper_bound; [assumption | nia]. }
  assert (Hq : - P <= (r * acc / P) / n <= P).
  { split.
    - apply Z.div_le_lower_bound; [assumption | nia].
    - apply Z.div_le_upper_bound; [assumption | nia]. }
  lia.
Qed.

Lemma exp_taylor_bounds (n : nat) (r acc : Z) :
  let P := Z.shiftl 1 F64.exp_bits in
  - P <= 2 * r <= P -> 0 <= acc <= 2 * P ->
  0 <= F64.exp_taylor n r acc <= 2 * P.
Proof.
  intros P Hr. revert acc. induction n as [|n IH]; intros acc Hacc; simpl.
  - exact Hacc.
  - apply IH. fold P.
    rewrite Z.shiftr_div_pow2 by (unfold F64.exp_bits; lia).
    replace (2 ^ F64.exp_bits) with P by (unfold P; now rewrite Z.shiftl_1_l).
    apply taylor_step_bounds; try assumption; [|lia].
    unfold P. rewrite Z.shiftl_1_l. now apply Z.pow_pos_nonneg.
Qed.

Lemma exp_finite_nonneg (s : bool) (m : positive) (e : Z) :
  sf_nonneg (F64.exp_finite s m e) = true.
Proof.
  unfold F64.exp_finite. apply binary_normalize_nonneg.
  set (x := F64.to_fix s m e). set (L := F64.ln2_fix).
  assert (HL : 0 < L) by reflexivity.
  assert (HLP : L <= Z.shiftl 1 F64.exp_bits) by (apply Z.leb_le; reflexivity).
  apply exp_taylor_bounds.
  - pose proof (Z.mul_div_le (2 * x + L) (2 * L) ltac:(lia)) as Hlo.
    pose proof (Z.mul_succ_div_gt (2 * x + L) (2 * L) ltac:(lia)) as Hhi.
    nia.
  - split; [|lia]. apply Z.lt_le_incl.
    rewrite Z.shiftl_1_l. now apply Z.pow_pos_nonneg.
Qed.

Lemma exp_nonneg (v : float) :
  is_nan v = false -> (0 <=? F64.exp v)%float = true.
Proof.
  intros Hnan. apply leb_zero_nonneg.
  unfold is_nan in Hnan. rewrite FloatAxioms.eqb_spec in Hnan.
  unfold F64.exp.
  destruct (Prim2SF v) as [s|s| |s m e] eqn:Hv; try destruct s; try reflexivity;
    try (simpl in Hnan; discriminate).
  - destruct (1024 <=? v)%float; [reflexivity|].
    destruct (v <=? -1024)%float; [reflexivity|].
    apply SF2Prim_nonneg, exp_finite_nonneg.
  - destruct (1024 <=? v)%float; [reflexivity|].
    destruct (v <=? -1024)%float; [reflexivity|].
    apply SF2Prim_nonneg, exp_finite_nonneg.
Qed.


Lemma is_nan_opp (v : float) : is_nan (- v) = is_nan v.
Proof.
  unfold is_nan. rewrite !FloatAxioms.eqb_spec, !FloatAxioms.opp_spec.
  destruct (Prim2SF v) as [s|s| |s m e]; try destruct s; try reflexivity;
    unfold SFeqb; simpl; now rewrite Z.compare_refl, Pos.compare_cont_refl.
Qed.

Lemma is_finite_not_nan (v : float) : is_finite v = true -> is_nan v = false.
Proof. unfold is_finite. now destruct (is_nan v). Qed.

(** The sigmoid lies in [[0, 1]] wherever the exponential of the instance
    is not negative (and not NaN); the textbook exponential is so at every
    argument that is not NaN. *)
Lemma sigmoid_unit `{Routines} (v : float) :
  (0 <=? exp_entry (- v))%float = true ->
  (0 <=? sigmoid v)%float = true /\ (sigmoid v <=? 1)%float = true.
Proof. intros He. unfold sigmoid. now apply div_one_unit, add_one_ge_one. Qed.

Lemma sigmoid_range (v : float) :
  is_nan v = false ->
  (0 <=? sigmoid v)%float = true /\ (sigmoid v <=? 1)%float = true.
Proof.
  intros Hv. apply sigmoid_unit. apply exp_nonneg.
  now rewrite is_nan_opp.
Qed.

End RoundingFacts.

(** C7, as the code has it.  For an input whose entries are all finite,
    every entry of the output of [Sigmoid.forward_pass] is at least [0] and
    at most [1] (and is not NaN).  The bounds are not strict in binary64:
    both are attained.  The exponential is the textbook one; the proof uses
    of it only that it returns neither a negative number nor NaN for an
    argument that is not NaN ([exp_nonneg]); the rest is the bit-level
    specification of [+] and [/], for every instance ([sigmoid_unit]). *)
Theorem sigmoid_forward_range (h : heap) (self x : loc) c d (X : array float) :
  h !! self = Some (Obj c d) -> h !! x = Some (Float64 X) -> wf X ->
  (forall i j, i < nrows X -> j < ncols X -> is_finite (get X i j) = true) ->
  exists out h1 Y,
    Sigmoid.forward_pass self x h = Ok (out, h1) /\
    h1 !! out = Some (Float64 Y) /\
    nrows Y = nrows X /\ ncols Y = ncols X /\
    forall i j, i < nrows X -> j < ncols X ->
      (0 <=? get Y i j)%float = true /\ (get Y i j <=? 1)%float = true.
Proof.
  intros Hself HX Hwf Hfin.
  do 3 eexists. split; [eapply sigmoid_forward_pass_run; eassumption|].
  split; [now rewrite lookup_allocated_set|].
  split; [reflexivity|]. split; [reflexivity|].
  intros i j Hi Hj. rewrite get_vectorize by assumption.
  apply sigmoid_range, is_finite_not_nan, Hfin; assumption.
Qed.

Lemma sigmoid_forward_range_witness :
  exists out h1 Y,
    Sigmoid.forward_pass 6 3 (sample_heap VNone) = Ok (out, h1) /\
    h1 !! out = Some (Float64 Y) /\
    nrows Y = 3 /\ ncols Y = 2 /\
    forall i j, i < 3 -> j < 2 ->
      (0 <=? get Y i j)%float = true /\ (get Y i j <=? 1)%float = true.
Proof.
  refine (sigmoid_forward_range (sample_heap VNone) 6 3 cSigmoid activation_attrs
            sample_batch eq_refl eq_refl eq_refl _).
  intros i j Hi Hj. change (i < 3) in Hi. change (j < 2) in Hj.
  destruct i as [|[|[|i]]]; [| | |lia];
    (destruct j as [|[|j]]; [| |lia]); reflexivity.
Defined.

(** C7, as the specification states it, fails: [40.0] and [-710.0] are
    finite, and [Sigmoid.forward_pass] returns exactly [1.0] for the first
    ([1 + exp(-40)] rounds to [1.0]) and exactly [0.0] for the second
    ([exp(710)] overflows to [+inf]), so the output is neither strictly
    below [1] nor strictly above [0].  (The exponential is the textbook
    one.) *)
Lemma sigmoid_forward_attains_bounds :
  is_finite 40 = true /\ is_finite (-710) = true /\
  returned ((x ← alloc (Float64 (MkArray 1 2 [40; -710]%float));
             out ← Sigmoid.forward_pass 6 x;
             deref out) (sample_heap VNone))
    = Some (Float64 (MkArray 1 2 [1; 0]%float)) /\
  (1 <? 1)%float = false /\ (0 <? 0)%float = false.
Proof. repeat apply conj; vm_compute; reflexivity. Qed.

(** * Further properties of the code *)

(** ** Calls that raise *)

Lemma getattr_none_run (h : heap) (self : loc) (name : string) (e : exn) c d :
  h !! self = Some (Obj c d) -> d !! name = Some VNone ->
  (getattr self name ≫= the_array e) h = Raise e.
Proof.
  intros Hs Hn. eapply bind_run; [eapply getattr_run; eassumption | reflexivity].
Qed.

(** X1.  [backward_pass] of a dense layer whose [input] is still [None], as
    the constructor leaves it until the first [forward_pass], raises
    [AttributeError] ([None] has no attribute [T]), whatever [cum_grad]
    is. *)
Theorem linear_backward_pass_before_forward `{Routines} (h : heap) (self w cum_grad : loc) c d
    (W : array float) :
  h !! self = Some (Obj c d) ->
  d !! "weights" = Some (VRef w) -> h !! w = Some (Float64 W) ->
  d !! "input" = Some VNone ->
  LinearLayer.backward_pass self cum_grad h = Raise AttributeError.
Proof.
  intros Hself Hw HW Hin. unfold LinearLayer.backward_pass.
  eapply bind_run. { run getattr_array_run. eapply copy_run; premises. }
  apply bind_raise, bind_raise.
  eapply getattr_none_run; premises.
Qed.

Lemma linear_backward_pass_before_forward_witness :
  LinearLayer.backward_pass 2 4 (sample_heap VNone) = Raise AttributeError.
Proof.
  exact (linear_backward_pass_before_forward (sample_heap VNone) 2 0 4
           cLinearLayer (dense_attrs VNone) sample_weights
           eq_refl eq_refl eq_refl eq_refl).
Defined.

(** The instance that [Sigmoid()] and [ReLU()] yield. *)
Lemma sigmoid_construct_run (h : heap) :
  construct cSigmoid Sigmoid.__init__ h =
    Ok (length h, h ++ [Obj cSigmoid (<["grad" := VNone]> (<["input" := VNone]> ∅))]).
Proof.
  unfold construct, Sigmoid.__init__.
  eapply bind_run; [reflexivity|].
  eapply bind_run.
  { eapply bind_run; [eapply setattr_run; premises|].
    eapply setattr_run; premises. }
  unfold mret, M_ret. now rewrite !store_last.
Qed.

Lemma relu_construct_run (h : heap) :
  construct cReLU ReLU.__init__ h =
    Ok (length h, h ++ [Obj cReLU (<["grad" := VNone]> (<["input" := VNone]> ∅))]).
Proof.
  unfold construct, ReLU.__init__.
  eapply bind_run; [reflexivity|].
  eapply bind_run.
  { eapply bind_run; [eapply setattr_run; premises|].
    eapply setattr_run; premises. }
  unfold mret, M_ret. now rewrite !store_last.
Qed.

(** X2.  [backward_pass] of a [Sigmoid] instance straight after its
    construction raises [TypeError]: the constructor sets [input] to [None]
    and [gradient] negates it. *)
Theorem sigmoid_backward_pass_before_forward `{Routines} (h : heap) (cum_grad : loc) :
  (self ← construct cSigmoid Sigmoid.__init__;
   Sigmoid.backward_pass self cum_grad) h = Raise TypeError.
Proof.
  eapply bind_run; [apply sigmoid_construct_run|].
  unfold Sigmoid.backward_pass. apply bind_raise.
  eapply getattr_none_run; premises.
Qed.

(** X3.  [backward_pass] of a [ReLU] instance straight after its
    construction raises [TypeError]: the constructor sets [input] to [None]
    and [gradient] compares it with [0]. *)
Theorem relu_backward_pass_before_forward (h : heap) (cum_grad : loc) :
  (self ← construct cReLU ReLU.__init__;
   ReLU.backward_pass self cum_grad) h = Raise TypeError.
Proof.
  eapply bind_run; [apply relu_construct_run|].
  unfold ReLU.backward_pass. apply bind_raise.
  eapply getattr_none_run; premises.
Qed.

Lemma add_row_raise (h : heap) (a b : loc) x v :
  h !! a = Some (Float64 x) -> h !! b = Some (Float64_1d v) ->
  ncols x <> length v -> ncols x <> 1 -> length v <> 1 ->
  np.add a b h = Raise ValueError.
Proof.
  intros Ha Hb H1 H2 H3. unfold np.add, broadcast, bdim. prim. rewrite Ha, Hb.
  simpl ncols.
  apply Nat.eqb_neq in H1, H2, H3. rewrite H1, H2, H3.
  now destruct (if nrows x =? nrows (row v) then _ else _).
Qed.

(** X4.  [forward_pass] of a dense layer raises [ValueError] when the batch
    has not as many columns as the weight matrix has rows, and also when the
    product could be formed but the bias can not be broadcast against it
    (its length is neither the number of output columns nor [1], and there
    is more than one output column). *)
Theorem linear_forward_pass_shape_error `{Routines} (h : heap) (self x w b : loc) c d
    (X W : array float) (B : list float) (training : bool) :
  h !! self = Some (Obj c d) ->
  d !! "weights" = Some (VRef w) -> d !! "bias" = Some (VRef b) ->
  h !! x = Some (Float64 X) -> h !! w = Some (Float64 W) ->
  h !! b = Some (Float64_1d B) ->
  ncols X <> nrows W \/
  (ncols W <> length B /\ ncols W <> 1 /\ length B <> 1) ->
  LinearLayer.forward_pass self x training h = Raise ValueError.
Proof.
  intros Hself Hw Hb HX HW HB Hbad.
  unfold LinearLayer.forward_pass.
  run setattr_run. run getattr_array_run.
  destruct (decide (ncols X = nrows W)) as [Hin|Hin].
  - destruct Hbad as [?|(H1 & H2 & H3)]; [contradiction|].
    eapply bind_run.
    { eapply dot_run; [premises | premises |].
      unfold ndarray.dot. apply Nat.eqb_eq in Hin. now rewrite Hin. }
    run getattr_array_run.
    eapply add_row_raise; [premises | premises | assumption..].
  - apply bind_raise. eapply dot_raise; [premises | premises | assumption].
Qed.

Lemma linear_forward_pass_shape_error_witness :
  LinearLayer.forward_pass 2 4 true (sample_heap VNone) = Raise ValueError.
Proof.
  refine (linear_forward_pass_shape_error (sample_heap VNone) 2 4 0 1
            cLinearLayer (dense_attrs VNone) sample_gradient sample_weights
            sample_bias true eq_refl eq_refl eq_refl eq_refl eq_refl eq_refl _).
  left. discriminate.
Defined.

(** X5.  [backward_pass] of a dense layer raises [ValueError] when
    [cum_grad] has not as many rows as the stored input, or not as many
    columns as the weight matrix. *)
Theorem linear_backward_pass_shape_error `{Routines} (h : heap) (self x w g : loc) c d
    (X W G : array float) :
  h !! self = Some (Obj c d) ->
  d !! "weights" = Some (VRef w) -> d !! "input" = Some (VRef x) ->
  h !! x = Some (Float64 X) -> h !! w = Some (Float64 W) ->
  h !! g = Some (Float64 G) ->
  nrows G <> nrows X \/ ncols G <> ncols W ->
  LinearLayer.backward_pass self g h = Raise ValueError.
Proof.
  intros Hself Hw Hx HX HW HG Hbad.
  unfold LinearLayer.backward_pass.
  eapply bind_run. { run getattr_array_run. eapply copy_run; premises. }
  eapply bind_run. { run getattr_array_run. eapply T_run; premises. }
  destruct (decide (nrows G = nrows X)) as [Hr|Hr].
  - destruct Hbad as [?|Hc]; [contradiction|].
    eapply bind_run.
    { eapply dot_run; [premises | premises |].
      apply dot_transpose_l. now symmetry. }
    run setattr_run. run sum_axis0_run. run setattr_run. run T_run.
    eapply dot_raise; [premises | premises | exact Hc].
  - apply bind_raise. eapply dot_raise; [premises | premises |].
    simpl. congruence.
Qed.

Lemma linear_backward_pass_shape_error_witness :
  LinearLayer.backward_pass 2 3 (sample_heap (VRef 3)) = Raise ValueError.
Proof.
  refine (linear_backward_pass_shape_error (sample_heap (VRef 3)) 2 3 0 3
            cLinearLayer (dense_attrs (VRef 3)) sample_batch sample_weights
            sample_batch eq_refl eq_refl eq_refl eq_refl eq_refl eq_refl _).
  right. discriminate.
Defined.

(** ** What the passes leave alone *)

Lemma kept_refl (o : object) : kept o o.
Proof. destruct o; simpl; eauto. Qed.

Lemma kept_trans (o1 o2 o3 : object) : kept o1 o2 -> kept o2 o3 -> kept o1 o3.
Proof.
  destruct o1; simpl; try (intros ->; simpl; now intros ->).
  intros (d2 & -> & Hw & Hb) (d3 & -> & Hw' & Hb'). exists d3.
  repeat split; congruence.
Qed.

Lemma heap_kept_refl (h : heap) : heap_kept h h.
Proof. split; [lia|]. intros l o Hl. exists o. split; [assumption | apply kept_refl]. Qed.

Lemma heap_kept_trans (h1 h2 h3 : heap) :
  heap_kept h1 h2 -> heap_kept h2 h3 -> heap_kept h1 h3.
Proof.
  intros [Hlen H12] [Hlen' H23]. split; [lia|].
  intros l o Hl. destruct (H12 l o Hl) as (o2 & Hl2 & Hk).
  destruct (H23 l o2 Hl2) as (o3 & Hl3 & Hk'). exists o3.
  split; [assumption | eapply kept_trans; eassumption].
Qed.

Lemma heap_kept_alloc (h : heap) (o : object) : heap_kept h (h ++ [o]).
Proof.
  split; [rewrite length_app; lia|].
  intros l o0 Hl. exists o0. split; [now apply lookup_old | apply kept_refl].
Qed.

Lemma heap_kept_setattr (h : heap) (self : loc) (name : string) (v : value) c d :
  h !! self = Some (Obj c d) -> name <> "weights" -> name <> "bias" ->
  heap_kept h (<[self := Obj c (<[name := v]> d)]> h).
Proof.
  intros Hs Hw Hb. split; [now rewrite length_insert|].
  intros l o Hl. destruct (decide (l = self)) as [->|Hne].
  - eexists. split; [eapply lookup_set_same, Hs|].
    rewrite Hs in Hl. injection Hl as <-. simpl. eexists. split; [reflexivity|].
    now rewrite !lookup_insert_ne.
  - exists o. split; [now apply lookup_set_other | apply kept_refl].
Qed.

Lemma allocates_keeps (m : M loc) : allocates m -> keeps m.
Proof. intros Hm h a h' Hrun. now apply Hm in Hrun. Qed.

Lemma keeps_bind {A B} (m : M A) (k : A -> M B) :
  keeps m -> (forall a, keeps (k a)) -> keeps (m ≫= k).
Proof.
  intros Hm Hk h b h' Hrun. unfold mbind, M_bind in Hrun.
  destruct (m h) as [[a h1]|e] eqn:E; [|discriminate].
  eapply heap_kept_trans; [eapply Hm, E | eapply Hk, Hrun].
Qed.

Lemma allocates_bind {A} (m : M A) (k : A -> M loc) :
  keeps m -> (forall a, allocates (k a)) -> allocates (m ≫= k).
Proof.
  intros Hm Hk h b h' Hrun. unfold mbind, M_bind in Hrun.
  destruct (m h) as [[a h1]|e] eqn:E; [|discriminate].
  apply Hm in E. apply Hk in Hrun as [Hk1 Hb].
  split; [eapply heap_kept_trans; eassumption|].
  destruct E as [Hlen _]. lia.
Qed.

Lemma keeps_ret {A} (a : A) : keeps (mret a : M A).
Proof. intros h a' h' [= <- <-]. apply heap_kept_refl. Qed.

Lemma keeps_raise {A} (e : exn) : keeps (raise e : M A).
Proof. intros h a h' [=]. Qed.

Lemma allocates_raise (e : exn) : allocates (raise e).
Proof. intros h a h' [=]. Qed.

Lemma keeps_deref (l : loc) : keeps (deref l).
Proof.
  intros h a h' Hrun. unfold deref in Hrun.
  destruct (h !! l); simplify_eq. apply heap_kept_refl.
Qed.

Lemma keeps_lift {A} (r : result A) : keeps (lift r).
Proof.
  intros h a h' Hrun. unfold lift in Hrun.
  destruct r; simplify_eq. apply heap_kept_refl.
Qed.

Lemma allocates_alloc (o : object) : allocates (alloc o).
Proof.
  intros h a h' [= <- <-]. split; [apply heap_kept_alloc|].
  rewrite length_app. simpl. lia.
Qed.

Lemma keeps_getattr (self : loc) (name : string) : keeps (getattr self name).
Proof.
  unfold getattr. apply keeps_bind; [apply keeps_deref|].
  intros [ | | | |c d]; try apply keeps_raise.
  destruct (d !! name); [apply keeps_ret | apply keeps_raise].
Qed.

Lemma keeps_the_array (e : exn) (v : value) : keeps (the_array e v).
Proof. destruct v; [apply keeps_raise | apply keeps_ret]. Qed.

Lemma keeps_getattr_array (self : loc) (name : string) (e : exn) :
  keeps (getattr self name ≫= the_array e).
Proof. apply keeps_bind; [apply keeps_getattr | intros v; apply keeps_the_array]. Qed.

Lemma keeps_setattr (self : loc) (name : string) (v : value) :
  name <> "weights" -> name <> "bias" -> keeps (setattr self name v).
Proof.
  intros Hw Hb h a h' Hrun. unfold setattr in Hrun. prim.
  destruct (h !! self) as [[ | | | |c d]|] eqn:E; simplify_eq.
  now eapply heap_kept_setattr.
Qed.

Ltac allocation :=
  repeat first
    [ apply allocates_alloc | apply allocates_raise
    | apply keeps_deref | apply keeps_lift
    | apply allocates_bind; [|intros ?]
    | match goal with |- allocates (match ?o with _ => _ end) => destruct o end ].

Lemma allocates_copy (a : loc) : allocates (np.copy a).
Proof. unfold np.copy. allocation. Qed.
Lemma allocates_T (a : loc) : allocates (np.T a).
Proof. unfold np.T. allocation. Qed.
Lemma allocates_dot `{Routines} (a b : loc) : allocates (np.dot a b).
Proof. unfold np.dot. allocation. Qed.
Lemma allocates_sum_axis0_keepdims `{Routines} (a : loc) : allocates (np.sum_axis0_keepdims a).
Proof. unfold np.sum_axis0_keepdims. allocation. Qed.
Lemma allocates_add (a b : loc) : allocates (np.add a b).
Proof. unfold np.add. allocation. Qed.
Lemma allocates_mul (a b : loc) : allocates (np.mul a b).
Proof. unfold np.mul. allocation. Qed.
Lemma allocates_truediv (a b : loc) : allocates (np.truediv a b).
Proof. unfold np.truediv. allocation. Qed.
Lemma allocates_neg (a : loc) : allocates (np.neg a).
Proof. unfold np.neg. allocation. Qed.
Lemma allocates_exp `{Routines} (a : loc) : allocates (np.exp a).
Proof. unfold np.exp. allocation. Qed.
Lemma allocates_radd1 (a : loc) : allocates (np.radd1 a).
Proof. unfold np.radd1. allocation. Qed.
Lemma allocates_rdiv1 (a : loc) : allocates (np.rdiv1 a).
Proof. unfold np.rdiv1. allocation. Qed.
Lemma allocates_rsub1 (a : loc) : allocates (np.rsub1 a).
Proof. unfold np.rsub1. allocation. Qed.
Lemma allocates_gt0 (a : loc) : allocates (np.gt0 a).
Proof. unfold np.gt0. allocation. Qed.
Lemma allocates_astype_int (a : loc) : allocates (np.astype_int a).
Proof. unfold np.astype_int. allocation. Qed.

Ltac passes :=
  repeat first
    [ apply keeps_setattr; discriminate
    | apply keeps_getattr_array | apply keeps_getattr | apply keeps_the_array
    | apply keeps_ret
    | apply allocates_copy | apply allocates_T | apply allocates_dot
    | apply allocates_sum_axis0_keepdims | apply allocates_add
    | apply allocates_mul | apply allocates_truediv | apply allocates_neg
    | apply allocates_exp | apply allocates_radd1 | apply allocates_rdiv1
    | apply allocates_rsub1 | apply allocates_gt0 | apply allocates_astype_int
    | apply allocates_keeps
    | apply allocates_bind; [|intros ?]
    | apply keeps_bind; [|intros ?] ].

Lemma allocates_linear_forward_pass `{Routines} (self x : loc) (training : bool) :
  allocates (LinearLayer.forward_pass self x training).
Proof. unfold LinearLayer.forward_pass. passes. Qed.

Lemma allocates_linear_backward_pass `{Routines} (self g : loc) :
  allocates (LinearLayer.backward_pass self g).
Proof. unfold LinearLayer.backward_pass. passes. Qed.

Lemma allocates_sigmoid_forward_pass `{Routines} (self x : loc) :
  allocates (Sigmoid.forward_pass self x).
Proof. unfold Sigmoid.forward_pass. passes. Qed.

Lemma allocates_sigmoid_backward_pass `{Routines} (self g : loc) :
  allocates (Sigmoid.backward_pass self g).
Proof. unfold Sigmoid.backward_pass. passes. Qed.

Lemma allocates_relu_forward_pass (self x : loc) :
  allocates (ReLU.forward_pass self x).
Proof. unfold ReLU.forward_pass. passes. Qed.

Lemma allocates_relu_backward_pass (self g : loc) :
  allocates (ReLU.backward_pass self g).
Proof. unfold ReLU.backward_pass. passes. Qed.

Lemma keeps_class_of (layer : loc) : keeps (class_of layer).
Proof.
  unfold class_of. apply keeps_bind; [apply keeps_deref|].
  intros []; (apply keeps_ret || apply keeps_raise).
Qed.

Lemma allocates_call_forward_pass `{Routines} (layer x : loc) :
  allocates (call_forward_pass layer x).
Proof.
  unfold call_forward_pass. apply allocates_bind; [apply keeps_class_of|].
  intros []; [apply allocates_linear_forward_pass
             | apply allocates_sigmoid_forward_pass
             | apply allocates_relu_forward_pass].
Qed.

Lemma allocates_call_backward_pass `{Routines} (layer g : loc) :
  allocates (call_backward_pass layer g).
Proof.
  unfold call_backward_pass. apply allocates_bind; [apply keeps_class_of|].
  intros []; [apply allocates_linear_backward_pass
             | apply allocates_sigmoid_backward_pass
             | apply allocates_relu_backward_pass].
Qed.

Lemma forward_loop_kept `{Routines} (layers : list loc) (x : loc) (h : heap) (out : loc) (h' : heap) :
  forward_loop layers x h = Ok (out, h') ->
  heap_kept h h' /\ (out = x \/ length h <= out < length h').
Proof.
  revert x h. induction layers as [|layer layers IH]; intros x h Hrun; simpl in Hrun.
  - injection Hrun as <- <-. split; [apply heap_kept_refl | now left].
  - unfold mbind, M_bind in Hrun.
    destruct (call_forward_pass layer x h) as [[y h1]|e] eqn:E; [|discriminate].
    apply allocates_call_forward_pass in E as [Hk Hy].
    apply IH in Hrun as [Hk' Hout].
    split; [eapply heap_kept_trans; eassumption|].
    right. destruct Hk' as [Hlen _]. lia.
Qed.

Lemma backward_loop_kept `{Routines} (layers : list loc) (g : loc) (h : heap) (out : loc) (h' : heap) :
  backward_loop layers g h = Ok (out, h') ->
  heap_kept h h' /\ (out = g \/ length h <= out < length h').
Proof.
  revert g h. induction layers as [|layer layers IH]; intros g h Hrun; simpl in Hrun.
  - injection Hrun as <- <-. split; [apply heap_kept_refl | now left].
  - unfold mbind, M_bind in Hrun.
    destruct (call_backward_pass layer g h) as [[y h1]|e] eqn:E; [|discriminate].
    apply allocates_call_backward_pass in E as [Hk Hy].
    apply IH in Hrun as [Hk' Hout].
    split; [eapply heap_kept_trans; eassumption|].
    right. destruct Hk' as [Hlen _]. lia.
Qed.

(** X6.  Whenever the forward cell (the copy of the input and the loop)
    returns, for any list of layers and any input: every array that existed before is unchanged (the input batch,
    the weights and the biases among them), every layer instance still has
    its class and the same arrays bound to [weights] and [bias], and the
    result is an array allocated by the cell, never the input batch
    itself. *)
Theorem network_forward_keeps `{Routines} (layers : list loc) (x_in : loc) (h : heap)
    (out : loc) (h' : heap) :
  network_forward layers x_in h = Ok (out, h') ->
  heap_kept h h' /\ length h <= out < length h'.
Proof.
  intros Hrun. unfold network_forward, mbind, M_bind in Hrun.
  destruct (np.copy x_in h) as [[x h1]|e] eqn:E; [|discriminate].
  apply allocates_copy in E as [Hk Hx].
  apply forward_loop_kept in Hrun as [Hk' Hout].
  split; [eapply heap_kept_trans; eassumption|].
  destruct Hk' as [Hlen _]. lia.
Qed.

(** X7.  Whenever the backward loop returns, for any list of layers and any
    seed gradient: every array that existed before is unchanged and every
    layer instance still has its class and the same arrays bound to
    [weights] and [bias]: no parameter is updated.  The result is the seed
    itself (for an empty list) or an array allocated by the loop. *)
Theorem network_backward_keeps `{Routines} (layers : list loc) (grad : loc) (h : heap)
    (out : loc) (h' : heap) :
  network_backward layers grad h = Ok (out, h') ->
  heap_kept h h' /\ (out = grad \/ length h <= out < length h').
Proof. apply backward_loop_kept. Qed.

Lemma add_new (a b : loc) (h : heap) (r : loc) (h' : heap) :
  np.add a b h = Ok (r, h') -> exists z, r = length h /\ h' = h ++ [Float64 z].
Proof.
  unfold np.add. prim. intros Hrun.
  repeat case_match; simplify_eq; eauto.
Qed.

Lemma shape0_same (a : loc) (h : heap) (n : nat) (h' : heap) :
  np.shape0 a h = Ok (n, h') -> h' = h.
Proof.
  unfold np.shape0. prim. intros Hrun.
  repeat case_match; simplify_eq; eauto.
Qed.

Lemma itruediv_new (h : heap) (z : array float) (n : nat) (h' : heap) :
  np.itruediv (length h) n (h ++ [Float64 z]) = Ok (tt, h') ->
  exists z', h' = h ++ [Float64 z'].
Proof.
  unfold np.itruediv. prim. rewrite lookup_new. intros [= <-].
  rewrite store_last. eauto.
Qed.

(** X8.  Whenever the computation of the seed gradient returns, the labels,
    the probabilities and every other object that existed before are
    unchanged, and the result is a new array: the in-place division
    [grad /= grad.shape[0]] writes to that new array only. *)
Theorem seed_gradient_keeps (y probs_np : loc) (h : heap) (grad : loc) (h' : heap) :
  seed_gradient y probs_np h = Ok (grad, h') ->
  heap_kept h h' /\ length h <= grad < length h'.
Proof.
  intros Hrun. unfold seed_gradient, mbind, M_bind in Hrun.
  repeat match type of Hrun with
  | match ?m ?h0 with _ => _ end = _ =>
      let E := fresh "E" in
      destruct (m h0) as [[? ?]|?] eqn:E; [|discriminate]
  end.
  injection Hrun as <- <-.
  apply allocates_truediv in E as [K1 _], E3 as [K4 _].
  apply allocates_neg in E0 as [K2 _].
  apply allocates_rsub1 in E1 as [K3 _], E2 as [K3' _].
  apply add_new in E4 as (z & -> & ->).
  apply shape0_same in E5 as ->. destruct u.
  apply itruediv_new in E6 as (z' & ->).
  assert (K : heap_kept h l3) by (repeat (eapply heap_kept_trans; [eassumption|]); apply heap_kept_refl).
  split; [eapply heap_kept_trans; [exact K | apply heap_kept_alloc]|].
  destruct K as [Hlen _]. rewrite length_app. simpl. lia.
Qed.

Lemma network_forward_keeps_witness :
  exists out h',
    network_forward [2; 5] 3 (sample_heap VNone) = Ok (out, h') /\
    heap_kept (sample_heap VNone) h' /\
    length (sample_heap VNone) <= out < length h'.
Proof.
  destruct (network_forward [2; 5] 3 (sample_heap VNone)) as [[out h']|e] eqn:E.
  - exists out, h'. split; [reflexivity|].
    exact (network_forward_keeps [2; 5] 3 (sample_heap VNone) out h' E).
  - vm_compute in E. discriminate E.
Defined.

Lemma network_backward_keeps_witness :
  exists out h',
    network_backward [2] 4 (sample_heap (VRef 3)) = Ok (out, h') /\
    heap_kept (sample_heap (VRef 3)) h' /\
    (out = 4 \/ length (sample_heap (VRef 3)) <= out < length h').
Proof.
  destruct (network_backward [2] 4 (sample_heap (VRef 3))) as [[out h']|e] eqn:E.
  - exists out, h'. split; [reflexivity|].
    exact (network_backward_keeps [2] 4 (sample_heap (VRef 3)) out h' E).
  - vm_compute in E. discriminate E.
Defined.

Lemma seed_gradient_keeps_witness :
  exists grad h',
    seed_gradient 7 3 (sample_heap VNone) = Ok (grad, h') /\
    heap_kept (sample_heap VNone) h' /\
    length (sample_heap VNone) <= grad < length h'.
Proof.
  destruct (seed_gradient 7 3 (sample_heap VNone)) as [[grad h']|e] eqn:E.
  - exists grad, h'. split; [reflexivity|].
    exact (seed_gradient_keeps 7 3 (sample_heap VNone) grad h' E).
  - vm_compute in E. discriminate E.
Defined.

(** ** Calls in sequence *)

(** X9.  [backward_pass] of a dense layer overwrites [grad_weights] and
    [grad_bias]; it does not add to them.  After two calls in a row, with
    gradients [g] and then [g'], the attributes hold the product
    [input.T . g'] and the sum of [g'] over the batch axis, as after a
    single call with [g']: nothing of the first call is left.  This holds
    for every instance of [Routines]. *)
Theorem backward_pass_overwrites_gradients `{Routines} (h : heap)
    (self x w g g' : loc) c d (X W G G' : array float) :
  h !! self = Some (Obj c d) ->
  d !! "weights" = Some (VRef w) -> d !! "input" = Some (VRef x) ->
  h !! x = Some (Float64 X) -> h !! w = Some (Float64 W) ->
  h !! g = Some (Float64 G) -> h !! g' = Some (Float64 G') ->
  nrows G = nrows X -> ncols G = ncols W ->
  nrows G' = nrows X -> ncols G' = ncols W ->
  returned ((LinearLayer.backward_pass self g;;
             LinearLayer.backward_pass self g';;
             grad_weights ← getattr self "grad_weights" ≫= the_array TypeError;
             deref grad_weights) h)
    = Some (Float64 (matmul_tn X G')) /\
  returned ((LinearLayer.backward_pass self g;;
             LinearLayer.backward_pass self g';;
             grad_bias ← getattr self "grad_bias" ≫= the_array TypeError;
             deref grad_bias) h)
    = Some (Float64 (sum_axis0 G')).
Proof.
  intros Hself Hw Hx HX HW HG HG' Hr Hc Hr' Hc'.
  assert (Hxs : x <> self) by heap_neq.
  assert (Hws : w <> self) by heap_neq.
  assert (Hgs : g' <> self) by heap_neq.
  split; eapply returned_run.
  - eapply bind_run.
    { eapply linear_backward_pass_run with (X := X) (W := W);
        [eassumption | premises | premises | premises | premises | premises
        | apply dot_transpose_l; congruence
        | apply dot_transpose_r; exact Hc ]. }
    eapply bind_run.
    { eapply linear_backward_pass_run with (X := X) (W := W);
        [premises | premises | premises | premises | premises | premises
        | apply dot_transpose_l; congruence
        | apply dot_transpose_r; exact Hc' ]. }
    eapply bind_run; [eapply getattr_array_run; premises|].
    unfold deref. rewrite lookup_allocated_set. reflexivity.
  - eapply bind_run.
    { eapply linear_backward_pass_run with (X := X) (W := W);
        [eassumption | premises | premises | premises | premises | premises
        | apply dot_transpose_l; congruence
        | apply dot_transpose_r; exact Hc ]. }
    eapply bind_run.
    { eapply linear_backward_pass_run with (X := X) (W := W);
        [premises | premises | premises | premises | premises | premises
        | apply dot_transpose_l; congruence
        | apply dot_transpose_r; exact Hc' ]. }
    eapply bind_run; [eapply getattr_array_run; premises|].
    unfold deref. rewrite lookup_allocated_set. reflexivity.
Qed.

Lemma backward_pass_overwrites_gradients_witness :
  returned ((LinearLayer.backward_pass 2 4;;
             LinearLayer.backward_pass 2 9;;
             grad_weights ← getattr 2 "grad_weights" ≫= the_array TypeError;
             deref grad_weights)
              (sample_heap (VRef 3) ++ [Float64 (MkArray 3 1 [2; 2; 2]%float)]))
    = Some (Float64 (matmul_tn sample_batch (MkArray 3 1 [2; 2; 2]%float))) /\
  returned ((LinearLayer.backward_pass 2 4;;
             LinearLayer.backward_pass 2 9;;
             grad_bias ← getattr 2 "grad_bias" ≫= the_array TypeError;
             deref grad_bias)
              (sample_heap (VRef 3) ++ [Float64 (MkArray 3 1 [2; 2; 2]%float)]))
    = Some (Float64 (sum_axis0 (MkArray 3 1 [2; 2; 2]%float))).
Proof.
  exact (backward_pass_overwrites_gradients
           (sample_heap (VRef 3) ++ [Float64 (MkArray 3 1 [2; 2; 2]%float)])
           2 3 0 4 9 cLinearLayer (dense_attrs (VRef 3))
           sample_batch sample_weights sample_gradient (MkArray 3 1 [2; 2; 2]%float)
           eq_refl eq_refl eq_refl eq_refl eq_refl eq_refl eq_refl
           eq_refl eq_refl eq_refl eq_refl).
Defined.

(** X10.  A dense layer remembers the input of its latest [forward_pass]
    only: after forward calls on [x] and then on [x'], [backward_pass]
    computes [grad_weights] as the product [x'.T . cum_grad], for every
    instance of [Routines] (with the textbook routines its entry [(i, j)]
    is the sum over [k] of [x'[k, i] * cum_grad[k, j]], by
    [matmul_tn_textbook]). *)
Theorem backward_pass_uses_last_input `{Routines} (h : heap) (self x x' w b g : loc)
    c d (X X' W G : array float) (B : list float) (training training' : bool) :
  h !! self = Some (Obj c d) ->
  d !! "weights" = Some (VRef w) -> d !! "bias" = Some (VRef b) ->
  h !! x = Some (Float64 X) -> h !! x' = Some (Float64 X') ->
  h !! w = Some (Float64 W) -> h !! b = Some (Float64_1d B) ->
  h !! g = Some (Float64 G) ->
  ncols X = nrows W -> ncols X' = nrows W -> ncols W = length B ->
  nrows G = nrows X' -> ncols G = ncols W ->
  returned ((LinearLayer.forward_pass self x training;;
             LinearLayer.forward_pass self x' training';;
             LinearLayer.backward_pass self g;;
             grad_weights ← getattr self "grad_weights" ≫= the_array TypeError;
             deref grad_weights) h)
    = Some (Float64 (matmul_tn X' G)).
Proof.
  intros Hself Hw Hb HX HX' HW HB HG Hin Hin' Hout Hr Hc.
  destruct (dot_add_row X W B Hin Hout) as (XW & Hdot & Hadd).
  destruct (dot_add_row X' W B Hin' Hout) as (XW' & Hdot' & Hadd').
  eapply returned_run.
  eapply bind_run; [eapply linear_forward_pass_run; eassumption|].
  eapply bind_run.
  { eapply linear_forward_pass_run with (X := X') (W := W) (B := B);
      [premises | premises | premises | premises | premises | premises
      | exact Hdot' | exact Hadd' ]. }
  eapply bind_run.
  { eapply linear_backward_pass_run with (X := X') (W := W);
      [premises | premises | premises | premises | premises | premises
      | apply dot_transpose_l; congruence
      | apply dot_transpose_r; exact Hc ]. }
  eapply bind_run; [eapply getattr_array_run; premises|].
  unfold deref. rewrite lookup_allocated_set. reflexivity.
Qed.

(** X11.  [forward_pass] of a dense layer stores the reference to its
    argument, not a copy: when the caller divides the batch in place
    ([x /= n]) after the forward call, the following [backward_pass]
    computes [grad_weights] from the divided entries, as the product of the
    transposed divided batch with [cum_grad], for every instance of
    [Routines] (with the textbook routines its entry [(i, j)] is the sum
    over [k] of [(x[k, i] / n) * cum_grad[k, j]], by
    [matmul_tn_textbook]). *)
Theorem forward_pass_stores_reference `{Routines} (h : heap) (self x w b g : loc)
    c d (X W G : array float) (B : list float) (training : bool) (n : nat) :
  h !! self = Some (Obj c d) ->
  d !! "weights" = Some (VRef w) -> d !! "bias" = Some (VRef b) ->
  h !! x = Some (Float64 X) ->
  h !! w = Some (Float64 W) -> h !! b = Some (Float64_1d B) ->
  h !! g = Some (Float64 G) ->
  x <> w -> x <> g ->
  ncols X = nrows W -> ncols W = length B ->
  nrows G = nrows X -> ncols G = ncols W ->
  let X' := vectorize (fun v => (v / F64.of_Z (Z.of_nat n))%float) X in
  returned ((LinearLayer.forward_pass self x training;;
             np.itruediv x n;;
             LinearLayer.backward_pass self g;;
             grad_weights ← getattr self "grad_weights" ≫= the_array TypeError;
             deref grad_weights) h)
    = Some (Float64 (matmul_tn X' G)).
Proof.
  intros Hself Hw Hb HX HW HB HG Hxw Hxg Hin Hout Hr Hc X'.
  destruct (dot_add_row X W B Hin Hout) as (XW & Hdot & Hadd).
  assert (Hxs : x <> self) by heap_neq.
  eapply returned_run.
  eapply bind_run; [eapply linear_forward_pass_run; eassumption|].
  eapply bind_run; [eapply itruediv_run; premises|].
  eapply bind_run.
  { eapply linear_backward_pass_run with (X := X') (W := W);
      [premises | premises | premises | premises | premises | premises
      | apply dot_transpose_l; simpl; congruence
      | apply dot_transpose_r; exact Hc ]. }
  eapply bind_run; [eapply getattr_array_run; premises|].
  unfold deref. rewrite lookup_allocated_set. reflexivity.
Qed.

Lemma backward_pass_uses_last_input_witness :
  returned ((LinearLayer.forward_pass 2 3 true;;
             LinearLayer.forward_pass 2 9 true;;
             LinearLayer.backward_pass 2 4;;
             grad_weights ← getattr 2 "grad_weights" ≫= the_array TypeError;
             deref grad_weights)
              (sample_heap VNone ++ [Float64 (MkArray 3 2 [1; 1; 2; 2; 3; 3]%float)]))
    = Some (Float64 (matmul_tn (MkArray 3 2 [1; 1; 2; 2; 3; 3]%float)
                       sample_gradient)).
Proof.
  exact (backward_pass_uses_last_input
           (sample_heap VNone ++ [Float64 (MkArray 3 2 [1; 1; 2; 2; 3; 3]%float)])
           2 3 9 0 1 4 cLinearLayer (dense_attrs VNone)
           sample_batch (MkArray 3 2 [1; 1; 2; 2; 3; 3]%float)
           sample_weights sample_gradient sample_bias true true
           eq_refl eq_refl eq_refl eq_refl eq_refl eq_refl eq_refl eq_refl
           eq_refl eq_refl eq_refl eq_refl eq_refl).
Defined.

Lemma forward_pass_stores_reference_witness :
  returned ((LinearLayer.forward_pass 2 3 true;;
             np.itruediv 3 2;;
             LinearLayer.backward_pass 2 4;;
             grad_weights ← getattr 2 "grad_weights" ≫= the_array TypeError;
             deref grad_weights) (sample_heap VNone))
    = Some (Float64 (matmul_tn
                       (vectorize (fun v => (v / F64.of_Z (Z.of_nat 2))%float)
                          sample_batch)
                       sample_gradient)).
Proof.
  refine (forward_pass_stores_reference (sample_heap VNone) 2 3 0 1 4
            cLinearLayer (dense_attrs VNone)
            sample_batch sample_weights sample_gradient sample_bias true 2
            eq_refl eq_refl eq_refl eq_refl eq_refl eq_refl eq_refl
            _ _ eq_refl eq_refl eq_refl eq_refl); lia.
Defined.

(** ** More on ReLU *)

(** Multiplying by [1.0] on the right rounds back to the same value,
    whatever its sign. *)
Lemma SF64mul_one_r (s : bool) (m : positive) (e : Z) :
  valid_binary (S754_finite s m e) = true ->
  SF64mul (S754_finite s m e) (S754_finite false 4503599627370496 (-52))
  = S754_finite s m e.
Proof.
  intros Hv. unfold SF64mul, SFmul. rewrite xorb_false_r.
  rewrite Pos.mul_comm, Z.add_comm.
  unfold valid_binary, bounded, canonical_mantissa in Hv.
  apply andb_true_iff in Hv as [Hc Hb].
  apply Z.eqb_eq in Hc.
  unfold binary_round_aux.
  assert (H1 : shr_fexp prec emax (Z.pos (4503599627370496 * m)) (-52 + e) loc_Exact
               = ({| shr_m := Z.pos m; shr_r := false; shr_s := false |}, e)).
  { unfold shr_fexp, Zdigits2. cbv [Pos.mul]. simpl digits2_pos.
    rewrite !Pos2Z.inj_succ. unfold Z.succ.
    match goal with
    | |- context [fexp prec emax ?a] =>
        replace a with (Z.pos (digits2_pos m) + e)%Z by lia
    end.
    rewrite Hc. replace (e - (-52 + e))%Z with 52%Z by lia.
    unfold shr. cbn [SpecFloat.iter_pos shr_record_of_loc shr_1 orb]. f_equal. lia. }
  rewrite H1. cbn [shr_m loc_of_shr_record round_nearest_even].
  assert (H2 : shr_fexp prec emax (Z.pos m) e loc_Exact
               = ({| shr_m := Z.pos m; shr_r := false; shr_s := false |}, e)).
  { unfold shr_fexp, Zdigits2. rewrite Hc, Z.sub_diag. reflexivity. }
  rewrite H2. cbn [shr_m]. now rewrite Hb.
Qed.

Lemma mul_one_r (v : float) : (v * 1)%float = v.
Proof.
  apply Prim2SF_inj. rewrite FloatAxioms.mul_spec.
  pose proof (Prim2SF_valid v) as Hv.
  change (Prim2SF 1) with (S754_finite false 4503599627370496 (-52)).
  destruct (Prim2SF v) as [s|s| |s m e];
    [destruct s; reflexivity | destruct s; reflexivity | reflexivity
    | now apply SF64mul_one_r].
Qed.

Lemma relu_positive (v : float) : (0 <? v)%float = true -> relu v = v.
Proof. intros Hpos. unfold relu. rewrite Hpos. now apply mul_one_positive. Qed.

(** Where [x > 0] is false the product is a zero or NaN. *)
Lemma relu_not_positive (v : float) :
  (0 <? v)%float = false ->
  (exists s, Prim2SF (relu v) = S754_zero s) \/ Prim2SF (relu v) = S754_nan.
Proof.
  intros Hneg. unfold relu. rewrite Hneg. simpl F64.of_bool.
  rewrite FloatAxioms.mul_spec.
  change (Prim2SF 0) with (S754_zero false).
  destruct (Prim2SF v) as [s|s| |s m e]; simpl; eauto.
Qed.

Lemma relu_idempotent (v : float) : relu (relu v) = relu v.
Proof.
  destruct (0 <? v)%float eqn:Hpos.
  - rewrite (relu_positive v Hpos). now apply relu_positive.
  - destruct (relu_not_positive v Hpos) as [(s & Hy)|Hy];
      unfold relu at 1; apply Prim2SF_inj;
      rewrite FloatAxioms.mul_spec;
      assert (Hlt : (0 <? relu v)%float = false)
        by (rewrite FloatAxioms.ltb_spec, Hy; reflexivity);
      rewrite Hlt, Hy; reflexivity.
Qed.

Lemma relu_not_negative (v : float) : (relu v <? 0)%float = false.
Proof.
  destruct (0 <? v)%float eqn:Hpos.
  - rewrite (relu_positive v Hpos).
    rewrite FloatAxioms.ltb_spec in *.
    change (Prim2SF 0) with (S754_zero false) in *.
    destruct (Prim2SF v) as [s|s| |s m e]; try destruct s; easy.
  - destruct (relu_not_positive v Hpos) as [(s & Hy)|Hy];
      rewrite FloatAxioms.ltb_spec, Hy; reflexivity.
Qed.

Lemma mul_zero_r_finite (v : float) :
  is_finite v = true -> (v * 0 =? 0)%float = true.
Proof.
  intros Hfin. apply is_finite_SF in Hfin.
  rewrite FloatAxioms.eqb_spec, FloatAxioms.mul_spec.
  change (Prim2SF 0) with (S754_zero false).
  destruct (Prim2SF v) as [s|s| |s m e]; try easy.
Qed.

Lemma relu_forward_value (X : array float) :
  wf X ->
  broadcast (fun t v => (F64.of_bool t * v)%float)
    (vectorize (fun v => (0 <? v)%float) X) X
  = Ok (tabulate (nrows X) (ncols X) (fun i j => relu (get X i j))).
Proof.
  intros Hwf. rewrite broadcast_same by reflexivity. simpl. f_equal.
  apply tabulate_ext. intros i j Hi Hj.
  now rewrite get_vectorize.
Qed.

(** X12.  [ReLU.forward_pass] is idempotent: applied to its own output it
    returns an array with the same entries, bit for bit, whatever the input
    holds (zeros of either sign, infinities and NaN included). *)
Theorem relu_forward_pass_idempotent (h : heap) (self x : loc) c d (X : array float) :
  h !! self = Some (Obj c d) -> h !! x = Some (Float64 X) -> wf X ->
  exists Y,
    returned ((y ← ReLU.forward_pass self x; deref y) h) = Some (Float64 Y) /\
    returned ((y ← ReLU.forward_pass self x;
               z ← ReLU.forward_pass self y;
               deref z) h) = Some (Float64 Y).
Proof.
  intros Hself HX Hwf.
  exists (tabulate (nrows X) (ncols X) (fun i j => relu (get X i j))).
  split; eapply returned_run.
  - eapply bind_run.
    { eapply relu_forward_pass_run; [eassumption | eassumption |].
      now apply relu_forward_value. }
    unfold deref. rewrite lookup_allocated_set. reflexivity.
  - eapply bind_run.
    { eapply relu_forward_pass_run; [eassumption | eassumption |].
      now apply relu_forward_value. }
    eapply bind_run.
    { eapply relu_forward_pass_run;
        [premises | rewrite lookup_allocated_set; reflexivity |].
      apply relu_forward_value, tabulate_wf. }
    unfold deref. rewrite lookup_allocated_set. simpl.
    do 3 f_equal. apply tabulate_ext. intros i j Hi Hj.
    rewrite get_tabulate by assumption. apply relu_idempotent.
Qed.

Lemma relu_forward_pass_idempotent_witness :
  exists Y,
    returned ((y ← ReLU.forward_pass 5 3; deref y) (sample_heap VNone))
      = Some (Float64 Y) /\
    returned ((y ← ReLU.forward_pass 5 3;
               z ← ReLU.forward_pass 5 y;
               deref z) (sample_heap VNone)) = Some (Float64 Y).
Proof.
  exact (relu_forward_pass_idempotent (sample_heap VNone) 5 3 cReLU
           activation_attrs sample_batch eq_refl eq_refl eq_refl).
Defined.

(** X13.  No entry of the output of [ReLU.forward_pass] is negative,
    whatever the input holds: an entry is the positive input, a zero, or
    NaN. *)
Theorem relu_forward_pass_not_negative (h : heap) (self x : loc) c d
    (X : array float) :
  h !! self = Some (Obj c d) -> h !! x = Some (Float64 X) -> wf X ->
  exists out h1 Y,
    ReLU.forward_pass self x h = Ok (out, h1) /\
    h1 !! out = Some (Float64 Y) /\
    nrows Y = nrows X /\ ncols Y = ncols X /\
    forall i j, i < nrows X -> j < ncols X -> (get Y i j <? 0)%float = false.
Proof.
  intros Hself HX Hwf. do 3 eexists. split.
  { eapply relu_forward_pass_run; [eassumption | eassumption |].
    now apply relu_forward_value. }
  split; [now rewrite lookup_allocated_set|].
  split; [reflexivity|]. split; [reflexivity|].
  intros i j Hi Hj. rewrite get_tabulate by assumption.
  apply relu_not_negative.
Qed.

Lemma relu_forward_pass_not_negative_witness :
  exists out h1 Y,
    ReLU.forward_pass 5 3 (sample_heap VNone) = Ok (out, h1) /\
    h1 !! out = Some (Float64 Y) /\
    nrows Y = 3 /\ ncols Y = 2 /\
    forall i j, i < 3 -> j < 2 -> (get Y i j <? 0)%float = false.
Proof.
  exact (relu_forward_pass_not_negative (sample_heap VNone) 5 3 cReLU
           activation_attrs sample_batch eq_refl eq_refl eq_refl).
Defined.

(** X14.  [ReLU.backward_pass] lets the gradient through unchanged, bit for
    bit, where the stored input is positive, and returns a zero where the
    stored input is not positive and the gradient entry is finite. *)
Theorem relu_backward_pass_gates (h : heap) (self x g : loc) c d
    (X G : array float) :
  h !! self = Some (Obj c d) -> d !! "input" = Some (VRef x) ->
  h !! x = Some (Float64 X) -> h !! g = Some (Float64 G) ->
  wf X -> wf G -> nrows G = nrows X -> ncols G = ncols X ->
  exists back h1 R,
    ReLU.backward_pass self g h = Ok (back, h1) /\
    h1 !! back = Some (Float64 R) /\
    nrows R = nrows X /\ ncols R = ncols X /\
    forall i j, i < nrows X -> j < ncols X ->
      ((0 <? get X i j)%float = true -> get R i j = get G i j) /\
      ((0 <? get X i j)%float = false -> is_finite (get G i j) = true ->
       (get R i j =? 0)%float = true).
Proof.
  intros Hself Hin HX HG Hwf HwfG Hr Hc. do 3 eexists. split.
  { eapply relu_backward_pass_run; eauto. now apply broadcast_same. }
  split; [now rewrite lookup_allocated_set|].
  split; [simpl; congruence|]. split; [simpl; congruence|].
  intros i j Hi Hj. simpl.
  rewrite get_tabulate, get_vectorize by (assumption || congruence).
  split.
  - intros ->. apply mul_one_r.
  - intros -> Hfin. now apply mul_zero_r_finite.
Qed.

Lemma relu_backward_pass_gates_witness :
  exists back h1 R,
    ReLU.backward_pass 5 9 (sample_heap VNone ++ [Float64 sample_batch])
      = Ok (back, h1) /\
    h1 !! back = Some (Float64 R) /\
    nrows R = 3 /\ ncols R = 2 /\
    forall i j, i < 3 -> j < 2 ->
      ((0 <? get sample_batch i j)%float = true ->
       get R i j = get sample_batch i j) /\
      ((0 <? get sample_batch i j)%float = false ->
       is_finite (get sample_batch i j) = true ->
       (get R i j =? 0)%float = true).
Proof.
  exact (relu_backward_pass_gates
           (sample_heap VNone ++ [Float64 sample_batch]) 5 3 9
           cReLU activation_attrs sample_batch sample_batch
           eq_refl eq_refl eq_refl eq_refl eq_refl eq_refl eq_refl eq_refl).
Defined.

(** ** The seed gradient at its edges *)

Lemma nan_div (v : float) : (nan / v)%float = nan.
Proof.
  apply Prim2SF_inj. rewrite FloatAxioms.div_spec.
  change (Prim2SF nan) with S754_nan. reflexivity.
Qed.

Lemma add_nan (v : float) : (v + nan)%float = nan.
Proof.
  apply Prim2SF_inj. rewrite FloatAxioms.add_spec.
  change (Prim2SF nan) with S754_nan.
  now destruct (Prim2SF v) as [s|s| |s m e].
Qed.

Lemma nan_add (v : float) : (nan + v)%float = nan.
Proof.
  apply Prim2SF_inj. rewrite FloatAxioms.add_spec.
  change (Prim2SF nan) with S754_nan. reflexivity.
Qed.

Lemma zero_div_zero (v : float) : (v =? 0)%float = true -> (0 / v)%float = nan.
Proof.
  intros Hz. apply Prim2SF_inj. rewrite FloatAxioms.div_spec.
  rewrite FloatAxioms.eqb_spec in Hz.
  change (Prim2SF 0) with (S754_zero false) in *.
  change (Prim2SF nan) with S754_nan.
  destruct (Prim2SF v) as [s|s| |s m e]; try destruct s; easy.
Qed.

(** X15.  Where the network's output is saturated on the side of the label,
    the seed gradient is NaN: for label [1] and probability exactly [1.0]
    the term [(1 - y) / (1 - p)] is [0 / 0], and for label [0] and
    probability [0.0] the term [y / p] is [0 / 0]. *)
Theorem seed_gradient_saturated (h : heap) (y p : loc) (Yl : array Z)
    (P : array float) :
  h !! y = Some (Int64 Yl) -> h !! p = Some (Float64 P) ->
  wf Yl -> wf P -> nrows Yl = nrows P -> ncols Yl = ncols P ->
  exists grad h' Gd,
    seed_gradient y p h = Ok (grad, h') /\
    h' !! grad = Some (Float64 Gd) /\
    forall i j, i < nrows P -> j < ncols P ->
      (get Yl i j = 1%Z -> get P i j = 1%float -> get Gd i j = nan) /\
      (get Yl i j = 0%Z -> (get P i j =? 0)%float = true -> get Gd i j = nan).
Proof.
  intros Hy Hp HwfY HwfP Hr Hc.
  do 3 eexists. split.
  { eapply seed_gradient_run; eauto.
    - now apply broadcast_same.
    - now apply broadcast_same.
    - now apply broadcast_same. }
  split; [now rewrite lookup_allocated|].
  intros i j Hi Hj.
  rewrite get_vectorize by (simpl; (apply tabulate_wf || congruence)).
  simpl. rewrite Hr.
  rewrite get_tabulate by congruence.
  rewrite get_vectorize by (simpl; (apply tabulate_wf || congruence)).
  rewrite !get_tabulate by congruence.
  rewrite !get_vectorize by (assumption || congruence).
  split.
  - intros -> ->.
    change (F64.of_Z (F64.wrap64 (1 - 1)) / (1 - 1))%float with nan.
    now rewrite add_nan, nan_div.
  - intros -> Hz.
    change (F64.of_Z 0) with 0%float.
    rewrite (zero_div_zero _ Hz).
    change (- nan)%float with nan.
    now rewrite nan_add, nan_div.
Qed.

Lemma seed_gradient_saturated_witness :
  exists grad h' Gd,
    seed_gradient 7 3 (sample_heap VNone) = Ok (grad, h') /\
    h' !! grad = Some (Float64 Gd) /\
    forall i j, i < 3 -> j < 2 ->
      (get sample_labels i j = 1%Z -> get sample_batch i j = 1%float ->
       get Gd i j = nan) /\
      (get sample_labels i j = 0%Z -> (get sample_batch i j =? 0)%float = true ->
       get Gd i j = nan).
Proof.
  exact (seed_gradient_saturated (sample_heap VNone) 7 3 sample_labels sample_batch
           eq_refl eq_refl eq_refl eq_refl eq_refl eq_refl).
Defined.

Lemma broadcast_row_column `{Inhabited A, Inhabited B} {C} (f : A -> B -> C)
    (a : array A) (b : array B) :
  nrows a = 1 -> ncols b = 1 -> ncols a = nrows b ->
  broadcast f a b =
    Ok (tabulate (nrows b) (nrows b) (fun i j => f (get a 0 j) (get b i 0))).
Proof.
  intros Ha Hb Hn. unfold broadcast, bdim, bidx. rewrite Ha, Hb, Hn. simpl.
  destruct (Nat.eqb_spec (nrows b) 1) as [->|Hne]; simpl.
  - f_equal.
  - destruct (nrows b) as [|[|n]]; [reflexivity | congruence | reflexivity].
Qed.

(** X16.  The seed gradient does not require labels and probabilities of one
    shape.  For labels given as a row of shape [(1, n)] and probabilities of
    shape [(n, 1)] it raises nothing and returns an array of shape [(n, n)]:
    entry [(i, j)] combines label [j] with probability [i], and the divisor
    is [n]. *)
Theorem seed_gradient_broadcasts (h : heap) (y p : loc) (Yl : array Z)
    (P : array float) :
  h !! y = Some (Int64 Yl) -> h !! p = Some (Float64 P) ->
  wf Yl -> wf P ->
  nrows Yl = 1 -> ncols P = 1 -> ncols Yl = nrows P ->
  exists grad h' Gd,
    seed_gradient y p h = Ok (grad, h') /\
    h' !! grad = Some (Float64 Gd) /\
    nrows Gd = nrows P /\ ncols Gd = nrows P /\
    forall i j, i < nrows P -> j < nrows P ->
      get Gd i j =
        ((- (F64.of_Z (get Yl 0 j) / get P i 0)
          + F64.of_Z (F64.wrap64 (1 - get Yl 0 j)) / (1 - get P i 0))
         / F64.of_Z (Z.of_nat (nrows P)))%float.
Proof.
  intros Hy Hp HwfY HwfP HrY HcP Hn.
  do 3 eexists. split.
  { eapply seed_gradient_run; eauto.
    - now apply broadcast_row_column.
    - now apply broadcast_row_column.
    - now apply broadcast_same. }
  split; [now rewrite lookup_allocated|].
  split; [reflexivity|]. split; [reflexivity|].
  intros i j Hi Hj.
  rewrite get_vectorize by (simpl; (apply tabulate_wf || congruence)).
  simpl.
  rewrite get_tabulate by congruence.
  rewrite get_vectorize by (simpl; (apply tabulate_wf || congruence)).
  rewrite !get_tabulate by congruence.
  rewrite !get_vectorize by (assumption || lia).
  reflexivity.
Qed.


Lemma seed_gradient_broadcasts_witness :
  exists grad h' Gd,
    seed_gradient 9 4 (sample_heap VNone ++ [Int64 (MkArray 1 3 [1; 0; 1]%Z)])
      = Ok (grad, h') /\
    h' !! grad = Some (Float64 Gd) /\
    nrows Gd = 3 /\ ncols Gd = 3 /\
    forall i j, i < 3 -> j < 3 ->
      get Gd i j =
        ((- (F64.of_Z (get (MkArray 1 3 [1; 0; 1]%Z) 0 j) / get sample_gradient i 0)
          + F64.of_Z (F64.wrap64 (1 - get (MkArray 1 3 [1; 0; 1]%Z) 0 j))
            / (1 - get sample_gradient i 0))
         / F64.of_Z (Z.of_nat 3))%float.
Proof.
  exact (seed_gradient_broadcasts
           (sample_heap VNone ++ [Int64 (MkArray 1 3 [1; 0; 1]%Z)]) 9 4
           (MkArray 1 3 [1; 0; 1]%Z) sample_gradient
           eq_refl eq_refl eq_refl eq_refl eq_refl eq_refl eq_refl).
Defined.

(** ** The sigmoid at its edges *)

Lemma is_nan_eq (v : float) : is_nan v = true -> v = nan.
Proof.
  unfold is_nan. rewrite FloatAxioms.eqb_spec. intros Hn.
  apply Prim2SF_inj. change (Prim2SF nan) with S754_nan.
  destruct (Prim2SF v) as [s|s| |s m e]; try destruct s; try easy;
    unfold SFeqb in Hn; simpl in Hn;
    now rewrite Z.compare_refl, Pos.compare_cont_refl in Hn.
Qed.

(** X17.  [Sigmoid.forward_pass] on entries that are not finite: [+inf]
    gives exactly [1.0], [-inf] exactly [0.0] and NaN gives NaN; the closed
    range [[0, 1]] holds for every entry that is not NaN, infinite ones
    included.  The exponential is the textbook one: [0] at [-inf], [+inf]
    at [+inf], NaN at NaN, and never negative. *)
Theorem sigmoid_forward_pass_not_finite (h : heap) (self x : loc) c d
    (X : array float) :
  h !! self = Some (Obj c d) -> h !! x = Some (Float64 X) -> wf X ->
  exists out h1 Y,
    Sigmoid.forward_pass self x h = Ok (out, h1) /\
    h1 !! out = Some (Float64 Y) /\
    forall i j, i < nrows X -> j < ncols X ->
      (is_nan (get X i j) = false ->
       (0 <=? get Y i j)%float = true /\ (get Y i j <=? 1)%float = true) /\
      (get X i j = infinity -> get Y i j = 1%float) /\
      (get X i j = neg_infinity -> get Y i j = 0%float) /\
      (is_nan (get X i j) = true -> get Y i j = nan).
Proof.
  intros Hself HX Hwf.
  do 3 eexists. split; [eapply sigmoid_forward_pass_run; eassumption|].
  split; [now rewrite lookup_allocated_set|].
  intros i j Hi Hj. rewrite get_vectorize by assumption.
  repeat apply conj.
  - apply sigmoid_range.
  - intros ->. vm_compute. reflexivity.
  - intros ->. vm_compute. reflexivity.
  - intros Hn. rewrite (is_nan_eq _ Hn). vm_compute. reflexivity.
Qed.

Lemma sigmoid_forward_pass_not_finite_witness :
  exists out h1 Y,
    Sigmoid.forward_pass 6 3 (sample_heap VNone) = Ok (out, h1) /\
    h1 !! out = Some (Float64 Y) /\
    forall i j, i < 3 -> j < 2 ->
      (is_nan (get sample_batch i j) = false ->
       (0 <=? get Y i j)%float = true /\ (get Y i j <=? 1)%float = true) /\
      (get sample_batch i j = infinity -> get Y i j = 1%float) /\
      (get sample_batch i j = neg_infinity -> get Y i j = 0%float) /\
      (is_nan (get sample_batch i j) = true -> get Y i j = nan).
Proof.
  exact (sigmoid_forward_pass_not_finite (sample_heap VNone) 6 3 cSigmoid
           activation_attrs sample_batch eq_refl eq_refl eq_refl).
Defined.

(** ** An empty batch *)

(** X18.  For a batch without rows (stored input of shape [(0, in_dim)],
    [cum_grad] of shape [(0, out_dim)]), [backward_pass] of a dense layer
    raises nothing: it sets [grad_weights] to zeros of the shape of the
    weights and [grad_bias] to zeros of shape [(1, out_dim)], and returns an
    array without rows.  The zeros are the sums without terms of the
    textbook routines. *)
Theorem backward_pass_on_empty_batch (h : heap) (self x w g : loc) c d
    (X W G : array float) :
  h !! self = Some (Obj c d) ->
  d !! "weights" = Some (VRef w) -> d !! "input" = Some (VRef x) ->
  h !! x = Some (Float64 X) -> h !! w = Some (Float64 W) ->
  h !! g = Some (Float64 G) ->
  nrows X = 0 -> nrows G = 0 -> ncols X = nrows W -> ncols G = ncols W ->
  exists r h' d' gw gb,
    LinearLayer.backward_pass self g h = Ok (r, h') /\
    h' !! self = Some (Obj c d') /\
    d' !! "grad_weights" = Some (VRef gw) /\
    h' !! gw = Some (Float64 (tabulate (nrows W) (ncols W) (fun _ _ => 0%float))) /\
    d' !! "grad_bias" = Some (VRef gb) /\
    h' !! gb = Some (Float64 (tabulate 1 (ncols W) (fun _ _ => 0%float))) /\
    h' !! r = Some (Float64 (MkArray 0 (nrows W) [])).
Proof.
  intros Hself Hw Hx HX HW HG HrX HrG Hin Hout.
  do 5 eexists. split.
  { eapply linear_backward_pass_run; eauto.
    - apply dot_transpose_l. congruence.
    - apply dot_transpose_r. exact Hout. }
  split; [eapply lookup_self_set, Hself|].
  split; [rewrite lookup_insert_ne by discriminate; apply lookup_insert_eq|].
  split.
  { rewrite lookup_allocated_set. simpl.
    rewrite matmul_tn_textbook by congruence.
    rewrite HrX, Hin, Hout. reflexivity. }
  split; [apply lookup_insert_eq|].
  split.
  { rewrite lookup_allocated_set. simpl. do 2 f_equal.
    unfold sum_axis0, sum_entry, textbook, colsum. rewrite HrG, Hout. reflexivity. }
  rewrite lookup_allocated_set. simpl.
  rewrite matmul_nt_textbook by exact Hout. now rewrite HrG.
Qed.

Lemma backward_pass_on_empty_batch_witness :
  exists r h' d' gw gb,
    LinearLayer.backward_pass 2 10
      (<[2 := Obj cLinearLayer (dense_attrs (VRef 9))]> (sample_heap VNone)
         ++ [Float64 (MkArray 0 2 []); Float64 (MkArray 0 1 [])])
      = Ok (r, h') /\
    h' !! 2 = Some (Obj cLinearLayer d') /\
    d' !! "grad_weights" = Some (VRef gw) /\
    h' !! gw = Some (Float64 (tabulate 2 1 (fun _ _ => 0%float))) /\
    d' !! "grad_bias" = Some (VRef gb) /\
    h' !! gb = Some (Float64 (tabulate 1 1 (fun _ _ => 0%float))) /\
    h' !! r = Some (Float64 (MkArray 0 2 [])).
Proof.
  exact (backward_pass_on_empty_batch
           (<[2 := Obj cLinearLayer (dense_attrs (VRef 9))]> (sample_heap VNone)
              ++ [Float64 (MkArray 0 2 []); Float64 (MkArray 0 1 [])])
           2 9 0 10 cLinearLayer (dense_attrs (VRef 9))
           (MkArray 0 2 []) sample_weights (MkArray 0 1 [])
           eq_refl eq_refl eq_refl eq_refl eq_refl eq_refl
           eq_refl eq_refl eq_refl eq_refl).
Defined.

(** ** The network of the notebook *)

Lemma seq_nth_map {A} (l : list A) (d : A) :
  map (fun k => nth k l d) (seq 0 (length l)) = l.
Proof.
  apply (nth_ext _ _ d d); [now rewrite length_map, length_seq|].
  intros n Hn. rewrite length_map, length_seq in Hn.
  set (g := fun k => nth k l d).
  rewrite (nth_indep _ d (g 0)) by now rewrite length_map, length_seq.
  rewrite map_nth, seq_nth by assumption. reflexivity.
Qed.

Lemma tabulate_get `{Inhabited A} {B} (f : A -> B) (a : array A) :
  wf a -> tabulate (nrows a) (ncols a) (fun i j => f (get a i j)) = vectorize f a.
Proof.
  destruct a as [r c l]. unfold wf, tabulate, vectorize, get; simpl. intros Hl.
  f_equal. rewrite <- Hl.
  transitivity (map f (map (fun k => nth k l inhabitant) (seq 0 (length l))));
    [|now rewrite seq_nth_map].
  rewrite map_map.
  apply map_ext_in. intros k Hk. apply in_seq in Hk. f_equal. f_equal.
  pose proof (Nat.div_mod_eq k c). lia.
Qed.

Lemma class_of_run (h : heap) (layer : loc) c d :
  h !! layer = Some (Obj c d) -> class_of layer h = Ok (c, h).
Proof. intros Hl. unfold class_of. prim. now rewrite Hl. Qed.

Lemma call_forward_linear_run `{Routines} (h : heap) (l x w b : loc) d X W B :
  h !! l = Some (Obj cLinearLayer d) ->
  d !! "weights" = Some (VRef w) -> d !! "bias" = Some (VRef b) ->
  h !! x = Some (Float64 X) -> h !! w = Some (Float64 W) ->
  h !! b = Some (Float64_1d B) ->
  ncols X = nrows W -> ncols W = length B ->
  call_forward_pass l x h =
    Ok (length h + 1,
        <[l := Obj cLinearLayer (<["input" := VRef x]> d)]> h
          ++ [Float64 (matmul X W); Float64 (affine X W B)]).
Proof.
  intros Hl Hw Hb HX HW HB Hin Hout. unfold call_forward_pass.
  eapply bind_run; [eapply class_of_run, Hl|].
  eapply linear_forward_pass_run; try eassumption.
  - unfold ndarray.dot. apply Nat.eqb_eq in Hin. now rewrite Hin.
  - unfold matmul. rewrite broadcast_row by exact Hout. simpl. f_equal.
    apply tabulate_ext. intros i j Hi Hj. now rewrite get_tabulate.
Qed.

Lemma call_forward_relu_run `{Routines} (h : heap) (l x : loc) d X :
  h !! l = Some (Obj cReLU d) -> h !! x = Some (Float64 X) -> wf X ->
  call_forward_pass l x h =
    Ok (length h + 1,
        <[l := Obj cReLU (<["input" := VRef x]> d)]> h
          ++ [Bool (vectorize (fun v => (0 <? v)%float) X);
              Float64 (vectorize relu X)]).
Proof.
  intros Hl HX Hwf. unfold call_forward_pass.
  eapply bind_run; [eapply class_of_run, Hl|].
  eapply relu_forward_pass_run; try eassumption.
  rewrite relu_forward_value by assumption. f_equal. now apply tabulate_get.
Qed.

Lemma call_forward_sigmoid_run `{Routines} (h : heap) (l x : loc) d X :
  h !! l = Some (Obj cSigmoid d) -> h !! x = Some (Float64 X) ->
  call_forward_pass l x h =
    Ok (length h + 3,
        <[l := Obj cSigmoid (<["input" := VRef x]> d)]> h ++ sigmoid_objects X).
Proof.
  intros Hl HX. unfold call_forward_pass.
  eapply bind_run; [eapply class_of_run, Hl|].
  now eapply sigmoid_forward_pass_run.
Qed.

Lemma call_backward_sigmoid_run `{Routines} (h : heap) (l x g : loc) d X G :
  h !! l = Some (Obj cSigmoid d) -> d !! "input" = Some (VRef x) ->
  h !! x = Some (Float64 X) -> h !! g = Some (Float64 G) ->
  wf X -> nrows G = nrows X -> ncols G = ncols X ->
  call_backward_pass l g h =
    Ok (length h + 10,
        <[l := Obj cSigmoid (<["grad" := VRef (length h + 9)]> d)]> h
          ++ sigmoid_objects X ++ sigmoid_objects X
          ++ [Float64 (vectorize (fun v => (1 - sigmoid v)%float) X);
              Float64 (vectorize sigmoid_gradient X);
              Float64 (map2 PrimFloat.mul G (vectorize sigmoid_gradient X))]).
Proof.
  intros Hl Hin HX HG Hwf Hr Hc. unfold call_backward_pass.
  eapply bind_run; [eapply class_of_run, Hl|].
  eapply sigmoid_backward_pass_run; try eassumption.
  - rewrite broadcast_same by reflexivity. simpl. f_equal.
    rewrite <- (tabulate_get sigmoid_gradient X Hwf).
    apply tabulate_ext. intros i j Hi Hj.
    now rewrite !get_vectorize.
  - now apply broadcast_same.
Qed.

Lemma call_backward_linear_run `{Routines} (h : heap) (l x w g : loc) d X W G :
  h !! l = Some (Obj cLinearLayer d) ->
  d !! "weights" = Some (VRef w) -> d !! "input" = Some (VRef x) ->
  h !! x = Some (Float64 X) -> h !! w = Some (Float64 W) ->
  h !! g = Some (Float64 G) ->
  nrows G = nrows X -> ncols G = ncols W ->
  call_backward_pass l g h =
    Ok (length h + 5,
        <[l := Obj cLinearLayer
                 (<["grad_bias" := VRef (length h + 3)]>
                    (<["grad_weights" := VRef (length h + 2)]> d))]> h
          ++ [Float64 W; Float64 (transpose X); Float64 (matmul_tn X G);
              Float64 (sum_axis0 G); Float64 (transpose W);
              Float64 (matmul_nt G W)]).
Proof.
  intros Hl Hw Hin HX HW HG Hr Hc. unfold call_backward_pass.
  eapply bind_run; [eapply class_of_run, Hl|].
  eapply linear_backward_pass_run; try eassumption.
  - apply dot_transpose_l. congruence.
  - apply dot_transpose_r. exact Hc.
Qed.

Lemma call_backward_relu_run `{Routines} (h : heap) (l x g : loc) d X G :
  h !! l = Some (Obj cReLU d) -> d !! "input" = Some (VRef x) ->
  h !! x = Some (Float64 X) -> h !! g = Some (Float64 G) ->
  wf X -> nrows G = nrows X -> ncols G = ncols X ->
  call_backward_pass l g h =
    Ok (length h + 2,
        <[l := Obj cReLU (<["grad" := VRef (length h + 1)]> d)]> h
          ++ [Bool (vectorize (fun v => (0 <? v)%float) X);
              Int64 (vectorize relu_gradient X);
              Float64 (map2 (fun v z => (v * F64.of_Z (relu_gradient z))%float) G X)]).
Proof.
  intros Hl Hin HX HG Hwf Hr Hc. unfold call_backward_pass.
  eapply bind_run; [eapply class_of_run, Hl|].
  eapply relu_backward_pass_run; try eassumption.
  rewrite broadcast_same by assumption. f_equal.
  apply tabulate_ext. intros i j Hi Hj.
  rewrite get_vectorize by (assumption || lia). reflexivity.
Qed.

Lemma vectorize_tabulate {A B} (f : A -> B) (r c : nat) (g : nat -> nat -> A) :
  vectorize f (tabulate r c g) = tabulate r c (fun i j => f (g i j)).
Proof. unfold vectorize, tabulate. simpl. now rewrite map_map. Qed.

Lemma seed_gradient_value_run (h : heap) (y p : loc) (Yl : array Z) (P : array float) :
  h !! y = Some (Int64 Yl) -> h !! p = Some (Float64 P) ->
  wf Yl -> wf P -> nrows Yl = nrows P -> ncols Yl = ncols P ->
  seed_gradient y p h = Ok (length h + 5, h ++ seed_objects Yl P).
Proof.
  intros Hy Hp HwfY HwfP Hr Hc. unfold seed_objects.
  set (Q := map2 (fun k v => (F64.of_Z k / v)%float) Yl P).
  set (T := map2 (fun k v => (F64.of_Z k / v)%float)
              (vectorize (fun k => F64.wrap64 (1 - k)) Yl)
              (vectorize (fun v => (1 - v)%float) P)).
  set (Gd := map2 PrimFloat.add (vectorize PrimFloat.opp Q) T).
  replace (bce_seed Yl P)
    with (vectorize (fun v => (v / F64.of_Z (Z.of_nat (nrows Gd)))%float) Gd).
  - eapply seed_gradient_run; try eassumption.
    + now rewrite broadcast_same.
    + now rewrite broadcast_same.
    + now rewrite broadcast_same.
  - unfold Gd at 2, map2 at 1. rewrite vectorize_tabulate. unfold bce_seed, map2 at 1.
    apply tabulate_ext. intros i j Hi Hj. simpl nrows. rewrite Hr.
    simpl in Hi, Hj.
    rewrite get_vectorize by (apply tabulate_wf || assumption).
    unfold Q, T, map2. rewrite !get_tabulate by assumption.
    rewrite !get_vectorize by (assumption || congruence).
    reflexivity.
Qed.

Lemma lookup_at (H t : heap) (n k : nat) (o : object) :
  n = length H + k -> t !! k = Some o -> (H ++ t) !! n = Some o.
Proof. intros -> Hk. now rewrite lookup_allocated. Qed.

Ltac len_solve :=
  repeat first [rewrite length_app | rewrite length_insert]; cbn [length]; lia.

Ltac loc_neq :=
  solve [ congruence | intros ->; congruence | intros <-; congruence | lia ].

(** Lookup in a heap in normal form: attribute updates of old instances,
    followed by the objects allocated since. *)
Ltac find_object :=
  lazymatch goal with
  | |- (_ ++ _) !! (length _ + ?k) = _ =>
      apply (lookup_at _ _ _ k); [len_solve | reflexivity]
  | |- (_ ++ _) !! length _ = _ =>
      apply (lookup_at _ _ _ 0); [len_solve | reflexivity]
  | |- (_ ++ _) !! _ = _ =>
      rewrite lookup_app_l by len_solve;
      repeat first
        [ eassumption
        | rewrite list_lookup_insert_ne by loc_neq
        | rewrite list_lookup_insert_eq by len_solve; reflexivity ]
  | |- _ => eassumption
  end.

Ltac find_attr :=
  solve [ repeat first
    [ eassumption
    | apply lookup_insert_eq
    | rewrite lookup_insert_ne by discriminate
    | reflexivity ] ].

(** Run the next call with [lem] and bring the heap back to normal form. *)
Ltac call lem := eapply bind_run; [ eapply lem | heap_norm ].

Section Notebook.
  Context `{Routines}.
  Variables (h : heap) (l0 a0 l1 a1 x_in y w0 b0 w1 b1 : loc).
  Variables (d0 d1 e0 e1 : gmap string value).
  Variables (X W0 W1 : array float) (B0 B1 : list float) (Yl : array Z).
  Hypothesis Hl0 : h !! l0 = Some (Obj cLinearLayer d0).
  Hypothesis Ha0 : h !! a0 = Some (Obj cReLU e0).
  Hypothesis Hl1 : h !! l1 = Some (Obj cLinearLayer d1).
  Hypothesis Ha1 : h !! a1 = Some (Obj cSigmoid e1).
  Hypothesis Hl01 : l0 <> l1.
  Hypothesis Hw0 : d0 !! "weights" = Some (VRef w0).
  Hypothesis Hb0 : d0 !! "bias" = Some (VRef b0).
  Hypothesis Hw1 : d1 !! "weights" = Some (VRef w1).
  Hypothesis Hb1 : d1 !! "bias" = Some (VRef b1).
  Hypothesis HX : h !! x_in = Some (Float64 X).
  Hypothesis HW0 : h !! w0 = Some (Float64 W0).
  Hypothesis HB0 : h !! b0 = Some (Float64_1d B0).
  Hypothesis HW1 : h !! w1 = Some (Float64 W1).
  Hypothesis HB1 : h !! b1 = Some (Float64_1d B1).
  Hypothesis HY : h !! y = Some (Int64 Yl).
  Hypothesis Hin0 : ncols X = nrows W0.
  Hypothesis Hout0 : ncols W0 = length B0.
  Hypothesis Hin1 : ncols W0 = nrows W1.
  Hypothesis Hout1 : ncols W1 = length B1.

Let Z0 := affine X W0 B0.
Let H0 := vectorize relu Z0.
Let Z1 := affine H0 W1 B1.
Let P := vectorize sigmoid Z1.

Lemma notebook_forward_run :
  exists h1,
    network_forward [l0; a0; l1; a1] x_in h = Ok (length h + 10, h1) /\
    h1 !! (length h + 10) = Some (Float64 P).
Proof.
  clear HY.
  pose proof (lookup_lt_Some _ _ _ Hl0). pose proof (lookup_lt_Some _ _ _ Hl1).
  pose proof (lookup_lt_Some _ _ _ Ha0). pose proof (lookup_lt_Some _ _ _ Ha1).
  pose proof (lookup_lt_Some _ _ _ HX). pose proof (lookup_lt_Some _ _ _ HW0).
  pose proof (lookup_lt_Some _ _ _ HB0). pose proof (lookup_lt_Some _ _ _ HW1).
  pose proof (lookup_lt_Some _ _ _ HB1).
  eexists. split.
  - unfold network_forward.
    eapply bind_run; [eapply copy_run; find_object|].
    simpl forward_loop.
    call call_forward_linear_run;
      [find_object | find_attr | find_attr | find_object | find_object | find_object | assumption.. |].
    call call_forward_relu_run; [find_object | find_object | apply tabulate_wf |].
    call call_forward_linear_run;
      [find_object | find_attr | find_attr | find_object | find_object | find_object | assumption.. |].
    call call_forward_sigmoid_run; [find_object | find_object |].
    reflexivity.
  - find_object.
Qed.

  Hypothesis HwfY : wf Yl.
  Hypothesis HrY : nrows Yl = nrows X.
  Hypothesis HcY : ncols Yl = ncols W1.

Let D1 := map2 PrimFloat.mul (bce_seed Yl P) (vectorize sigmoid_gradient Z1).
Let D0 := map2 (fun v z => (v * F64.of_Z (relu_gradient z))%float)
            (matmul_nt D1 W1) Z0.

Lemma notebook_backward_run :
  exists g h2 d0' d1' gw0 gb0 gw1 gb1,
    (probs_np ← network_forward [l0; a0; l1; a1] x_in;
     grad ← seed_gradient y probs_np;
     network_backward [l0; a0; l1; a1] grad) h = Ok (g, h2) /\
    h2 !! g = Some (Float64 (matmul_nt D0 W0)) /\
    h2 !! l0 = Some (Obj cLinearLayer d0') /\
    d0' !! "grad_weights" = Some (VRef gw0) /\
    h2 !! gw0 = Some (Float64 (matmul_tn X D0)) /\
    d0' !! "grad_bias" = Some (VRef gb0) /\
    h2 !! gb0 = Some (Float64 (sum_axis0 D0)) /\
    h2 !! l1 = Some (Obj cLinearLayer d1') /\
    d1' !! "grad_weights" = Some (VRef gw1) /\
    h2 !! gw1 = Some (Float64 (matmul_tn H0 D1)) /\
    d1' !! "grad_bias" = Some (VRef gb1) /\
    h2 !! gb1 = Some (Float64 (sum_axis0 D1)).
Proof.
  pose proof (lookup_lt_Some _ _ _ Hl0). pose proof (lookup_lt_Some _ _ _ Hl1).
  pose proof (lookup_lt_Some _ _ _ Ha0). pose proof (lookup_lt_Some _ _ _ Ha1).
  pose proof (lookup_lt_Some _ _ _ HX). pose proof (lookup_lt_Some _ _ _ HW0).
  pose proof (lookup_lt_Some _ _ _ HB0). pose proof (lookup_lt_Some _ _ _ HW1).
  pose proof (lookup_lt_Some _ _ _ HB1). pose proof (lookup_lt_Some _ _ _ HY).
  assert (HwfP : wf P) by apply vectorize_wf, tabulate_wf.
  do 8 eexists. split.
  - unfold network_forward. rewrite bind_assoc_run.
    eapply bind_run; [eapply copy_run; find_object|].
    simpl forward_loop.
    repeat rewrite bind_assoc_run.
    call call_forward_linear_run;
      [find_object | find_attr | find_attr | find_object | find_object | find_object | assumption.. |].
    repeat rewrite bind_assoc_run.
    call call_forward_relu_run; [find_object | find_object | apply tabulate_wf |].
    repeat rewrite bind_assoc_run.
    call call_forward_linear_run;
      [find_object | find_attr | find_attr | find_object | find_object | find_object | assumption.. |].
    repeat rewrite bind_assoc_run.
    call call_forward_sigmoid_run; [find_object | find_object |].
    eapply bind_run; [reflexivity|].
    call seed_gradient_value_run;
      [find_object | find_object | exact HwfY | exact HwfP | exact HrY | exact HcY |].
    unfold network_backward. simpl rev. simpl backward_loop.
    call call_backward_sigmoid_run;
      [find_object | find_attr | find_object | find_object | apply tabulate_wf | exact HrY | exact HcY |].
    call call_backward_linear_run;
      [find_object | find_attr | find_attr | find_object | find_object | find_object | exact HrY | exact HcY |].
    call call_backward_relu_run;
      [find_object | find_attr | find_object | find_object | apply tabulate_wf | exact HrY
      | symmetry; exact Hin1 |].
    call call_backward_linear_run;
      [find_object | find_attr | find_attr | find_object | find_object | find_object | exact HrY
      | symmetry; exact Hin1 |].
    reflexivity.
  - repeat apply conj; first [find_object | find_attr].
Qed.

End Notebook.

(** The forward cell on the network with freshly constructed activation
    layers. *)
Lemma constructed_network_forward `{Routines} (h : heap) (l0 l1 x_in w0 b0 w1 b1 : loc)
    (d0 d1 : gmap string value) (X W0 W1 : array float) (B0 B1 : list float) :
  h !! l0 = Some (Obj cLinearLayer d0) -> h !! l1 = Some (Obj cLinearLayer d1) ->
  l0 <> l1 ->
  d0 !! "weights" = Some (VRef w0) -> d0 !! "bias" = Some (VRef b0) ->
  d1 !! "weights" = Some (VRef w1) -> d1 !! "bias" = Some (VRef b1) ->
  h !! x_in = Some (Float64 X) ->
  h !! w0 = Some (Float64 W0) -> h !! b0 = Some (Float64_1d B0) ->
  h !! w1 = Some (Float64 W1) -> h !! b1 = Some (Float64_1d B1) ->
  ncols X = nrows W0 -> ncols W0 = length B0 ->
  ncols W0 = nrows W1 -> ncols W1 = length B1 ->
  exists out h1,
    (a0 ← construct cReLU ReLU.__init__;
     a1 ← construct cSigmoid Sigmoid.__init__;
     network_forward [l0; a0; l1; a1] x_in) h = Ok (out, h1) /\
    h1 !! out =
      Some (Float64 (vectorize sigmoid
                       (affine (vectorize relu (affine X W0 B0)) W1 B1))).
Proof.
  intros Hl0 Hl1 Hl01 Hw0 Hb0 Hw1 Hb1 HX HW0 HB0 HW1 HB1 Hin0 Hout0 Hin1 Hout1.
  set (h' := h ++ [Obj cReLU (<["grad" := VNone]> (<["input" := VNone]> ∅));
                   Obj cSigmoid (<["grad" := VNone]> (<["input" := VNone]> ∅))]).
  assert (Hold : forall l o, h !! l = Some o -> h' !! l = Some o)
    by (intros l o; apply lookup_old).
  edestruct (notebook_forward_run h' l0 (length h) l1 (length h + 1))
    as (h1 & Hrun & Hp);
    [ apply Hold, Hl0
    | unfold h'; now apply (lookup_at _ _ _ 0)
    | apply Hold, Hl1
    | unfold h'; now apply (lookup_at _ _ _ 1)
    | exact Hl01 | exact Hw0 | exact Hb0 | exact Hw1 | exact Hb1
    | apply Hold, HX | apply Hold, HW0 | apply Hold, HB0
    | apply Hold, HW1 | apply Hold, HB1
    | exact Hin0 | exact Hout0 | exact Hin1 | exact Hout1 | ].
  exists (length h' + 10), h1. split; [|exact Hp].
  eapply bind_run; [apply relu_construct_run|].
  eapply bind_run; [apply sigmoid_construct_run|].
  rewrite <- app_assoc. simpl app.
  replace (length (h ++ [Obj cReLU (<["grad" := VNone]> (<["input" := VNone]> ∅))]))
    with (length h + 1) by (rewrite length_app; reflexivity).
  exact Hrun.
Qed.

(** Reading the result of three commands in a row. *)
Lemma bind3_deref_run {A B} (m1 : M A) (m2 : A -> M B) (m3 : A -> B -> M loc)
    (h h1 : heap) (out : loc) (o : object) :
  (a ← m1; b ← m2 a; m3 a b) h = Ok (out, h1) -> h1 !! out = Some o ->
  returned ((a ← m1; b ← m2 a; c ← m3 a b; deref c) h) = Some o.
Proof.
  unfold mbind, M_bind, deref. intros Hrun Hout.
  destruct (m1 h) as [[a ha]|e]; [|discriminate].
  destruct (m2 a ha) as [[b hb]|e]; [|discriminate].
  rewrite Hrun, Hout. reflexivity.
Qed.

(** X19.  The forward pass of the notebook's network: with the activation
    layers constructed as in the notebook and the list
    [[l0; a0; l1; a1]], the copy of the batch and the loop over the layers
    raise nothing for a batch of shape [(n, in)], weights of shapes
    [(in, hid)] and [(hid, out)] and biases of lengths [hid] and [out], and
    [probs_np] is [sigmoid(relu(x . W0 + b0) . W1 + b1)]: the two products
    are what the matrix routine returns, the exponential what [np.exp]
    returns, for every instance of [Routines], and the additions, the
    comparison, the multiplication and the division are those of binary64,
    entry by entry.  (The evaluation of the loss that ends the cell is
    outside the embedding.) *)
Theorem notebook_network_forward `{Routines} (h : heap) (l0 l1 x_in w0 b0 w1 b1 : loc)
    (d0 d1 : gmap string value) (X W0 W1 : array float) (B0 B1 : list float) :
  h !! l0 = Some (Obj cLinearLayer d0) -> h !! l1 = Some (Obj cLinearLayer d1) ->
  l0 <> l1 ->
  d0 !! "weights" = Some (VRef w0) -> d0 !! "bias" = Some (VRef b0) ->
  d1 !! "weights" = Some (VRef w1) -> d1 !! "bias" = Some (VRef b1) ->
  h !! x_in = Some (Float64 X) ->
  h !! w0 = Some (Float64 W0) -> h !! b0 = Some (Float64_1d B0) ->
  h !! w1 = Some (Float64 W1) -> h !! b1 = Some (Float64_1d B1) ->
  ncols X = nrows W0 -> ncols W0 = length B0 ->
  ncols W0 = nrows W1 -> ncols W1 = length B1 ->
  returned ((a0 ← construct cReLU ReLU.__init__;
             a1 ← construct cSigmoid Sigmoid.__init__;
             probs_np ← network_forward [l0; a0; l1; a1] x_in;
             deref probs_np) h)
    = Some (Float64 (vectorize sigmoid
                       (affine (vectorize relu (affine X W0 B0)) W1 B1))).
Proof.
  intros Hl0 Hl1 Hl01 Hw0 Hb0 Hw1 Hb1 HX HW0 HB0 HW1 HB1 Hin0 Hout0 Hin1 Hout1.
  destruct (constructed_network_forward h l0 l1 x_in w0 b0 w1 b1 d0 d1 X W0 W1 B0 B1)
    as (out & h1 & Hrun & Hp); try assumption.
  exact (bind3_deref_run _ _ _ h h1 out _ Hrun Hp).
Qed.

Lemma notebook_network_forward_witness :
  returned ((a0 ← construct cReLU ReLU.__init__;
             a1 ← construct cSigmoid Sigmoid.__init__;
             probs_np ← network_forward [2; a0; 5; a1] 6;
             deref probs_np) network_heap)
    = Some (Float64 (vectorize sigmoid
                       (affine (vectorize relu
                                  (affine sample_batch hidden_weights hidden_bias))
                          output_weights output_bias))).
Proof.
  refine (notebook_network_forward network_heap 2 5 6 0 1 3 4
            (linear_attrs 0 1) (linear_attrs 3 4)
            sample_batch hidden_weights output_weights hidden_bias output_bias
            eq_refl eq_refl _ eq_refl eq_refl eq_refl eq_refl
            eq_refl eq_refl eq_refl eq_refl eq_refl
            eq_refl eq_refl eq_refl eq_refl).
  discriminate.
Defined.

(** X20.  Backpropagation through the notebook's network.  After the forward
    pass (the cell up to [probs_np = out]), the seed gradient and the
    backward loop over [[l0; a0; l1; a1]] (none of them raises for labels
    of the shape of the output), for every instance of [Routines] and with
    [z0 = x . W0 + b0], [h0 = relu(z0)], [z1 = h0 . W1 + b1],
    [p = sigmoid(z1)], [seed] the seed gradient of the labels and [p],
    [delta1 = seed * sigmoid(z1) * (1 - sigmoid(z1))] and
    [delta0 = (delta1 . W1.T) * (z0 > 0)]:
    - the output layer holds [grad_weights = h0.T . delta1] and
      [grad_bias] the sum of [delta1] over the batch axis;
    - the hidden layer holds [grad_weights = x.T . delta0] and [grad_bias]
      the sum of [delta0] over the batch axis;
    - the loop ends with the gradient [delta0 . W0.T] with respect to the
      input. *)
Theorem notebook_backpropagation `{Routines} (h : heap) (l0 l1 x_in y w0 b0 w1 b1 : loc)
    (d0 d1 : gmap string value) (X W0 W1 : array float) (B0 B1 : list float)
    (Yl : array Z) :
  h !! l0 = Some (Obj cLinearLayer d0) -> h !! l1 = Some (Obj cLinearLayer d1) ->
  l0 <> l1 ->
  d0 !! "weights" = Some (VRef w0) -> d0 !! "bias" = Some (VRef b0) ->
  d1 !! "weights" = Some (VRef w1) -> d1 !! "bias" = Some (VRef b1) ->
  h !! x_in = Some (Float64 X) ->
  h !! w0 = Some (Float64 W0) -> h !! b0 = Some (Float64_1d B0) ->
  h !! w1 = Some (Float64 W1) -> h !! b1 = Some (Float64_1d B1) ->
  h !! y = Some (Int64 Yl) ->
  ncols X = nrows W0 -> ncols W0 = length B0 ->
  ncols W0 = nrows W1 -> ncols W1 = length B1 ->
  wf Yl -> nrows Yl = nrows X -> ncols Yl = ncols W1 ->
  let z0 := affine X W0 B0 in
  let h0 := vectorize relu z0 in
  let z1 := affine h0 W1 B1 in
  let p := vectorize sigmoid z1 in
  let delta1 := map2 PrimFloat.mul (bce_seed Yl p) (vectorize sigmoid_gradient z1) in
  let delta0 := map2 (fun v z => (v * F64.of_Z (relu_gradient z))%float)
                  (matmul_nt delta1 W1) z0 in
  exists g h' d0' d1' gw0 gb0 gw1 gb1,
    (a0 ← construct cReLU ReLU.__init__;
     a1 ← construct cSigmoid Sigmoid.__init__;
     probs_np ← network_forward [l0; a0; l1; a1] x_in;
     grad ← seed_gradient y probs_np;
     network_backward [l0; a0; l1; a1] grad) h = Ok (g, h') /\
    h' !! g = Some (Float64 (matmul_nt delta0 W0)) /\
    h' !! l0 = Some (Obj cLinearLayer d0') /\
    d0' !! "grad_weights" = Some (VRef gw0) /\
    h' !! gw0 = Some (Float64 (matmul_tn X delta0)) /\
    d0' !! "grad_bias" = Some (VRef gb0) /\
    h' !! gb0 = Some (Float64 (sum_axis0 delta0)) /\
    h' !! l1 = Some (Obj cLinearLayer d1') /\
    d1' !! "grad_weights" = Some (VRef gw1) /\
    h' !! gw1 = Some (Float64 (matmul_tn h0 delta1)) /\
    d1' !! "grad_bias" = Some (VRef gb1) /\
    h' !! gb1 = Some (Float64 (sum_axis0 delta1)).
Proof.
  intros Hl0 Hl1 Hl01 Hw0 Hb0 Hw1 Hb1 HX HW0 HB0 HW1 HB1 HY
    Hin0 Hout0 Hin1 Hout1 HwfY HrY HcY z0 h0 z1 p delta1 delta0.
  set (hc := h ++ [Obj cReLU (<["grad" := VNone]> (<["input" := VNone]> ∅));
                   Obj cSigmoid (<["grad" := VNone]> (<["input" := VNone]> ∅))]).
  assert (Hold : forall l o, h !! l = Some o -> hc !! l = Some o)
    by (intros l o; apply lookup_old).
  edestruct (notebook_backward_run hc l0 (length h) l1 (length h + 1))
    as (g & h2 & d0' & d1' & gw0 & gb0 & gw1 & gb1 & Hrun & Hrest);
    [ apply Hold, Hl0
    | unfold hc; now apply (lookup_at _ _ _ 0)
    | apply Hold, Hl1
    | unfold hc; now apply (lookup_at _ _ _ 1)
    | exact Hl01 | exact Hw0 | exact Hb0 | exact Hw1 | exact Hb1
    | apply Hold, HX | apply Hold, HW0 | apply Hold, HB0
    | apply Hold, HW1 | apply Hold, HB1 | apply Hold, HY
    | exact Hin0 | exact Hout0 | exact Hin1 | exact Hout1
    | exact HwfY | exact HrY | exact HcY | ].
  exists g, h2, d0', d1', gw0, gb0, gw1, gb1.
  split; [|exact Hrest].
  eapply bind_run; [apply relu_construct_run|].
  eapply bind_run; [apply sigmoid_construct_run|].
  rewrite <- app_assoc. simpl app.
  replace (length (h ++ [Obj cReLU (<["grad" := VNone]> (<["input" := VNone]> ∅))]))
    with (length h + 1) by (rewrite length_app; reflexivity).
  exact Hrun.
Qed.

Lemma notebook_backpropagation_witness :
  let z0 := affine sample_batch hidden_weights hidden_bias in
  let h0 := vectorize relu z0 in
  let z1 := affine h0 output_weights output_bias in
  let p := vectorize sigmoid z1 in
  let delta1 := map2 PrimFloat.mul (bce_seed network_labels p)
                  (vectorize sigmoid_gradient z1) in
  let delta0 := map2 (fun v z => (v * F64.of_Z (relu_gradient z))%float)
                  (matmul_nt delta1 output_weights) z0 in
  exists g h' d0' d1' gw0 gb0 gw1 gb1,
    (a0 ← construct cReLU ReLU.__init__;
     a1 ← construct cSigmoid Sigmoid.__init__;
     probs_np ← network_forward [2; a0; 5; a1] 6;
     grad ← seed_gradient 7 probs_np;
     network_backward [2; a0; 5; a1] grad) network_heap = Ok (g, h') /\
    h' !! g = Some (Float64 (matmul_nt delta0 hidden_weights)) /\
    h' !! 2 = Some (Obj cLinearLayer d0') /\
    d0' !! "grad_weights" = Some (VRef gw0) /\
    h' !! gw0 = Some (Float64 (matmul_tn sample_batch delta0)) /\
    d0' !! "grad_bias" = Some (VRef gb0) /\
    h' !! gb0 = Some (Float64 (sum_axis0 delta0)) /\
    h' !! 5 = Some (Obj cLinearLayer d1') /\
    d1' !! "grad_weights" = Some (VRef gw1) /\
    h' !! gw1 = Some (Float64 (matmul_tn h0 delta1)) /\
    d1' !! "grad_bias" = Some (VRef gb1) /\
    h' !! gb1 = Some (Float64 (sum_axis0 delta1)).
Proof.
  refine (notebook_backpropagation network_heap 2 5 6 7 0 1 3 4
            (linear_attrs 0 1) (linear_attrs 3 4)
            sample_batch hidden_weights output_weights hidden_bias output_bias
            network_labels
            eq_refl eq_refl _ eq_refl eq_refl eq_refl eq_refl
            eq_refl eq_refl eq_refl eq_refl eq_refl eq_refl
            eq_refl eq_refl eq_refl eq_refl eq_refl eq_refl eq_refl).
  discriminate.
Defined.

(** ** The copy taken by the forward cell *)

(** X21.  The forward cell works on a copy of the batch ([x_in.copy()]), so
    the first layer's [input] is that copy: when the caller divides [x_in]
    in place after the forward cell, the backward loop still computes
    [grad_weights] from the entries the batch had at the forward pass, as
    the product [x.T . cum_grad] of the undivided batch, for every instance
    of [Routines]. *)
Theorem network_forward_copies_input `{Routines} (h : heap) (l0 x_in w b g : loc) d
    (X W G : array float) (B : list float) (n : nat) :
  h !! l0 = Some (Obj cLinearLayer d) ->
  d !! "weights" = Some (VRef w) -> d !! "bias" = Some (VRef b) ->
  h !! x_in = Some (Float64 X) ->
  h !! w = Some (Float64 W) -> h !! b = Some (Float64_1d B) ->
  h !! g = Some (Float64 G) ->
  x_in <> w -> x_in <> g ->
  ncols X = nrows W -> ncols W = length B ->
  nrows G = nrows X -> ncols G = ncols W ->
  returned ((network_forward [l0] x_in;;
             np.itruediv x_in n;;
             network_backward [l0] g;;
             grad_weights ← getattr l0 "grad_weights" ≫= the_array TypeError;
             deref grad_weights) h)
    = Some (Float64 (matmul_tn X G)).
Proof.
  intros Hl0 Hw Hb HX HW HB HG Hxw Hxg Hin Hout Hr Hc.
  pose proof (lookup_lt_Some _ _ _ Hl0). pose proof (lookup_lt_Some _ _ _ HX).
  pose proof (lookup_lt_Some _ _ _ HW). pose proof (lookup_lt_Some _ _ _ HB).
  pose proof (lookup_lt_Some _ _ _ HG).
  eapply returned_run.
  eapply bind_run.
  { unfold network_forward.
    eapply bind_run; [eapply copy_run; find_object|].
    simpl forward_loop.
    call call_forward_linear_run;
      [find_object | find_attr | find_attr | find_object | find_object
      | find_object | assumption.. |].
    reflexivity. }
  call itruediv_run; [find_object|].
  eapply bind_run.
  { unfold network_backward. simpl rev. simpl backward_loop.
    call call_backward_linear_run;
      [find_object | find_attr | find_attr | find_object | find_object
      | find_object | exact Hr | exact Hc |].
    reflexivity. }
  eapply bind_run; [eapply getattr_array_run; [find_object | find_attr]|].
  unfold deref.
  match goal with |- context [?hh !! ?l] => replace (hh !! l) with (Some (Float64 (matmul_tn X G))) end.
  - reflexivity.
  - symmetry. find_object.
Qed.

Lemma network_forward_copies_input_witness :
  returned ((network_forward [2] 3;;
             np.itruediv 3 2;;
             network_backward [2] 4;;
             grad_weights ← getattr 2 "grad_weights" ≫= the_array TypeError;
             deref grad_weights) (sample_heap VNone))
    = Some (Float64 (matmul_tn sample_batch sample_gradient)).
Proof.
  refine (network_forward_copies_input (sample_heap VNone) 2 3 0 1 4
            (dense_attrs VNone) sample_batch sample_weights sample_gradient
            sample_bias 2
            eq_refl eq_refl eq_refl eq_refl eq_refl eq_refl eq_refl
            _ _ eq_refl eq_refl eq_refl eq_refl); lia.
Defined.

(** ** Examples of a batch do not interact in the forward pass *)

(** The textbook product is row-local: its entry [(i, j)] adds up the
    products of row [i] of the left operand with column [j] of the right
    one. *)
Lemma textbook_row_local : row_local.
Proof.
  intros a a' b i j Hr Hc Hrow. unfold dot_entry, textbook. rewrite Hc.
  apply dotsum_ext. intros k Hk. now rewrite Hrow.
Qed.

(** With a row-local product, the affine map and the whole forward value
    of the network are row-local too. *)
Lemma affine_same_row `{Routines} (X X' W : array float) (B : list float)
    (i j : nat) :
  row_local ->
  nrows X' = nrows X -> ncols X' = ncols X ->
  (forall k, k < ncols X -> get X' i k = get X i k) ->
  i < nrows X -> j < ncols W ->
  get (affine X' W B) i j = get (affine X W B) i j.
Proof.
  intros Hlocal Hr Hc Hrow Hi Hj. unfold affine.
  rewrite !get_tabulate by lia. f_equal. now apply Hlocal.
Qed.

Lemma network_value_same_row `{Routines} (X X' W0 W1 : array float)
    (B0 B1 : list float) (i j : nat) :
  row_local ->
  nrows X' = nrows X -> ncols X' = ncols X ->
  (forall k, k < ncols X -> get X' i k = get X i k) ->
  i < nrows X -> j < ncols W1 ->
  get (vectorize sigmoid (affine (vectorize relu (affine X' W0 B0)) W1 B1)) i j =
  get (vectorize sigmoid (affine (vectorize relu (affine X W0 B0)) W1 B1)) i j.
Proof.
  intros Hlocal Hr Hc Hrow Hi Hj.
  rewrite !get_vectorize by (apply tabulate_wf || (simpl; lia)).
  f_equal. apply affine_same_row; try assumption; [reflexivity|].
  simpl. intros k Hk.
  rewrite !get_vectorize by (apply tabulate_wf || (simpl; lia)).
  f_equal. now apply affine_same_row.
Qed.

(** X22.  In the forward pass the examples of a batch do not interact: for
    two batches of one shape that agree on example [i], row [i] of
    [probs_np] is the same, bit for bit, whatever the other examples
    are.  The products are those of the textbook routine, which computes a
    row of the product from the same row of the left operand
    ([textbook_row_local]); the values agree for every instance that does
    so ([network_value_same_row]). *)
Theorem notebook_network_forward_by_example (h : heap)
    (l0 l1 x_in x_in' w0 b0 w1 b1 : loc)
    (d0 d1 : gmap string value) (X X' W0 W1 : array float) (B0 B1 : list float)
    (i : nat) :
  h !! l0 = Some (Obj cLinearLayer d0) -> h !! l1 = Some (Obj cLinearLayer d1) ->
  l0 <> l1 ->
  d0 !! "weights" = Some (VRef w0) -> d0 !! "bias" = Some (VRef b0) ->
  d1 !! "weights" = Some (VRef w1) -> d1 !! "bias" = Some (VRef b1) ->
  h !! x_in = Some (Float64 X) -> h !! x_in' = Some (Float64 X') ->
  h !! w0 = Some (Float64 W0) -> h !! b0 = Some (Float64_1d B0) ->
  h !! w1 = Some (Float64 W1) -> h !! b1 = Some (Float64_1d B1) ->
  ncols X = nrows W0 -> ncols W0 = length B0 ->
  ncols W0 = nrows W1 -> ncols W1 = length B1 ->
  nrows X' = nrows X -> ncols X' = ncols X -> i < nrows X ->
  (forall k, k < ncols X -> get X' i k = get X i k) ->
  exists P P',
    returned ((a0 ← construct cReLU ReLU.__init__;
               a1 ← construct cSigmoid Sigmoid.__init__;
               probs_np ← network_forward [l0; a0; l1; a1] x_in;
               deref probs_np) h) = Some (Float64 P) /\
    returned ((a0 ← construct cReLU ReLU.__init__;
               a1 ← construct cSigmoid Sigmoid.__init__;
               probs_np ← network_forward [l0; a0; l1; a1] x_in';
               deref probs_np) h) = Some (Float64 P') /\
    nrows P' = nrows P /\ ncols P' = ncols P /\
    forall j, j < ncols P -> get P' i j = get P i j.
Proof.
  intros Hl0 Hl1 Hl01 Hw0 Hb0 Hw1 Hb1 HX HX' HW0 HB0 HW1 HB1
    Hin0 Hout0 Hin1 Hout1 Hr Hc Hi Hrow.
  destruct (constructed_network_forward h l0 l1 x_in w0 b0 w1 b1 d0 d1 X W0 W1 B0 B1)
    as (out & h1 & Hrun & Hp); try assumption.
  destruct (constructed_network_forward h l0 l1 x_in' w0 b0 w1 b1 d0 d1 X' W0 W1 B0 B1)
    as (out' & h1' & Hrun' & Hp'); try assumption; [congruence|].
  do 2 eexists.
  split; [exact (bind3_deref_run _ _ _ h h1 out _ Hrun Hp)|].
  split; [exact (bind3_deref_run _ _ _ h h1' out' _ Hrun' Hp')|].
  split; [exact Hr|]. split; [reflexivity|].
  intros j Hj. apply network_value_same_row; try assumption.
  apply textbook_row_local.
Qed.

Lemma notebook_network_forward_by_example_witness :
  exists P P',
    returned ((a0 ← construct cReLU ReLU.__init__;
               a1 ← construct cSigmoid Sigmoid.__init__;
               probs_np ← network_forward [2; a0; 5; a1] 6;
               deref probs_np)
                (network_heap ++ [Float64 (MkArray 3 2 [4; 4; -1; -2; 8; 8]%float)]))
      = Some (Float64 P) /\
    returned ((a0 ← construct cReLU ReLU.__init__;
               a1 ← construct cSigmoid Sigmoid.__init__;
               probs_np ← network_forward [2; a0; 5; a1] 8;
               deref probs_np)
                (network_heap ++ [Float64 (MkArray 3 2 [4; 4; -1; -2; 8; 8]%float)]))
      = Some (Float64 P') /\
    nrows P' = nrows P /\ ncols P' = ncols P /\
    forall j, j < ncols P -> get P' 1 j = get P 1 j.
Proof.
  refine (notebook_network_forward_by_example
            (network_heap ++ [Float64 (MkArray 3 2 [4; 4; -1; -2; 8; 8]%float)])
            2 5 6 8 0 1 3 4 (linear_attrs 0 1) (linear_attrs 3 4)
            sample_batch (MkArray 3 2 [4; 4; -1; -2; 8; 8]%float)
            hidden_weights output_weights hidden_bias output_bias 1
            eq_refl eq_refl _ eq_refl eq_refl eq_refl eq_refl
            eq_refl eq_refl eq_refl eq_refl eq_refl eq_refl
            eq_refl eq_refl eq_refl eq_refl eq_refl eq_refl _ _).
  - discriminate.
  - simpl. lia.
  - intros k Hk. change (k < 2) in Hk.
    destruct k as [|[|k]]; [reflexivity | reflexivity | lia].
Defined.

(** ** The sign of the seed gradient *)

Section Signs.
Local Open Scope Z_scope.

Lemma binary_round_aux_nonpos (m e : Z) (l : location) :
  0 <= m -> sf_nonpos (binary_round_aux prec emax true m e l) = true.
Proof.
  intros Hm. unfold binary_round_aux.
  pose proof (shr_fexp_nonneg m e l Hm) as H1.
  destruct (shr_fexp prec emax m e l) as [mrs' e']. simpl in H1.
  pose proof (shr_fexp_nonneg _ e' loc_Exact
                (round_nearest_even_nonneg _ (loc_of_shr_record mrs') H1)) as H2.
  destruct (shr_fexp prec emax _ e' loc_Exact) as [mrs'' e'']. simpl in H2.
  destruct (shr_m mrs'') as [|p|p]; try reflexivity; [|lia].
  now destruct (e'' <=? emax - prec).
Qed.

Lemma SFdiv_core_quotient_nonneg (mx my : positive) (ex ey : Z) :
  0 <= fst (fst (SFdiv_core_binary prec emax (Z.pos mx) ex (Z.pos my) ey)).
Proof.
  unfold SFdiv_core_binary.
  destruct (Z.div_eucl _ _) as [q r] eqn:Hdiv. simpl.
  change q with (fst (q, r)). rewrite <- Hdiv.
  apply Z.div_pos; [|lia].
  destruct (_ - _ - _) as [|p|p]; try lia. apply Z.shiftl_nonneg. lia.
Qed.

(** A quotient by a positive finite number has the sign of the dividend. *)
Lemma SF64div_signs (sx : bool) (mx my : positive) (ex ey : Z) :
  (if sx then sf_nonpos else sf_nonneg)
    (SF64div (S754_finite sx mx ex) (S754_finite false my ey)) = true.
Proof.
  unfold SF64div, SFdiv. rewrite xorb_false_r.
  pose proof (SFdiv_core_quotient_nonneg mx my ex ey) as Hq.
  destruct (SFdiv_core_binary _ _ _ _ _ _) as [[q e'] l]. simpl in Hq.
  destruct sx; [now apply binary_round_aux_nonpos | now apply binary_round_aux_nonneg].
Qed.

Lemma digits2_pos_iter_xO (m d : positive) :
  digits2_pos (Pos.iter xO m d) = (digits2_pos m + d)%positive.
Proof.
  induction d as [|d IH] using Pos.peano_ind.
  - simpl. lia.
  - rewrite Pos.iter_succ. simpl digits2_pos. rewrite IH. lia.
Qed.

(** A mantissa that is already canonical is not rounded. *)
Lemma binary_round_aux_canonical (m : positive) (e : Z) :
  bounded prec emax m e = true ->
  binary_round_aux prec emax false (Z.pos m) e loc_Exact = S754_finite false m e.
Proof.
  intros Hv. unfold bounded, canonical_mantissa in Hv.
  apply andb_true_iff in Hv as [Hc Hb]. apply Z.eqb_eq in Hc.
  unfold binary_round_aux.
  assert (H : shr_fexp prec emax (Z.pos m) e loc_Exact
              = ({| shr_m := Z.pos m; shr_r := false; shr_s := false |}, e)).
  { unfold shr_fexp, Zdigits2. rewrite Hc, Z.sub_diag. reflexivity. }
  rewrite H. cbn [shr_m loc_of_shr_record round_nearest_even].
  rewrite H. cbn [shr_m]. now rewrite Hb.
Qed.

(** The integers from [1] to [2^53 - 1] convert to a positive finite
    [float64]. *)
Lemma of_Z_positive (z : Z) :
  0 < z < 2 ^ 53 ->
  exists m e, Prim2SF (F64.of_Z z) = S754_finite false m e.
Proof.
  intros [Hpos Hlt]. destruct z as [|m|m]; try lia.
  unfold F64.of_Z, binary_normalize, binary_round.
  pose proof (digits2_pos_bounds m) as [Hd _].
  assert (Hd53 : Z.pos (digits2_pos m) <= 53).
  { destruct (Z.le_gt_cases (Z.pos (digits2_pos m)) 53) as [|Hgt]; [assumption|].
    assert (2 ^ 53 <= 2 ^ (Z.pos (digits2_pos m) - 1))
      by (apply Z.pow_le_mono_r; lia).
    lia. }
  assert (Hf : fexp prec emax (Z.pos (digits2_pos m) + 0)
               = Z.pos (digits2_pos m) - 53).
  { unfold fexp, emin, emax, prec. lia. }
  rewrite Hf. unfold shl_align.
  destruct (Z.pos (digits2_pos m) - 53 - 0) as [|k|k] eqn:Hk; try lia.
  - assert (Hb : bounded prec emax m 0 = true).
    { unfold bounded, canonical_mantissa, fexp, emin, emax, prec.
      apply andb_true_iff. split; [apply Z.eqb_eq|apply Z.leb_le]; lia. }
    rewrite binary_round_aux_canonical by exact Hb.
    rewrite Prim2SF_SF2Prim; [eauto|exact Hb].
  - assert (Hb : bounded prec emax (Pos.iter xO m k)
                   (Z.pos (digits2_pos m) - 53) = true).
    { unfold bounded, canonical_mantissa. rewrite digits2_pos_iter_xO.
      unfold fexp, emin, emax, prec.
      apply andb_true_iff. split; [apply Z.eqb_eq|apply Z.leb_le]; lia. }
    rewrite binary_round_aux_canonical by exact Hb.
    rewrite Prim2SF_SF2Prim; [eauto|exact Hb].
Qed.

End Signs.

Lemma positive_SF (v : float) :
  (0 <? v)%float = true ->
  Prim2SF v = S754_infinity false \/ exists m e, Prim2SF v = S754_finite false m e.
Proof.
  rewrite FloatAxioms.ltb_spec. change (Prim2SF 0) with (S754_zero false).
  destruct (Prim2SF v) as [s|s| |s m e]; try destruct s; try discriminate; eauto.
Qed.

Lemma div_one_positive (b : float) :
  (0 <? b)%float = true -> sf_nonneg (Prim2SF (1 / b)) = true.
Proof.
  intros Hb. rewrite FloatAxioms.div_spec.
  change (Prim2SF 1) with (S754_finite false 4503599627370496 (-52)).
  destruct (positive_SF b Hb) as [->|(m & e & ->)]; [reflexivity|].
  apply (SF64div_signs false).
Qed.

Lemma zero_div_positive (b : float) :
  (0 <? b)%float = true -> (0 / b)%float = 0%float.
Proof.
  intros Hb. apply Prim2SF_inj. rewrite FloatAxioms.div_spec.
  change (Prim2SF 0) with (S754_zero false).
  destruct (positive_SF b Hb) as [->|(m & e & ->)]; reflexivity.
Qed.

Lemma opp_nonneg (v : float) :
  sf_nonneg (Prim2SF v) = true -> sf_nonpos (Prim2SF (- v)) = true.
Proof.
  rewrite FloatAxioms.opp_spec.
  destruct (Prim2SF v) as [s|s| |s m e]; try destruct s; easy.
Qed.

Lemma add_zero_nonpos (v : float) :
  sf_nonpos (Prim2SF v) = true -> sf_nonpos (Prim2SF (v + 0)) = true.
Proof.
  rewrite FloatAxioms.add_spec. change (Prim2SF 0) with (S754_zero false).
  destruct (Prim2SF v) as [s|s| |s m e]; try destruct s; easy.
Qed.

Lemma negative_zero_add_nonneg (v : float) :
  sf_nonneg (Prim2SF v) = true -> sf_nonneg (Prim2SF (- 0 + v)) = true.
Proof.
  rewrite FloatAxioms.add_spec.
  change (Prim2SF (- 0)) with (S754_zero true).
  destruct (Prim2SF v) as [s|s| |s m e]; try destruct s; easy.
Qed.

Lemma div_batch_size_signs (v : float) (n : Z) :
  (0 < n < 2 ^ 53)%Z ->
  (sf_nonpos (Prim2SF v) = true -> sf_nonpos (Prim2SF (v / F64.of_Z n)) = true) /\
  (sf_nonneg (Prim2SF v) = true -> sf_nonneg (Prim2SF (v / F64.of_Z n)) = true).
Proof.
  intros Hn. destruct (of_Z_positive n Hn) as (m & e & Hm).
  rewrite FloatAxioms.div_spec, Hm.
  split; intros Hv.
  - destruct (Prim2SF v) as [s|s| |s mv ev]; try destruct s; try easy.
    apply (SF64div_signs true).
  - destruct (Prim2SF v) as [s|s| |s mv ev]; try destruct s; try easy.
    apply (SF64div_signs false).
Qed.

Lemma nonpos_leb_zero (v : float) :
  sf_nonpos (Prim2SF v) = true -> (v <=? 0)%float = true.
Proof.
  rewrite FloatAxioms.leb_spec. change (Prim2SF 0) with (S754_zero false).
  destruct (Prim2SF v) as [s|s| |s m e]; try destruct s; easy.
Qed.

(** The two cases of the seed formula. *)
Lemma seed_entry_label_one (p : float) (n : Z) :
  (0 <? p)%float = true -> (0 <? 1 - p)%float = true -> (0 < n < 2 ^ 53)%Z ->
  ((- (1 / p) + 0 / (1 - p)) / F64.of_Z n <=? 0)%float = true.
Proof.
  intros Hp Hq Hn.
  rewrite (zero_div_positive _ Hq).
  apply nonpos_leb_zero.
  apply (div_batch_size_signs _ n Hn).
  apply add_zero_nonpos, opp_nonneg, div_one_positive, Hp.
Qed.

Lemma seed_entry_label_zero (p : float) (n : Z) :
  (0 <? p)%float = true -> (0 <? 1 - p)%float = true -> (0 < n < 2 ^ 53)%Z ->
  (0 <=? (- (0 / p) + 1 / (1 - p)) / F64.of_Z n)%float = true.
Proof.
  intros Hp Hq Hn.
  rewrite (zero_div_positive _ Hp).
  apply leb_zero_nonneg.
  apply (div_batch_size_signs _ n Hn).
  apply negative_zero_add_nonneg, div_one_positive, Hq.
Qed.

(** X23.  Away from saturation the seed gradient has the sign that moves the
    prediction towards its label and is never NaN: in every entry where the
    probability [p] and the computed [1 - p] are both positive, the entry is
    [<= 0] for label [1] and [>= 0] for label [0].  This holds for labels and
    probabilities of one shape and any batch of fewer than [2^53] rows. *)
Theorem seed_gradient_sign (h : heap) (y p : loc) (Yl : array Z)
    (P : array float) :
  h !! y = Some (Int64 Yl) -> h !! p = Some (Float64 P) ->
  wf Yl -> wf P -> nrows Yl = nrows P -> ncols Yl = ncols P ->
  (Z.of_nat (nrows P) < 2 ^ 53)%Z ->
  exists grad h' Gd,
    seed_gradient y p h = Ok (grad, h') /\
    h' !! grad = Some (Float64 Gd) /\
    forall i j, i < nrows P -> j < ncols P ->
      (0 <? get P i j)%float = true -> (0 <? 1 - get P i j)%float = true ->
      (get Yl i j = 1%Z -> (get Gd i j <=? 0)%float = true) /\
      (get Yl i j = 0%Z -> (0 <=? get Gd i j)%float = true).
Proof.
  intros Hy Hp HwfY HwfP Hr Hc Hn.
  do 3 eexists. split.
  { eapply seed_gradient_run; eauto.
    - now apply broadcast_same.
    - now apply broadcast_same.
    - now apply broadcast_same. }
  split; [now rewrite lookup_allocated|].
  intros i j Hi Hj Hpos Hone.
  rewrite get_vectorize by (simpl; (apply tabulate_wf || congruence)).
  simpl. rewrite Hr.
  rewrite get_tabulate by congruence.
  rewrite get_vectorize by (simpl; (apply tabulate_wf || congruence)).
  rewrite !get_tabulate by congruence.
  rewrite !get_vectorize by (assumption || congruence).
  split; intros ->.
  - change (F64.of_Z 1) with 1%float.
    change (F64.of_Z (F64.wrap64 (1 - 1))) with 0%float.
    apply seed_entry_label_one; [assumption..|lia].
  - change (F64.of_Z 0) with 0%float.
    change (F64.of_Z (F64.wrap64 (1 - 0))) with 1%float.
    apply seed_entry_label_zero; [assumption..|lia].
Qed.

Lemma seed_gradient_sign_witness :
  let P := MkArray 3 1 [0.25; 0.5; 0.75]%float in
  exists grad h' Gd,
    seed_gradient 0 1 [Int64 network_labels; Float64 P] = Ok (grad, h') /\
    h' !! grad = Some (Float64 Gd) /\
    forall i j, i < 3 -> j < 1 ->
      (0 <? get P i j)%float = true -> (0 <? 1 - get P i j)%float = true ->
      (get network_labels i j = 1%Z -> (get Gd i j <=? 0)%float = true) /\
      (get network_labels i j = 0%Z -> (0 <=? get Gd i j)%float = true).
Proof.
  exact (seed_gradient_sign [Int64 network_labels;
                             Float64 (MkArray 3 1 [0.25; 0.5; 0.75]%float)]
           0 1 network_labels (MkArray 3 1 [0.25; 0.5; 0.75]%float)
           eq_refl eq_refl eq_refl eq_refl eq_refl eq_refl eq_refl).
Defined.
